(** * klepto: the text dumper (pkg/dumper/query/dumper.go)

    A shallow embedding of the query dumper: the value coercer
    [toSQLStringValue], the row serialiser [toSQLColumnMap], the per-table
    worker goroutine and the orchestrating [Dump] method, followed by the
    properties the specification states about them. *)

From Stdlib Require Import ZArith DecimalString DecimalZ DecimalFacts.
From stdpp Require Import gmap strings list fin_maps.

Local Open Scope Z_scope.
Local Open Scope string_scope.
Local Open Scope list_scope.

(** ** Errors and abnormal termination *)

(** Go [error] values as the file builds them: [errors.New msg] and
    [errors.Wrap cause msg].  Errors handed over by the collaborators
    (reader, sink) are [ErrNew] values as well. *)
Inductive error : Type :=
| ErrNew (msg : string)
| ErrWrap (cause : error) (msg : string).

(** A Go call either returns or panics. *)
Inductive outcome (A : Type) : Type :=
| Ret (a : A)
| Panic (msg : string).
Arguments Ret {A} a.
Arguments Panic {A} msg.

Definition nil_dereference : string :=
  "runtime error: invalid memory address or nil pointer dereference".

(** ** Dynamically typed column values *)

(** [time.Time], kept as the instant and the zone name. *)
Record Time : Type := mkTime { unix_sec : Z; nsec : Z; zone : string }.

(** Numeric dynamic types that are not one of the two the type switch
    lists ([int64], [float64]). *)
Inductive numkind : Type :=
| KInt | KInt8 | KInt16 | KInt32
| KUint | KUint8 | KUint16 | KUint32 | KUint64
| KFloat32.

(** An [interface{}] value: its dynamic type together with the payload.
    [VNil] is the nil interface (no dynamic type).  A [*interface{}] is
    either the typed nil pointer [VNilBox] or a pointer [VBox inner] to
    another interface value.  [VNum] covers the other numeric types with
    the payload kept as its bit pattern, and [VOpaque] every remaining
    dynamic type (structs, slices, maps, other pointers), named by its
    type. *)
Inductive value : Type :=
| VInt64 (v : Z)
| VFloat64 (bits : Z)
| VBool (v : bool)
| VString (v : string)
| VBytes (v : list Byte.byte)
| VTime (v : Time)
| VNil
| VNilBox
| VBox (inner : value)
| VNum (k : numkind) (bits : Z)
| VOpaque (tyname : string).

(** [src == nil] on an interface value: true only when the interface has
    neither a dynamic type nor a value. *)
Definition is_nil (src : value) : bool :=
  match src with
  | VNil => true
  | _ => false
  end.

(** The value kinds the data model lists: signed 64-bit integer, 64-bit
    float, boolean, string, byte sequence, timestamp, null, and a box
    (absent, or around one of these). *)
Fixpoint supported (v : value) : bool :=
  match v with
  | VInt64 _ | VFloat64 _ | VBool _ | VString _ | VBytes _ | VTime _ => true
  | VNil | VNilBox => true
  | VBox inner => supported inner
  | VNum _ _ | VOpaque _ => false
  end.

(** What a chain of pointers leads to: the value that is not itself a
    non-nil [*interface{}]. *)
Fixpoint strip (v : value) : value :=
  match v with
  | VBox inner => strip inner
  | _ => v
  end.

(** A [database.Row] is a Go map from column name to value.  Ranging over
    it visits each entry once, in an order the runtime picks; a row is
    given here as its entries in the order the range loop visits them. *)
Definition Row : Type := list (string * value).

Definition row_ok (row : Row) : Prop := NoDup (row.*1).

(** ** Standard-library formatting *)

(** [strconv.FormatInt(i, 10)]. *)
Definition FormatInt (i : Z) : string := NilZero.string_of_int (Z.to_int i).

(** Reading a decimal numeral back, to state that [FormatInt] is exact. *)
Definition ParseInt (s : string) : option Z :=
  match NilZero.int_of_string s with
  | Some d => Some (Z.of_int d)
  | None => None
  end.

(** [strconv.FormatBool]. *)
Definition FormatBool (b : bool) : string := if b then "true" else "false".

(** [fmt.Sprintf("%v", s)] on a string. *)
Definition Sprintf_v (s : string) : string := s.

Definition ErrCouldNotParse : error := ErrNew "could not parse type".

(** How often a line occurs among some lines. *)
Definition occ (x : string) (l : list string) : nat :=
  count_occ String.string_dec l x.

(** The line feed written after every statement. *)
Definition newline : string := String (Ascii.ascii_of_nat 10) EmptyString.

(** ** Value coercer and row serialiser *)

Section Model.

(** [fmt.Sprintf("%v", f)] on a [float64] given by its bits, and
    [time.Time.String]. *)
Variable fmt_float64 : Z -> string.
Variable time_String : Time -> string.

(** [textDumper.toSQLStringValue]: one branch per case of the type
    switch, in the order of the source.  Within the [*interface{}] case
    [src] still has its interface type, so the test [src == nil] is
    [is_nil src]. *)
Fixpoint toSQLStringValue (src : value) : outcome (string * option error) :=
  match src with
  | VInt64 v => Ret (FormatInt v, None)
  | VFloat64 v => Ret (fmt_float64 v, None)
  | VBool v => Ret (FormatBool v, None)
  | VString v => Ret (v, None)
  | VBytes v => Ret (String.string_of_list_byte v, None)
  | VTime v => Ret (time_String v, None)
  | VNil => Ret ("NULL", None)
  | VNilBox =>
      if is_nil src then Ret ("NULL", None) else Panic nil_dereference
  | VBox inner =>
      if is_nil src then Ret ("NULL", None) else toSQLStringValue inner
  | VNum _ _ | VOpaque _ => Ret ("", Some ErrCouldNotParse)
  end.

(** The range loop of [textDumper.toSQLColumnMap] over the entries still
    to visit, with the map filled so far. *)
Fixpoint range_row (sqlColumnMap : gmap string string) (cells : Row)
  : outcome (gmap string string * option error) :=
  match cells with
  | [] => Ret (sqlColumnMap, None)
  | (column, v) :: rest =>
      match toSQLStringValue v with
      | Panic msg => Panic msg
      | Ret (_, Some err) => Ret (sqlColumnMap, Some err)
      | Ret (strValue, None) =>
          range_row (<[column := Sprintf_v strValue]> sqlColumnMap) rest
      end
  end.

(** [textDumper.toSQLColumnMap]. *)
Definition toSQLColumnMap (row : Row)
  : outcome (gmap string string * option error) :=
  range_row ∅ row.

(** A cell converts when the coercer returns a literal and no error. *)
Definition converts (v : value) : Prop :=
  exists s, toSQLStringValue v = Ret (s, None).

(** The map the loop has built after visiting [cells] successfully. *)
Definition literals (acc : gmap string string) (cells : Row)
  : gmap string string :=
  foldl (fun m '(column, v) =>
           match toSQLStringValue v with
           | Ret (s, None) => <[column := Sprintf_v s]> m
           | _ => m
           end) acc cells.

(** ** Collaborators of the dumper *)

(** [config.Table]: the name, the ignore-data flag, and the remaining
    settings of the entry, which only the option builder looks at. *)
Variable Settings : Type.

Record Table : Type := mkTable {
  Name : string;
  IgnoreData : bool;
  Rest : Settings
}.

(** Modelled from the spec: [config.Tables.FindByName] (package
    pkg/config), the lookup of a table's configuration by name, giving the
    entry or the not-found sentinel; the first entry of that name wins. *)
Fixpoint FindByName (cfgTables : list Table) (name : string) : option Table :=
  match cfgTables with
  | [] => None
  | t :: rest =>
      if String.eqb (Name t) name then Some t else FindByName rest name
  end.

(** [reader.ReadTableOpt], its zero value ([var opts reader.ReadTableOpt])
    and [reader.NewReadTableOpt]. *)
Variable ReadTableOpt : Type.
Variable zeroOpt : ReadTableOpt.
Variable NewReadTableOpt : Table -> ReadTableOpt.

(** Modelled from the spec: the table reader ([reader.Reader], package
    pkg/reader).  Enumerating the tables and fetching the schema preamble
    give a result or an error; populating a stream for a table pushes zero
    or more rows into it, then closes it, and returns an error if
    retrieval failed on the way. *)
Record Reader : Type := mkReader {
  GetTables : list string * option error;
  GetStructure : string * option error;
  ReadTable : string -> ReadTableOpt -> list Row * option error
}.

(** The output sink, an [io.Writer]: [io.WriteString] on a sink state
    gives the next state and the error of the call, if any. *)
Variable Sink : Type.
Variable WriteString : Sink -> string -> Sink * option error.

(** [sq.DebugSqlizer(sq.Insert(tableName).SetMap(columnMap))], the text of
    the insert statement (squirrel). *)
Variable insert_sql : string -> gmap string string -> string.

(** ** The process: orchestrator, workers and the caller's [done] channel *)

(** Log entries of severity error and above (logrus); debug messages are
    left out. *)
Inductive level : Type := LvlError | LvlFatal.

Record entry : Type := mkEntry {
  e_level : level;
  e_table : string;
  e_error : error;
  e_msg : string
}.

(** Control points of a worker goroutine (lines 67-88). *)
Inductive wstate : Type :=
| WRecv                 (* line 69: waiting on [<-rowChan] *)
| WRow (row : Row)      (* line 75: a row was received *)
| WStmt (stmt : string) (* line 81: the insert statement is rendered *)
| WNewline              (* line 84: the statement write was attempted *)
| WSignal               (* line 71: waiting on [done <- struct{}{}] *)
| WExit.                (* line 72: returned *)

(** A worker with the table it was spawned for and the state of its own
    unbuffered [rowChan] (closed by the reader or still open). *)
Record worker : Type := mkWorker {
  wtable : string;
  wclosed : bool;
  wpc : wstate
}.

(** Control points of the goroutine that runs [Dump]: at the head of the
    loop over the tables still to visit; inside [reader.ReadTable] for a
    table, with the channel (the index of the worker that receives from
    it), the rows still to push and the error the call will return; or
    returned. *)
Inductive mstate : Type :=
| MLoop (todo : list string)
| MRead (chan : nat) (tbl : string) (pending : list Row)
        (err : option error) (todo : list string)
| MReturned (err : option error).

(** How the process ended early: [os.Exit] from the fatal log call, or an
    unrecovered panic. *)
Inductive halt_reason : Type :=
| Exited (code : Z)
| Crashed (msg : string).

(** The whole process.  [reads] lists the [ReadTable] calls made,
    [signals] the workers (by index) whose send on [done] was received. *)
Record state : Type := mkState {
  main : mstate;
  workers : list worker;
  sink : Sink;
  logs : list entry;
  reads : list (string * ReadTableOpt);
  signals : list nat;
  halted : option halt_reason
}.

Definition set_main (m : mstate) (s : state) : state :=
  mkState m (workers s) (sink s) (logs s) (reads s) (signals s) (halted s).

Definition set_worker (i : nat) (w : worker) (s : state) : state :=
  mkState (main s) (<[i := w]> (workers s)) (sink s) (logs s) (reads s)
          (signals s) (halted s).

Definition set_sink (o : Sink) (s : state) : state :=
  mkState (main s) (workers s) o (logs s) (reads s) (signals s) (halted s).

Definition add_log (e : entry) (s : state) : state :=
  mkState (main s) (workers s) (sink s) (logs s ++ [e]) (reads s)
          (signals s) (halted s).

Definition add_signal (i : nat) (s : state) : state :=
  mkState (main s) (workers s) (sink s) (logs s) (reads s)
          (signals s ++ [i]) (halted s).

Definition set_halted (h : halt_reason) (s : state) : state :=
  mkState (main s) (workers s) (sink s) (logs s) (reads s) (signals s)
          (Some h).

Definition set_pc (pc : wstate) (w : worker) : worker :=
  mkWorker (wtable w) (wclosed w) pc.

Definition close_chan (w : worker) : worker :=
  mkWorker (wtable w) true (wpc w).

(** [logger.WithError(err).Error(msg)] when [err] is not nil. *)
Definition log_if_error (tbl : string) (err : option error) (msg : string)
  (s : state) : state :=
  match err with
  | Some e => add_log (mkEntry LvlError tbl e msg) s
  | None => s
  end.

Variable rdr : Reader.
Variable cfgTables : list Table.

(** Lines 36-47: the state in which [Dump] reaches the loop, or has
    already returned a wrapped error. *)
Definition Dump_begin (output : Sink) : state :=
  match GetTables rdr with
  | (_, Some err) =>
      mkState (MReturned (Some (ErrWrap err "failed to get tables")))
              [] output [] [] [] None
  | (tables, None) =>
      match GetStructure rdr with
      | (_, Some err) =>
          mkState
            (MReturned (Some (ErrWrap err "could not get database structure")))
            [] output [] [] [] None
      | (structure, None) =>
          match WriteString output structure with
          | (output', Some err) =>
              mkState
                (MReturned
                   (Some (ErrWrap err "could not write structure to output")))
                [] output' [] [] [] None
          | (output', None) => mkState (MLoop tables) [] output' [] [] [] None
          end
      end
  end.

(** Lines 65-90: a fresh channel, the worker spawned on it, and the call
    of [reader.ReadTable] with that channel. *)
Definition start_table (tbl : string) (opts : ReadTableOpt)
  (todo : list string) (s : state) : state :=
  let '(rows, err) := ReadTable rdr tbl opts in
  mkState (MRead (length (workers s)) tbl rows err todo)
          (workers s ++ [mkWorker tbl false WRecv])
          (sink s) (logs s) (reads s ++ [(tbl, opts)]) (signals s) (halted s).

(** A step of the orchestrator that needs no partner: one turn of the
    loop head (lines 49-62 and the spawn), the end of a [ReadTable] call
    (the reader closes the channel and returns; lines 90-92), or the
    final [return nil]. *)
Definition main_step (s : state) : option state :=
  match main s with
  | MLoop [] => Some (set_main (MReturned None) s)
  | MLoop (tbl :: todo) =>
      match FindByName cfgTables tbl with
      | None => Some (start_table tbl zeroOpt todo s)
      | Some tableConfig =>
          if IgnoreData tableConfig then Some (set_main (MLoop todo) s)
          else Some (start_table tbl (NewReadTableOpt tableConfig) todo s)
      end
  | MRead chan tbl [] err todo =>
      match workers s !! chan with
      | Some w =>
          Some (log_if_error tbl err "error while reading table"
                  (set_main (MLoop todo) (set_worker chan (close_chan w) s)))
      | None => None
      end
  | MRead _ _ (_ :: _) _ _ => None
  | MReturned _ => None
  end.

(** The hand-off of one row over the unbuffered channel: the reader is at
    a send and the worker at its receive. *)
Definition send_step (s : state) : option state :=
  match main s with
  | MRead chan tbl (row :: pending) err todo =>
      match workers s !! chan with
      | Some w =>
          match wpc w with
          | WRecv =>
              Some (set_main (MRead chan tbl pending err todo)
                      (set_worker chan (set_pc (WRow row) w) s))
          | _ => None
          end
      | None => None
      end
  | _ => None
  end.

(** A step of worker [i] on its own: it sees its channel closed, converts
    the row it holds, or attempts one of the two writes.  The fatal log
    call is one step here: its entry and the end of the process are not
    separated by steps of other workers, as they can be at run time. *)
Definition worker_step (i : nat) (s : state) : option state :=
  match workers s !! i with
  | None => None
  | Some w =>
      match wpc w with
      | WRecv =>
          if wclosed w then Some (set_worker i (set_pc WSignal w) s) else None
      | WRow row =>
          match toSQLColumnMap row with
          | Ret (columnMap, None) =>
              Some (set_worker i
                      (set_pc (WStmt (insert_sql (wtable w) columnMap)) w) s)
          | Ret (_, Some err) =>
              Some (set_halted (Exited 1)
                      (add_log (mkEntry LvlFatal (wtable w) err
                                  "could not convert value to string") s))
          | Panic msg => Some (set_halted (Crashed msg) s)
          end
      | WStmt stmt =>
          let '(o, err) := WriteString (sink s) stmt in
          Some (log_if_error (wtable w) err
                  "could not write insert statement to output"
                  (set_worker i (set_pc WNewline w) (set_sink o s)))
      | WNewline =>
          let '(o, err) := WriteString (sink s) newline in
          Some (log_if_error (wtable w) err
                  "could not write new line to output"
                  (set_worker i (set_pc WRecv w) (set_sink o s)))
      | WSignal => None
      | WExit => None
      end
  end.

(** The caller receives from [done] while worker [i] is at its send. *)
Definition done_step (i : nat) (s : state) : option state :=
  match workers s !! i with
  | Some w =>
      match wpc w with
      | WSignal => Some (add_signal i (set_worker i (set_pc WExit w) s))
      | _ => None
      end
  | None => None
  end.

(** The scheduler's choices. *)
Inductive label : Type :=
| LMain
| LSend
| LWorker (i : nat)
| LDone (i : nat).

(** One step of the process; nothing moves once the process has ended. *)
Definition step (l : label) (s : state) : option state :=
  match halted s with
  | Some _ => None
  | None =>
      match l with
      | LMain => main_step s
      | LSend => send_step s
      | LWorker i => worker_step i s
      | LDone i => done_step i s
      end
  end.

(** A run along a schedule. *)
Fixpoint run (ls : list label) (s : state) : option state :=
  match ls with
  | [] => Some s
  | l :: ls' =>
      match step l s with
      | Some s' => run ls' s'
      | None => None
      end
  end.

(** No step is possible: the run is complete. *)
Definition complete (s : state) : Prop := forall l, step l s = None.

(** [Dump] has returned. *)
Definition returned (s : state) : Prop := exists r, main s = MReturned r.

(** The tables the loop starts a worker for: those without an entry, and
    those whose entry does not ignore the data. *)
Definition included (tbl : string) : bool :=
  match FindByName cfgTables tbl with
  | Some tableConfig => negb (IgnoreData tableConfig)
  | None => true
  end.

(** The options the loop passes to the reader for an included table. *)
Definition opts_for (tbl : string) : ReadTableOpt :=
  match FindByName cfgTables tbl with
  | Some tableConfig => NewReadTableOpt tableConfig
  | None => zeroOpt
  end.

(** ** Reading the state *)

(** The tables the loop has still to visit. *)
Definition todo_of (m : mstate) : list string :=
  match m with
  | MLoop todo => todo
  | MRead _ _ _ _ todo => todo
  | MReturned _ => []
  end.

(** The channel the reader is populating, if it is inside a call. *)
Definition reading (m : mstate) : option nat :=
  match m with
  | MRead chan _ _ _ _ => Some chan
  | _ => None
  end.

(** A worker that has left its loop: it is at the send on [done] or past
    it. *)
Definition leaving (pc : wstate) : bool :=
  match pc with
  | WSignal | WExit => true
  | _ => false
  end.

(** Numeric dynamic types, 64-bit or not. *)
Definition numeric (v : value) : bool :=
  match v with
  | VInt64 _ | VFloat64 _ | VNum _ _ => true
  | _ => false
  end.

(** ** A bound on the length of runs, and a scheduler *)

(** The steps a worker has left without receiving another row. *)
Definition worker_weight (pc : wstate) : nat :=
  match pc with
  | WRow _ => 5
  | WStmt _ => 4
  | WNewline => 3
  | WRecv => 2
  | WSignal => 1
  | WExit => 0
  end%nat.

(** The steps one table costs from the head of the loop: one to skip it;
    or one to start it, four for each row (the hand-off and the worker's
    three steps), one to close the channel, and the two steps by which
    the worker leaves. *)
Definition table_weight (tbl : string) : nat :=
  if included tbl
  then (4 * length (ReadTable rdr tbl (opts_for tbl)).1 + 4)%nat
  else 1%nat.

Fixpoint loop_weight (todo : list string) : nat :=
  match todo with
  | [] => 0%nat
  | tbl :: rest => (table_weight tbl + loop_weight rest)%nat
  end.

Definition main_weight (m : mstate) : nat :=
  match m with
  | MLoop todo => (1 + loop_weight todo)%nat
  | MRead _ _ pending _ todo => (4 * length pending + 2 + loop_weight todo)%nat
  | MReturned _ => 0%nat
  end.

Definition workers_weight (ws : list worker) : nat :=
  sum_list ((fun w => worker_weight (wpc w)) <$> ws).

(** An upper bound on the number of steps still possible. *)
Definition measure (s : state) : nat :=
  match halted s with
  | Some _ => 0%nat
  | None => (1 + main_weight (main s) + workers_weight (workers s))%nat
  end.

(** The labels worth trying in a state. *)
Definition choices (s : state) : list label :=
  LMain :: LSend ::
  flat_map (fun i => [LWorker i; LDone i]) (seq 0%nat (length (workers s))).

(** The first of the given labels that can move, with the state it leads
    to. *)
Fixpoint first_step (ls : list label) (s : state) : option (label * state) :=
  match ls with
  | [] => None
  | l :: ls' =>
      match step l s with
      | Some s' => Some (l, s')
      | None => first_step ls' s
      end
  end.

(** The same without the caller: nobody receives from [done]. *)
Definition quiet_choices (s : state) : list label :=
  LMain :: LSend :: (LWorker <$> seq 0%nat (length (workers s))).

(** A scheduler: among the labels [pick] offers it moves the first that
    can move, for at most [fuel] steps, and gives the schedule followed
    and the state reached. *)
Fixpoint drain (pick : state -> list label) (fuel : nat) (s : state)
  : list label * state :=
  match fuel with
  | O => ([], s)
  | S fuel' =>
      match first_step (pick s) s with
      | Some (l, s') =>
          let '(ls, s'') := drain pick fuel' s' in (l :: ls, s'')
      | None => ([], s)
      end
  end.

(** The labels by which the caller receives a signal. *)
Definition is_done (l : label) : bool :=
  match l with
  | LDone _ => true
  | _ => false
  end.

(** The number of completion signals received from worker [i]. *)
Definition emitted (i : nat) (s : state) : nat :=
  length (filter (fun j => j = i) (signals s)).

(** ** The step relation

    The steps of [step] spelled out one by one, for reasoning by cases. *)
Inductive transition : label -> state -> state -> Prop :=
| T_return s :
    halted s = None -> main s = MLoop [] ->
    transition LMain s (set_main (MReturned None) s)
| T_skip s tbl todo :
    halted s = None -> main s = MLoop (tbl :: todo) ->
    included tbl = false ->
    transition LMain s (set_main (MLoop todo) s)
| T_start s tbl todo :
    halted s = None -> main s = MLoop (tbl :: todo) ->
    included tbl = true ->
    transition LMain s (start_table tbl (opts_for tbl) todo s)
| T_close s chan tbl err todo w :
    halted s = None -> main s = MRead chan tbl [] err todo ->
    workers s !! chan = Some w ->
    transition LMain s
      (log_if_error tbl err "error while reading table"
         (set_main (MLoop todo) (set_worker chan (close_chan w) s)))
| T_send s chan tbl row pending err todo w :
    halted s = None -> main s = MRead chan tbl (row :: pending) err todo ->
    workers s !! chan = Some w -> wpc w = WRecv ->
    transition LSend s
      (set_main (MRead chan tbl pending err todo)
         (set_worker chan (set_pc (WRow row) w) s))
| T_closed s i w :
    halted s = None -> workers s !! i = Some w ->
    wpc w = WRecv -> wclosed w = true ->
    transition (LWorker i) s (set_worker i (set_pc WSignal w) s)
| T_convert s i w row columnMap :
    halted s = None -> workers s !! i = Some w -> wpc w = WRow row ->
    toSQLColumnMap row = Ret (columnMap, None) ->
    transition (LWorker i) s
      (set_worker i (set_pc (WStmt (insert_sql (wtable w) columnMap)) w) s)
| T_fatal s i w row columnMap err :
    halted s = None -> workers s !! i = Some w -> wpc w = WRow row ->
    toSQLColumnMap row = Ret (columnMap, Some err) ->
    transition (LWorker i) s
      (set_halted (Exited 1)
         (add_log (mkEntry LvlFatal (wtable w) err
                     "could not convert value to string") s))
| T_panic s i w row msg :
    halted s = None -> workers s !! i = Some w -> wpc w = WRow row ->
    toSQLColumnMap row = Panic msg ->
    transition (LWorker i) s (set_halted (Crashed msg) s)
| T_write s i w stmt :
    halted s = None -> workers s !! i = Some w -> wpc w = WStmt stmt ->
    transition (LWorker i) s
      (log_if_error (wtable w) (WriteString (sink s) stmt).2
         "could not write insert statement to output"
         (set_worker i (set_pc WNewline w)
            (set_sink (WriteString (sink s) stmt).1 s)))
| T_newline s i w :
    halted s = None -> workers s !! i = Some w -> wpc w = WNewline ->
    transition (LWorker i) s
      (log_if_error (wtable w) (WriteString (sink s) newline).2
         "could not write new line to output"
         (set_worker i (set_pc WRecv w)
            (set_sink (WriteString (sink s) newline).1 s)))
| T_done s i w :
    halted s = None -> workers s !! i = Some w -> wpc w = WSignal ->
    transition (LDone i) s (add_signal i (set_worker i (set_pc WExit w) s)).

(** What holds of every state a run from the loop over [tables] reaches:
    the only open channel is the one the reader is populating; a worker
    leaves its loop only on a closed channel; the signals received are
    those of the workers that returned, each once; a worker exists, and a
    read was requested, exactly for the included tables visited so far,
    in order. *)
Record inv (tables : list string) (s : state) : Prop := mkInv {
  inv_open : forall i w,
    workers s !! i = Some w -> wclosed w = false -> reading (main s) = Some i;
  inv_reading : forall i,
    reading (main s) = Some i ->
    exists w, workers s !! i = Some w /\ wclosed w = false;
  inv_leaving : forall i w,
    workers s !! i = Some w -> leaving (wpc w) = true -> wclosed w = true;
  inv_signals : forall i,
    i ∈ signals s <-> exists w, workers s !! i = Some w /\ wpc w = WExit;
  inv_once : NoDup (signals s);
  inv_reads :
    reads s = (fun w => (wtable w, opts_for (wtable w))) <$> workers s;
  inv_visited :
    (wtable <$> workers s) ++ filter (fun t => included t = true)
                                (todo_of (main s))
    = filter (fun t => included t = true) tables
}.

(** ** The lines a dump consists of *)

(** The rows the reader pushes for a table, and the error its call
    returns, with the options the loop passes for that table. *)
Definition rows_of (tbl : string) : list Row :=
  (ReadTable rdr tbl (opts_for tbl)).1.

Definition read_error (tbl : string) : option error :=
  (ReadTable rdr tbl (opts_for tbl)).2.

(** The two writes a worker makes for a row of its table: the insert
    statement (lines 80-81) and the line feed (line 84); none when the row
    does not convert. *)
Definition row_lines (tbl : string) (row : Row) : list string :=
  match toSQLColumnMap row with
  | Ret (columnMap, None) => [insert_sql tbl columnMap; newline]
  | _ => []
  end.

(** The lines of all rows of the tables of a list that are not skipped,
    table by table. *)
Definition all_lines (tables : list string) : list string :=
  flat_map (fun tbl => flat_map (row_lines tbl) (rows_of tbl))
           (filter (fun t => included t = true) tables).

(** The writes a worker has still to make for the row it holds. *)
Definition worker_owes (w : worker) : list string :=
  match wpc w with
  | WRow row => row_lines (wtable w) row
  | WStmt stmt => [stmt; newline]
  | WNewline => [newline]
  | _ => []
  end.

(** The lines of the rows the orchestrator has still to hand over. *)
Definition main_owes (m : mstate) : list string :=
  match m with
  | MLoop todo => all_lines todo
  | MRead _ tbl pending _ todo =>
      flat_map (row_lines tbl) pending ++ all_lines todo
  | MReturned _ => []
  end.

Definition owed (s : state) : list string :=
  main_owes (main s) ++ flat_map worker_owes (workers s).

(** The log entries of the reader's failed calls (line 91). *)
Definition read_failures (l : list entry) : list entry :=
  filter (fun e => e_msg e = "error while reading table") l.

(** The log entries of the writes the sink refused (lines 81 and 85). *)
Definition write_failures (l : list entry) : list entry :=
  filter (fun e => e_msg e = "could not write insert statement to output"
                   \/ e_msg e = "could not write new line to output") l.

(** The entry a closed worker's table has left in the log, if the read
    of the table failed. *)
Definition failure_of (w : worker) : option entry :=
  if wclosed w
  then match read_error (wtable w) with
       | Some e => Some (mkEntry LvlError (wtable w) e
                           "error while reading table")
       | None => None
       end
  else None.

(** What holds of every state of a run besides [inv]: inside a call of
    the reader, the channel is that of the worker spawned last, which is
    the worker of the table being read, the rows still to push are the
    last of the table's rows, and the error to return is that of the
    call; a worker holds a row of its own table only, and a statement
    rendered from such a row for that table; the process has halted only
    on a row that failed to convert or made the coercer panic. *)
Record ledger (s : state) : Prop := mkLedger {
  led_chan : forall chan tbl pending err todo,
    main s = MRead chan tbl pending err todo ->
    length (workers s) = S chan
    /\ (exists w, workers s !! chan = Some w /\ wtable w = tbl)
    /\ (exists pre, rows_of tbl = pre ++ pending)
    /\ err = read_error tbl;
  led_row : forall i w row,
    workers s !! i = Some w -> wpc w = WRow row -> row ∈ rows_of (wtable w);
  led_stmt : forall i w stmt,
    workers s !! i = Some w -> wpc w = WStmt stmt ->
    exists row columnMap,
      row ∈ rows_of (wtable w)
      /\ toSQLColumnMap row = Ret (columnMap, None)
      /\ stmt = insert_sql (wtable w) columnMap;
  led_halt : forall h,
    halted s = Some h ->
    exists i w row,
      workers s !! i = Some w /\ wpc w = WRow row
      /\ ((h = Exited 1
           /\ (exists columnMap,
                 toSQLColumnMap row = Ret (columnMap, Some ErrCouldNotParse))
           /\ exists before,
                logs s = before ++ [mkEntry LvlFatal (wtable w)
                                      ErrCouldNotParse
                                      "could not convert value to string"])
          \/ (h = Crashed nil_dereference
              /\ toSQLColumnMap row = Panic nil_dereference))
}.

(** ** The rows converted so far *)

(** The serialiser accepts the row. *)
Definition converted (row : Row) : Prop :=
  exists columnMap, toSQLColumnMap row = Ret (columnMap, None).

(** The rows a worker has received: all are converted, but for the last
    one while the worker still holds it. *)
Definition handled (w : worker) (rows : list Row) : Prop :=
  match wpc w with
  | WRow row => exists pre, rows = pre ++ [row] /\ Forall converted pre
  | _ => Forall converted rows
  end.

(** The worker of the table being read has received the rows pushed so
    far; the worker of a table whose read has returned has received all
    its rows. *)
Record progress (s : state) : Prop := mkProgress {
  pr_open : forall chan tbl pending err todo w,
    main s = MRead chan tbl pending err todo ->
    workers s !! chan = Some w ->
    exists pre, rows_of tbl = pre ++ pending /\ handled w pre;
  pr_closed : forall i w,
    workers s !! i = Some w -> wclosed w = true ->
    handled w (rows_of (wtable w))
}.

(** ** Sinks that can be read back *)

(** [view] reads back what a sink holds, as the lines written to it: a
    write that returns no error has appended its line, a write that
    returns an error has written nothing. *)
Definition records (view : Sink -> list string) : Prop :=
  forall o line,
    view (WriteString o line).1
    = match (WriteString o line).2 with
      | None => view o ++ [line]
      | Some _ => view o
      end.

(** The sink accepts every write. *)
Definition accepts_all : Prop :=
  forall o line, (WriteString o line).2 = None.

(** The log entry of a table whose read failed, if it did. *)
Definition failure_entry (tbl : string) : option entry :=
  match read_error tbl with
  | Some e => Some (mkEntry LvlError tbl e "error while reading table")
  | None => None
  end.

(** The lines each worker has written are in the sink, after [base], in
    the order of the rows of its table: for the worker of the table
    being read, the lines of the rows pushed so far, but for those it
    has still to write; for a worker whose channel is closed, the lines
    of all rows of its table, but for those it has still to write. *)
Definition ordered (view : Sink -> list string) (base : list string)
  (s : state) : Prop :=
  exists body,
    view (sink s) = base ++ body
    /\ (forall chan tbl pending err todo w,
          main s = MRead chan tbl pending err todo ->
          workers s !! chan = Some w ->
          exists pre L,
            rows_of tbl = pre ++ pending
            /\ L ++ worker_owes w = flat_map (row_lines tbl) pre
            /\ sublist L body)
    /\ (forall i w,
          workers s !! i = Some w -> wclosed w = true ->
          exists L,
            L ++ worker_owes w
            = flat_map (row_lines (wtable w)) (rows_of (wtable w))
            /\ sublist L body).

(** ** Closing the output *)

(** The output as an [io.WriteCloser], when its dynamic type has a
    [Close] method: the type assertion of line 100 gives the method or
    fails. *)
Variable Closer : option (Sink -> Sink * option error).

(** [textDumper.Close]: the state the output is left in and the error
    returned. *)
Definition Close (output : Sink) : Sink * option error :=
  match Closer with
  | Some close =>
      match close output with
      | (o, Some err) => (o, Some (ErrWrap err "failed to close output stream"))
      | (o, None) => (o, None)
      end
  | None =>
      (output, Some (ErrNew "unable to close output: wrong closer type"))
  end.

End Model.

Arguments mkTable {Settings} Name IgnoreData Rest.
Arguments Name {Settings} t.
Arguments IgnoreData {Settings} t.
Arguments Rest {Settings} t.
Arguments FindByName {Settings} cfgTables name.
Arguments mkReader {ReadTableOpt} GetTables GetStructure ReadTable.
Arguments GetTables {ReadTableOpt} r.
Arguments GetStructure {ReadTableOpt} r.
Arguments ReadTable {ReadTableOpt} r tbl opts.
Arguments mkState {ReadTableOpt Sink} main workers sink logs reads signals halted.
Arguments main {ReadTableOpt Sink} s.
Arguments workers {ReadTableOpt Sink} s.
Arguments sink {ReadTableOpt Sink} s.
Arguments logs {ReadTableOpt Sink} s.
Arguments reads {ReadTableOpt Sink} s.
Arguments signals {ReadTableOpt Sink} s.
Arguments halted {ReadTableOpt Sink} s.
Arguments set_main {ReadTableOpt Sink} m s.
Arguments set_worker {ReadTableOpt Sink} i w s.
Arguments set_sink {ReadTableOpt Sink} o s.
Arguments add_log {ReadTableOpt Sink} e s.
Arguments add_signal {ReadTableOpt Sink} i s.
Arguments set_halted {ReadTableOpt Sink} h s.
Arguments log_if_error {ReadTableOpt Sink} tbl err msg s.
Arguments returned {ReadTableOpt Sink} s.
Arguments emitted {ReadTableOpt Sink} i s.
Arguments table_weight {Settings ReadTableOpt} zeroOpt NewReadTableOpt rdr
  cfgTables tbl.
Arguments loop_weight {Settings ReadTableOpt} zeroOpt NewReadTableOpt rdr
  cfgTables todo.
Arguments main_weight {Settings ReadTableOpt} zeroOpt NewReadTableOpt rdr
  cfgTables m.
Arguments measure {Settings ReadTableOpt} zeroOpt NewReadTableOpt {Sink} rdr
  cfgTables s.
Arguments choices {ReadTableOpt Sink} s : simpl never.
Arguments rows_of {Settings ReadTableOpt} zeroOpt NewReadTableOpt rdr cfgTables
  tbl.
Arguments read_error {Settings ReadTableOpt} zeroOpt NewReadTableOpt rdr
  cfgTables tbl.
Arguments all_lines fmt_float64 time_String {Settings ReadTableOpt} zeroOpt
  NewReadTableOpt insert_sql rdr cfgTables tables.
Arguments main_owes fmt_float64 time_String {Settings ReadTableOpt} zeroOpt
  NewReadTableOpt insert_sql rdr cfgTables m.
Arguments owed fmt_float64 time_String {Settings ReadTableOpt} zeroOpt
  NewReadTableOpt {Sink} insert_sql rdr cfgTables s.
Arguments failure_of {Settings ReadTableOpt} zeroOpt NewReadTableOpt rdr
  cfgTables w.
Arguments ledger fmt_float64 time_String {Settings ReadTableOpt} zeroOpt
  NewReadTableOpt {Sink} insert_sql rdr cfgTables s.
Arguments led_chan {fmt_float64 time_String Settings ReadTableOpt zeroOpt
  NewReadTableOpt Sink insert_sql rdr cfgTables s} _.
Arguments led_row {fmt_float64 time_String Settings ReadTableOpt zeroOpt
  NewReadTableOpt Sink insert_sql rdr cfgTables s} _.
Arguments led_stmt {fmt_float64 time_String Settings ReadTableOpt zeroOpt
  NewReadTableOpt Sink insert_sql rdr cfgTables s} _.
Arguments led_halt {fmt_float64 time_String Settings ReadTableOpt zeroOpt
  NewReadTableOpt Sink insert_sql rdr cfgTables s} _.
Arguments Close {Sink} Closer output.
Arguments ordered fmt_float64 time_String {Settings ReadTableOpt} zeroOpt
  NewReadTableOpt {Sink} insert_sql rdr cfgTables view base s.
Arguments progress fmt_float64 time_String {Settings ReadTableOpt} zeroOpt
  NewReadTableOpt {Sink} rdr cfgTables s.
Arguments pr_open {fmt_float64 time_String Settings ReadTableOpt zeroOpt
  NewReadTableOpt Sink rdr cfgTables s} _.
Arguments pr_closed {fmt_float64 time_String Settings ReadTableOpt zeroOpt
  NewReadTableOpt Sink rdr cfgTables s} _.
Arguments occ x l : simpl never.
Arguments records {Sink} WriteString view.
Arguments accepts_all {Sink} WriteString.
Arguments failure_entry {Settings ReadTableOpt} zeroOpt NewReadTableOpt rdr
  cfgTables tbl.
Arguments first_step fmt_float64 time_String {Settings ReadTableOpt} zeroOpt
  NewReadTableOpt {Sink} WriteString insert_sql rdr cfgTables ls s.
Arguments quiet_choices {ReadTableOpt Sink} s : simpl never.
Arguments drain fmt_float64 time_String {Settings ReadTableOpt} zeroOpt
  NewReadTableOpt {Sink} WriteString insert_sql rdr cfgTables pick fuel s.
Arguments included {Settings} cfgTables tbl.
Arguments opts_for {Settings ReadTableOpt} zeroOpt NewReadTableOpt cfgTables tbl.
Arguments start_table {ReadTableOpt Sink} rdr tbl opts todo s.
Arguments Dump_begin {ReadTableOpt Sink} WriteString rdr output.
Arguments main_step {Settings ReadTableOpt} zeroOpt NewReadTableOpt {Sink} rdr
  cfgTables s.
Arguments send_step {ReadTableOpt Sink} s.
Arguments worker_step fmt_float64 time_String {ReadTableOpt Sink} WriteString
  insert_sql i s.
Arguments done_step {ReadTableOpt Sink} i s.
Arguments step fmt_float64 time_String {Settings ReadTableOpt} zeroOpt
  NewReadTableOpt {Sink} WriteString insert_sql rdr cfgTables l s.
Arguments run fmt_float64 time_String {Settings ReadTableOpt} zeroOpt
  NewReadTableOpt {Sink} WriteString insert_sql rdr cfgTables ls s.
Arguments complete fmt_float64 time_String {Settings ReadTableOpt} zeroOpt
  NewReadTableOpt {Sink} WriteString insert_sql rdr cfgTables s.
Arguments transition fmt_float64 time_String {Settings ReadTableOpt} zeroOpt
  NewReadTableOpt {Sink} WriteString insert_sql rdr cfgTables l s s'.
Arguments inv {Settings ReadTableOpt} zeroOpt NewReadTableOpt {Sink} cfgTables
  tables s.
Arguments inv_open {Settings ReadTableOpt zeroOpt NewReadTableOpt Sink cfgTables
  tables s} _.
Arguments inv_reading {Settings ReadTableOpt zeroOpt NewReadTableOpt Sink cfgTables
  tables s} _.
Arguments inv_leaving {Settings ReadTableOpt zeroOpt NewReadTableOpt Sink cfgTables
  tables s} _.
Arguments inv_signals {Settings ReadTableOpt zeroOpt NewReadTableOpt Sink cfgTables
  tables s} _.
Arguments inv_once {Settings ReadTableOpt zeroOpt NewReadTableOpt Sink cfgTables
  tables s} _.
Arguments inv_reads {Settings ReadTableOpt zeroOpt NewReadTableOpt Sink cfgTables
  tables s} _.
Arguments inv_visited {Settings ReadTableOpt zeroOpt NewReadTableOpt Sink cfgTables
  tables s} _.

(** ** A concrete environment for examples

    A sink that keeps the lines it was given, a sink that rejects every
    write, read options that carry a row limit taken from the table's
    entry, a reader over fixed tables, and a plain rendering of the insert
    statement. *)

(** Stand-ins for the two formatters of the Go runtime. *)
Definition demo_float (bits : Z) : string := "0x" +:+ FormatInt bits.

Definition demo_time (t : Time) : string :=
  FormatInt (unix_sec t) +:+ "." +:+ FormatInt (nsec t) +:+ " " +:+ zone t.

Definition keep_lines (o : list string) (line : string)
  : list string * option error :=
  (o ++ [line], None).

Definition reject_writes (o : list string) (line : string)
  : list string * option error :=
  (o, Some (ErrNew "short write")).

(** Modelled from the spec: [reader.NewReadTableOpt] (package
    pkg/reader), which builds the read options from a table's
    configuration entry.  Here the options are a row limit, with zero for
    no limit as the zero value, and the builder takes the limit from the
    settings of the entry. *)
Definition limit_of (t : @Table nat) : nat := Rest t.

(** A plain rendering of an insert statement, columns in key order. *)
Definition demo_insert (tbl : string) (m : gmap string string) : string :=
  "INSERT INTO " +:+ tbl +:+ " SET" +:+
  foldr (fun '(c, v) acc => " " +:+ c +:+ "=" +:+ v +:+ acc) "" (map_to_list m).

(** Rows of the examples. *)
Definition ann : Row := [("id", VInt64 1); ("name", VString "Ann")].
Definition bo : Row := [("id", VInt64 2); ("name", VString "Bo")].
Definition shape_row : Row := [("id", VInt64 7); ("at", VOpaque "geo.Point")].

(** Two tables, [users] with two rows and [logs] with one. *)
Definition demo_reader : @Reader nat :=
  mkReader (["users"; "logs"], None) ("CREATE TABLE users; ", None)
    (fun tbl _ =>
       if String.eqb tbl "users" then ([ann; bo], None)
       else ([[("line", VString "x")]], None)).

(** One table whose only row holds a value of a composite type. *)
Definition shapes_reader : @Reader nat :=
  mkReader (["shapes"], None) ("", None) (fun _ _ => ([shape_row], None)).

(** [logs] is configured with its data ignored. *)
Definition demo_config : list (@Table nat) := [mkTable "logs" true 0%nat].

(** The process in the concrete environment, for a reader and a
    configuration, with the sink that keeps its lines and, for
    [refusing_step], the one that rejects them. *)
Definition demo_step (rdr : @Reader nat) (cfg : list (@Table nat))
  : label -> state nat (list string) -> option (state nat (list string)) :=
  step demo_float demo_time 0%nat limit_of keep_lines demo_insert rdr cfg.

Definition demo_run (rdr : @Reader nat) (cfg : list (@Table nat))
  : list label -> state nat (list string) -> option (state nat (list string)) :=
  run demo_float demo_time 0%nat limit_of keep_lines demo_insert rdr cfg.

Definition refusing_run (rdr : @Reader nat) (cfg : list (@Table nat))
  : list label -> state nat (list string) -> option (state nat (list string)) :=
  run demo_float demo_time 0%nat limit_of reject_writes demo_insert rdr cfg.

Definition demo_begin (rdr : @Reader nat) : state nat (list string) :=
  Dump_begin keep_lines rdr [].

(** The worker of [users] takes the two rows one after the other and
    writes them, the reader closes the channel, [logs] is skipped and
    [Dump] returns. *)
Definition users_schedule : list label :=
  [LMain; LSend; LWorker 0; LWorker 0; LWorker 0;
   LSend; LWorker 0; LWorker 0; LWorker 0; LMain; LMain; LMain].

(** A worker of [users] that has just received the first row, while the
    reader still holds the second. *)
Definition holding_ann : state nat (list string) :=
  mkState (MRead 0 "users" [bo] None ["logs"])
          [mkWorker "users" false (WRow ann)]
          ["CREATE TABLE users; "] [] [("users", 0%nat)] [] None.

(** A reader whose table list cannot be fetched. *)
Definition broken_reader : @Reader nat :=
  mkReader ([], Some (ErrNew "connection refused")) ("", None)
    (fun _ _ => ([], None)).

(** A reader that pushes one row of [users] and then fails. *)
Definition flaky_reader : @Reader nat :=
  mkReader (["users"], None) ("", None)
    (fun _ _ => ([ann], Some (ErrNew "connection lost"))).

(** With no table skipped: the worker of [users] writes its two rows and
    the reader closes its channel; then [logs] is started, its worker
    writes the one row and the reader closes that channel; [Dump]
    returns, and the two workers leave. *)
Definition both_tables_schedule : list label :=
  [LMain; LSend; LWorker 0; LWorker 0; LWorker 0;
   LSend; LWorker 0; LWorker 0; LWorker 0; LMain;
   LMain; LSend; LWorker 1; LWorker 1; LWorker 1; LMain;
   LMain; LWorker 0; LDone 0; LWorker 1; LDone 1].

(** The run of [users_schedule] carried on until the worker has left. *)
Definition whole_schedule : list label :=
  users_schedule ++ [LWorker 0; LDone 0].

(** The reader has pushed both rows of [users]; the worker has converted
    the second and not yet written it. *)
Definition last_row_pending : list label :=
  [LMain; LSend; LWorker 0; LWorker 0; LWorker 0; LSend; LWorker 0].

(** The row of [logs]. *)
Definition line_row : Row := [("line", VString "x")].

(** The sink of the examples read back: it is the list of its lines. *)
Definition demo_view (o : list string) : list string := o.

(** * Properties *)

Section Facts.

Variable fmt_float64 : Z -> string.
Variable time_String : Time -> string.
Variable Settings : Type.
Variable ReadTableOpt : Type.
Variable zeroOpt : ReadTableOpt.
Variable NewReadTableOpt : @Table Settings -> ReadTableOpt.
Variable Sink : Type.
Variable WriteString : Sink -> string -> Sink * option error.
Variable insert_sql : string -> gmap string string -> string.
Variable rdr : @Reader ReadTableOpt.
Variable cfgTables : list (@Table Settings).

Local Abbreviation toSQLStringValue := (toSQLStringValue fmt_float64 time_String).
Local Abbreviation range_row := (range_row fmt_float64 time_String).
Local Abbreviation toSQLColumnMap := (toSQLColumnMap fmt_float64 time_String).
Local Abbreviation converts := (converts fmt_float64 time_String).
Local Abbreviation literals := (literals fmt_float64 time_String).
Local Abbreviation state := (state ReadTableOpt Sink).
Local Abbreviation included := (included cfgTables).
Local Abbreviation opts_for := (opts_for zeroOpt NewReadTableOpt cfgTables).
Local Abbreviation step :=
  (step fmt_float64 time_String zeroOpt NewReadTableOpt WriteString insert_sql
     rdr cfgTables).
Local Abbreviation run :=
  (run fmt_float64 time_String zeroOpt NewReadTableOpt WriteString insert_sql
     rdr cfgTables).
Local Abbreviation complete :=
  (complete fmt_float64 time_String zeroOpt NewReadTableOpt WriteString
     insert_sql rdr cfgTables).
Local Abbreviation transition :=
  (transition fmt_float64 time_String zeroOpt NewReadTableOpt WriteString
     insert_sql rdr cfgTables).
Local Abbreviation inv := (inv zeroOpt NewReadTableOpt cfgTables).
Local Abbreviation Dump_begin := (Dump_begin WriteString rdr).
Local Abbreviation table_weight :=
  (table_weight zeroOpt NewReadTableOpt rdr cfgTables).
Local Abbreviation loop_weight :=
  (loop_weight zeroOpt NewReadTableOpt rdr cfgTables).
Local Abbreviation main_weight :=
  (main_weight zeroOpt NewReadTableOpt rdr cfgTables).
Local Abbreviation measure := (measure zeroOpt NewReadTableOpt rdr cfgTables).
Local Abbreviation first_step :=
  (first_step fmt_float64 time_String zeroOpt NewReadTableOpt WriteString
     insert_sql rdr cfgTables).
Local Abbreviation drain :=
  (drain fmt_float64 time_String zeroOpt NewReadTableOpt WriteString
     insert_sql rdr cfgTables).
Local Abbreviation rows_of := (rows_of zeroOpt NewReadTableOpt rdr cfgTables).
Local Abbreviation read_error :=
  (read_error zeroOpt NewReadTableOpt rdr cfgTables).
Local Abbreviation row_lines := (row_lines fmt_float64 time_String insert_sql).
Local Abbreviation all_lines :=
  (all_lines fmt_float64 time_String zeroOpt NewReadTableOpt insert_sql rdr
     cfgTables).
Local Abbreviation worker_owes :=
  (worker_owes fmt_float64 time_String insert_sql).
Local Abbreviation main_owes :=
  (main_owes fmt_float64 time_String zeroOpt NewReadTableOpt insert_sql rdr
     cfgTables).
Local Abbreviation owed :=
  (owed fmt_float64 time_String zeroOpt NewReadTableOpt insert_sql rdr
     cfgTables).
Local Abbreviation failure_of :=
  (failure_of zeroOpt NewReadTableOpt rdr cfgTables).
Local Abbreviation ledger :=
  (ledger fmt_float64 time_String zeroOpt NewReadTableOpt insert_sql rdr
     cfgTables).
Local Abbreviation converted := (converted fmt_float64 time_String).
Local Abbreviation handled := (handled fmt_float64 time_String).
Local Abbreviation progress :=
  (progress fmt_float64 time_String zeroOpt NewReadTableOpt rdr cfgTables).
Local Abbreviation ordered :=
  (ordered fmt_float64 time_String zeroOpt NewReadTableOpt insert_sql rdr
     cfgTables).
Local Abbreviation records := (records WriteString).
Local Abbreviation accepts_all := (accepts_all WriteString).
Local Abbreviation failure_entry :=
  (failure_entry zeroOpt NewReadTableOpt rdr cfgTables).

(** ** The value coercer *)

Lemma to_int_not_nil (n : Z) :
  Z.to_int n <> Decimal.Pos Decimal.Nil /\ Z.to_int n <> Decimal.Neg Decimal.Nil.
Proof.
  destruct n as [|p|p]; simpl; split; try discriminate;
    intros H; injection H as H; exact (DecimalPos.Unsigned.to_uint_nonnil p H).
Qed.

(** The decimal text of an integer reads back as that integer. *)
Lemma FormatInt_exact (n : Z) : ParseInt (FormatInt n) = Some n.
Proof.
  unfold ParseInt, FormatInt.
  destruct (to_int_not_nil n) as [Hp Hn].
  rewrite (NilZero.isi _ Hp Hn).
  f_equal. apply DecimalZ.of_to.
Qed.

(** Different integers have different texts. *)
Lemma FormatInt_inj (n m : Z) : FormatInt n = FormatInt m -> n = m.
Proof.
  intros H.
  assert (E : ParseInt (FormatInt n) = ParseInt (FormatInt m)) by (now rewrite H).
  rewrite !FormatInt_exact in E. now injection E.
Qed.

(** A pointer to an interface value converts as the value it points to. *)
Lemma box_redispatch (inner : value) :
  toSQLStringValue (VBox inner) = toSQLStringValue inner.
Proof. reflexivity. Qed.

(** The coercer never hands back a literal together with an error. *)
Lemma coerce_error_no_literal (v : value) (s : string) (e : error) :
  toSQLStringValue v = Ret (s, Some e) -> s = "" /\ e = ErrCouldNotParse.
Proof. induction v; intros H; simplify_eq/=; auto. Qed.

(** An unsupported value fails with the parse error. *)
Lemma unsupported_fails (v : value) :
  supported v = false -> toSQLStringValue v = Ret ("", Some ErrCouldNotParse).
Proof. induction v; intros H; simplify_eq/=; auto. Qed.

(** A value converts or fails according to its kind alone; the one
    supported shape that does neither is a box around, in the end, the
    typed nil pointer. *)
Lemma supported_no_error (v : value) (s : string) (e : error) :
  supported v = true -> toSQLStringValue v <> Ret (s, Some e).
Proof.
  induction v as [| | | | | | | |inner IH| |]; intros H E; simplify_eq/=.
  now apply IH.
Qed.

(** ** The row serialiser *)

Lemma literals_app (acc : gmap string string) (xs ys : Row) :
  literals acc (xs ++ ys) = literals (literals acc xs) ys.
Proof. unfold literals. apply foldl_app. Qed.

(** While the cells convert, the loop goes on with the map grown by
    them. *)
Lemma range_row_app (pre rest : Row) (acc : gmap string string) :
  Forall (fun c => converts c.2) pre ->
  range_row acc (pre ++ rest) = range_row (literals acc pre) rest.
Proof.
  revert acc. induction pre as [|[k v] pre IH]; intros acc Hpre; [reflexivity|].
  inversion Hpre as [|? ? [s Hs] Hrest]; subst. simpl in Hs.
  cbn [app range_row]. rewrite Hs.
  rewrite IH by assumption.
  unfold literals. simpl. now rewrite Hs.
Qed.

(** The keys of the map built from converting cells. *)
Lemma literals_dom (pre : Row) (acc : gmap string string) :
  Forall (fun c => converts c.2) pre ->
  dom (literals acc pre) = dom acc ∪ list_to_set (pre.*1).
Proof.
  revert acc. induction pre as [|[k v] pre IH]; intros acc Hpre.
  - simpl. now rewrite (right_id_L ∅ (∪)).
  - inversion Hpre as [|? ? [s Hs] Hrest]; subst. simpl in Hs.
    change (literals acc ((k, v) :: pre))
      with (literals (literals acc [(k, v)]) pre).
    rewrite IH by assumption.
    unfold literals at 1. simpl. rewrite Hs.
    rewrite dom_insert_L, (comm_L (∪) {[k]}), <- (assoc_L (∪)).
    reflexivity.
Qed.

(** A row with a cell that does not convert is never serialised with
    success, wherever the cell stands in the iteration. *)
Lemma range_row_bad_cell (row : Row) (acc : gmap string string)
  (k : string) (v : value) :
  (k, v) ∈ row -> ~ converts v ->
  forall m, range_row acc row <> Ret (m, None).
Proof.
  revert acc. induction row as [|[k' v'] row IH]; intros acc Hin Hbad m.
  - inversion Hin.
  - simpl. destruct (toSQLStringValue v') as [[s [e|]]|msg] eqn:Hv';
      try discriminate.
    apply elem_of_cons in Hin as [Heq|Hin].
    + injection Heq as -> ->. exfalso. apply Hbad. now exists s.
    + now apply IH.
Qed.

(** A column the loop has not visited keeps what the map held for it. *)
Lemma literals_lookup_other (cells : Row) (acc : gmap string string)
  (c : string) :
  c ∉ cells.*1 -> literals acc cells !! c = acc !! c.
Proof.
  revert acc. induction cells as [|[k v] cells IH]; intros acc Hc; [reflexivity|].
  apply not_elem_of_cons in Hc as [Hne Hc].
  change (literals acc ((k, v) :: cells))
    with (literals (literals acc [(k, v)]) cells).
  rewrite IH by assumption.
  unfold literals. simpl.
  destruct (toSQLStringValue v) as [[s [e|]]|msg]; try reflexivity.
  now apply lookup_insert_ne.
Qed.

(** Each visited column is mapped to the literal of its own cell. *)
Lemma literals_lookup (cells : Row) (acc : gmap string string)
  (c : string) (x : value) (lit : string) :
  NoDup (cells.*1) -> (c, x) ∈ cells ->
  toSQLStringValue x = Ret (lit, None) ->
  literals acc cells !! c = Some (Sprintf_v lit).
Proof.
  revert acc. induction cells as [|[k v] cells IH]; intros acc Hnd Hin Hx.
  - inversion Hin.
  - apply NoDup_cons in Hnd as [Hk Hnd].
    change (literals acc ((k, v) :: cells))
      with (literals (literals acc [(k, v)]) cells).
    apply elem_of_cons in Hin as [Heq|Hin].
    + injection Heq as -> ->.
      rewrite literals_lookup_other by assumption.
      unfold literals. simpl. rewrite Hx. apply lookup_insert_eq.
    + now apply IH.
Qed.

(** A row whose cells all convert is serialised in full. *)
Lemma toSQLColumnMap_total (row : Row) :
  Forall (fun c => converts c.2) row ->
  toSQLColumnMap row = Ret (literals ∅ row, None)
  /\ dom (literals ∅ row) = list_to_set (row.*1).
Proof.
  intros Hrow. split.
  - unfold toSQLColumnMap.
    rewrite <- (app_nil_r row) at 1. now rewrite range_row_app.
  - rewrite literals_dom by assumption.
    now rewrite dom_empty_L, (left_id_L ∅ (∪)).
Qed.


(** C10: a numeric value is formatted as a number only when its dynamic
    type is exactly [int64] or [float64]; an integer of any other width or
    signedness and a [float32] reach the default case and fail with the
    parse error, with no literal. *)
Theorem C10_only_64_bit_numbers (v : value) :
  numeric v = true ->
  match v with
  | VInt64 n => toSQLStringValue v = Ret (FormatInt n, None)
  | VFloat64 bits => toSQLStringValue v = Ret (fmt_float64 bits, None)
  | _ => toSQLStringValue v = Ret ("", Some ErrCouldNotParse)
  end
  /\ (converts v -> (exists n, v = VInt64 n) \/ (exists bits, v = VFloat64 bits)).
Proof.
  intros Hnum. destruct v; simplify_eq/=; split; try reflexivity.
  - intros _. left. eauto.
  - intros _. right. eauto.
  - intros [s Hs]. discriminate.
Qed.

(** C2: a pointer to an interface value is unwrapped and converted as
    the value it points to, also when boxes are nested, and a pointer to
    the nil interface gives "NULL"; but the typed nil pointer does not
    give "NULL": the test [src == nil] is false for it and the dereference
    panics. *)
Theorem C2_nil_box_panics :
  (forall inner : value,
      toSQLStringValue (VBox inner) = toSQLStringValue inner)
  /\ toSQLStringValue (VBox VNil) = Ret ("NULL", None)
  /\ is_nil VNilBox = false
  /\ toSQLStringValue VNilBox = Panic nil_dereference
  /\ toSQLColumnMap [("id", VInt64 1); ("note", VNilBox)]
     = Panic nil_dereference.
Proof. repeat split. Qed.

(** C3 (as amended): when the cells visited before a failing cell all
    convert, the row serialiser stops at the failing cell and returns its
    error at once, whatever follows it; the map handed back with the
    error is the partly filled one: it holds the literal of every column
    visited before, and neither the failing column nor any later one. *)
Theorem C3_first_error_and_partial_map (pre post : Row) (k : string)
  (v : value) (s : string) (e : error) :
  row_ok (pre ++ (k, v) :: post) ->
  Forall (fun c => converts c.2) pre ->
  toSQLStringValue v = Ret (s, Some e) ->
  toSQLColumnMap (pre ++ (k, v) :: post) = Ret (literals ∅ pre, Some e)
  /\ dom (literals ∅ pre) = list_to_set (pre.*1)
  /\ (forall c x lit, (c, x) ∈ pre -> toSQLStringValue x = Ret (lit, None) ->
                      literals ∅ pre !! c = Some lit)
  /\ literals ∅ pre !! k = None
  /\ (forall c, c ∈ post.*1 -> literals ∅ pre !! c = None).
Proof.
  unfold row_ok. rewrite fmap_app, fmap_cons. simpl.
  intros Hnd Hpre Hv.
  apply NoDup_app in Hnd as (Hnd_pre & Hdisj & Hnd_post).
  repeat split.
  - unfold toSQLColumnMap. rewrite range_row_app by assumption.
    simpl. now rewrite Hv.
  - rewrite literals_dom by assumption.
    now rewrite dom_empty_L, (left_id_L ∅ (∪)).
  - intros c x lit Hin Hx. now apply (literals_lookup pre ∅ c x lit).
  - rewrite literals_lookup_other; [apply lookup_empty|].
    intros Hk. apply (Hdisj k Hk). now left.
  - intros c Hc. rewrite literals_lookup_other; [apply lookup_empty|].
    intros Hk. apply (Hdisj c Hk). now right.
Qed.

(** ** The process: steps and runs *)

(** Every step the scheduler can take is one of the listed
    transitions. *)
Lemma step_transition (l : label) (s s' : state) :
  step l s = Some s' -> transition l s s'.
Proof.
  unfold step, main_step, send_step, worker_step, done_step.
  intros H.
  destruct (halted s) eqn:Hh; [discriminate|].
  destruct l as [| |i|i].
  - destruct (main s) as [[|tbl todo]|chan tbl [|row pending] err todo|r] eqn:Hm;
      simplify_eq.
    + now apply T_return.
    + destruct (FindByName cfgTables tbl) as [c|] eqn:Hc.
      * destruct (IgnoreData c) eqn:Hi; simplify_eq.
        -- eapply T_skip; eauto. unfold included. now rewrite Hc, Hi.
        -- assert (Hin : included tbl = true)
             by (unfold included; now rewrite Hc, Hi).
           assert (T : transition LMain s
                        (start_table rdr tbl (opts_for tbl) todo s))
             by (now apply T_start).
           unfold opts_for in T. now rewrite Hc in T.
      * simplify_eq.
        assert (Hin : included tbl = true)
          by (unfold included; now rewrite Hc).
        assert (T : transition LMain s
                        (start_table rdr tbl (opts_for tbl) todo s))
             by (now apply T_start).
        unfold opts_for in T. now rewrite Hc in T.
    + destruct (workers s !! chan) as [w|] eqn:Hw; simplify_eq.
      eapply T_close; eauto.
  - destruct (main s) as [todo|chan tbl [|row pending] err todo|r] eqn:Hm;
      simplify_eq.
    destruct (workers s !! chan) as [w|] eqn:Hw; simplify_eq.
    destruct (wpc w) eqn:Hpc; simplify_eq.
    eapply T_send; eauto.
  - destruct (workers s !! i) as [w|] eqn:Hw; simplify_eq.
    destruct (wpc w) as [|row|stmt| | |] eqn:Hpc; simplify_eq.
    + destruct (wclosed w) eqn:Hcl; simplify_eq. eapply T_closed; eauto.
    + destruct (toSQLColumnMap row) as [[m [e|]]|msg] eqn:Hrow; simplify_eq.
      * eapply T_fatal; eauto.
      * eapply T_convert; eauto.
      * eapply T_panic; eauto.
    + assert (T := T_write fmt_float64 time_String Settings ReadTableOpt
                     zeroOpt NewReadTableOpt Sink WriteString insert_sql rdr
                     cfgTables s i w stmt Hh Hw Hpc).
      destruct (WriteString (sink s) stmt) as [o e]. simplify_eq. exact T.
    + assert (T := T_newline fmt_float64 time_String Settings ReadTableOpt
                     zeroOpt NewReadTableOpt Sink WriteString insert_sql rdr
                     cfgTables s i w Hh Hw Hpc).
      destruct (WriteString (sink s) newline) as [o e]. simplify_eq. exact T.
  - destruct (workers s !! i) as [w|] eqn:Hw; simplify_eq.
    destruct (wpc w) eqn:Hpc; simplify_eq.
    eapply T_done; eauto.
Qed.

(** Conversely every listed transition is a step. *)
Lemma transition_step (l : label) (s s' : state) :
  transition l s s' -> step l s = Some s'.
Proof.
  unfold step, main_step, send_step, worker_step, done_step.
  destruct 1 as
    [s Hh Hm|s tbl todo Hh Hm Hi|s tbl todo Hh Hm Hi
    |s chan tbl err todo w Hh Hm Hw|s chan tbl row pending err todo w Hh Hm Hw Hpc
    |s i w Hh Hw Hpc Hcl|s i w row m Hh Hw Hpc Hrow
    |s i w row m err Hh Hw Hpc Hrow|s i w row msg Hh Hw Hpc Hrow
    |s i w stmt Hh Hw Hpc|s i w Hh Hw Hpc|s i w Hh Hw Hpc];
    rewrite Hh; try rewrite Hm; try rewrite Hw; try rewrite Hpc;
    try rewrite Hrow; try rewrite Hcl; try reflexivity.
  - unfold included in Hi.
    destruct (FindByName cfgTables tbl) as [c|]; [|discriminate].
    destruct (IgnoreData c); [reflexivity|discriminate].
  - unfold included in Hi. unfold opts_for.
    destruct (FindByName cfgTables tbl) as [c|]; [|reflexivity].
    destruct (IgnoreData c); [discriminate|reflexivity].
  - now destruct (WriteString (sink s) stmt).
  - now destruct (WriteString (sink s) newline).
Qed.

(** Runs compose. *)
Lemma run_app (ls1 ls2 : list label) (s : state) :
  run (ls1 ++ ls2) s =
  match run ls1 s with
  | Some s1 => run ls2 s1
  | None => None
  end.
Proof.
  revert s. induction ls1 as [|l ls1 IH]; intros s; [reflexivity|].
  simpl. destruct (step l s); [apply IH|reflexivity].
Qed.

(** A property kept by every transition holds all along a run. *)
Lemma run_invariant (P : state -> Prop) :
  (forall l s s', P s -> transition l s s' -> P s') ->
  forall ls s s', P s -> run ls s = Some s' -> P s'.
Proof.
  intros Hstep ls. induction ls as [|l ls IH]; intros s s' Hs Hrun.
  - simpl in Hrun. now simplify_eq.
  - simpl in Hrun. destruct (step l s) as [s1|] eqn:Hl; [|discriminate].
    eapply IH; [|exact Hrun].
    apply (Hstep l s s1 Hs). apply step_transition. exact Hl.
Qed.

(** Logging touches the log only. *)
Lemma log_if_error_frame (tbl : string) (err : option error) (msg : string)
  (s : state) :
  main (log_if_error tbl err msg s) = main s
  /\ workers (log_if_error tbl err msg s) = workers s
  /\ sink (log_if_error tbl err msg s) = sink s
  /\ reads (log_if_error tbl err msg s) = reads s
  /\ signals (log_if_error tbl err msg s) = signals s
  /\ halted (log_if_error tbl err msg s) = halted s.
Proof. destruct err; repeat split. Qed.

(** What starting a table changes. *)
Lemma start_table_frame (tbl : string) (opts : ReadTableOpt)
  (todo : list string) (s : state) :
  main (start_table rdr tbl opts todo s)
  = MRead (length (workers s)) tbl (ReadTable rdr tbl opts).1
          (ReadTable rdr tbl opts).2 todo
  /\ workers (start_table rdr tbl opts todo s)
     = workers s ++ [mkWorker tbl false WRecv]
  /\ sink (start_table rdr tbl opts todo s) = sink s
  /\ logs (start_table rdr tbl opts todo s) = logs s
  /\ reads (start_table rdr tbl opts todo s) = reads s ++ [(tbl, opts)]
  /\ signals (start_table rdr tbl opts todo s) = signals s
  /\ halted (start_table rdr tbl opts todo s) = halted s.
Proof.
  unfold start_table. destruct (ReadTable rdr tbl opts). repeat split.
Qed.

(** The effect of a transition on the workers, the channel being
    populated, the tables still to visit, the reads and the signals: it
    leaves them alone, skips a table, starts one, closes the channel, or
    moves one worker to its next control point. *)
Lemma transition_effect (l : label) (s s' : state) :
  transition l s s' ->
  (workers s' = workers s /\ signals s' = signals s /\ reads s' = reads s
   /\ reading (main s') = reading (main s)
   /\ todo_of (main s') = todo_of (main s))
  \/ (exists tbl,
        workers s' = workers s /\ signals s' = signals s
        /\ reads s' = reads s
        /\ reading (main s) = None /\ reading (main s') = None
        /\ todo_of (main s) = tbl :: todo_of (main s')
        /\ included tbl = false)
  \/ (exists tbl,
        workers s' = workers s ++ [mkWorker tbl false WRecv]
        /\ signals s' = signals s
        /\ reads s' = reads s ++ [(tbl, opts_for tbl)]
        /\ reading (main s) = None
        /\ reading (main s') = Some (length (workers s))
        /\ todo_of (main s) = tbl :: todo_of (main s')
        /\ included tbl = true)
  \/ (exists chan w,
        workers s !! chan = Some w
        /\ workers s' = <[chan := close_chan w]> (workers s)
        /\ signals s' = signals s /\ reads s' = reads s
        /\ reading (main s) = Some chan /\ reading (main s') = None
        /\ todo_of (main s') = todo_of (main s))
  \/ (exists i w pc,
        workers s !! i = Some w
        /\ workers s' = <[i := set_pc pc w]> (workers s)
        /\ reads s' = reads s
        /\ reading (main s') = reading (main s)
        /\ todo_of (main s') = todo_of (main s)
        /\ wpc w <> WExit
        /\ (leaving pc = true -> wclosed w = true \/ wpc w = WSignal)
        /\ ((pc = WExit /\ signals s' = signals s ++ [i])
            \/ (pc <> WExit /\ signals s' = signals s))).
Proof.
  intros T.
  destruct T as
    [s Hh Hm|s tbl todo Hh Hm Hi|s tbl todo Hh Hm Hi
    |s chan tbl err todo w Hh Hm Hw|s chan tbl row pending err todo w Hh Hm Hw Hpc
    |s i w Hh Hw Hpc Hcl|s i w row m Hh Hw Hpc Hrow
    |s i w row m err Hh Hw Hpc Hrow|s i w row msg Hh Hw Hpc Hrow
    |s i w stmt Hh Hw Hpc|s i w Hh Hw Hpc|s i w Hh Hw Hpc].
  - left. simpl. rewrite Hm. repeat split.
  - right; left. exists tbl. simpl. rewrite Hm. repeat split; auto.
  - right; right; left. exists tbl.
    destruct (start_table_frame tbl (opts_for tbl) todo s)
      as (Em & Ew & _ & _ & Er & Es & _).
    rewrite Em, Ew, Er, Es, Hm. simpl. repeat split; auto.
  - right; right; right; left. exists chan, w.
    destruct (log_if_error_frame tbl err "error while reading table"
                (set_main (MLoop todo) (set_worker chan (close_chan w) s)))
      as (Em & Ew & _ & Er & Es & _).
    rewrite Em, Ew, Er, Es, Hm. simpl. repeat split; auto.
  - right; right; right; right. exists chan, w, (WRow row).
    simpl. rewrite Hm, Hpc. simpl. repeat split; auto; try discriminate.
  - right; right; right; right. exists i, w, WSignal.
    simpl. rewrite Hpc. repeat split; auto; try discriminate.
  - right; right; right; right. exists i, w, (WStmt (insert_sql (wtable w) m)).
    simpl. rewrite Hpc. repeat split; auto; try discriminate.
  - left. simpl. repeat split.
  - left. simpl. repeat split.
  - right; right; right; right. exists i, w, WNewline.
    match goal with |- context [log_if_error ?t ?e ?m ?x] =>
      destruct (log_if_error_frame t e m x) as (Em & Ew & _ & Er & Es & _)
    end.
    rewrite Em, Ew, Er, Es, Hpc. simpl. repeat split; auto; try discriminate.
  - right; right; right; right. exists i, w, WRecv.
    match goal with |- context [log_if_error ?t ?e ?m ?x] =>
      destruct (log_if_error_frame t e m x) as (Em & Ew & _ & Er & Es & _)
    end.
    rewrite Em, Ew, Er, Es, Hpc. simpl. repeat split; auto; try discriminate.
  - right; right; right; right. exists i, w, WExit.
    simpl. rewrite Hpc. repeat split; auto; try discriminate.
Qed.

(** Moving a worker to another control point changes neither its table
    nor its channel. *)
Lemma lookup_set_pc (ws : list worker) (i j : nat) (w w' : worker)
  (pc : wstate) :
  ws !! i = Some w ->
  <[i := set_pc pc w]> ws !! j = Some w' ->
  exists w0, ws !! j = Some w0 /\ wtable w' = wtable w0
             /\ wclosed w' = wclosed w0
             /\ (j = i -> w0 = w /\ wpc w' = pc)
             /\ (j <> i -> w' = w0).
Proof.
  intros Hw Hj. apply list_lookup_insert_Some in Hj as [(-> & <- & _)|[Hne Hj]].
  - exists w. naive_solver.
  - exists w'. naive_solver.
Qed.

Lemma fmap_set_pc {B : Type} (f : worker -> B) (ws : list worker) (i : nat)
  (w w' : worker) :
  ws !! i = Some w -> f w' = f w -> f <$> <[i := w']> ws = f <$> ws.
Proof.
  intros Hw Hf. rewrite list_fmap_insert, Hf.
  apply list_insert_id. now rewrite list_lookup_fmap, Hw.
Qed.

(** The invariant holds where the loop starts. *)
Lemma inv_begin (tables : list string) (output : Sink) :
  inv tables (mkState (MLoop tables) [] output [] [] [] None).
Proof.
  constructor; simpl.
  - intros i w H. inversion H.
  - intros i H. discriminate.
  - intros i w H. inversion H.
  - intros i. split.
    + intros H. inversion H.
    + intros (w & H & _). inversion H.
  - constructor.
  - reflexivity.
  - reflexivity.
Qed.

(** Every transition keeps the invariant. *)
Lemma inv_transition (tables : list string) (l : label) (s s' : state) :
  inv tables s -> transition l s s' -> inv tables s'.
Proof.
  intros [Hopen Hreading Hleaving Hsig Honce Hreads Hvis] T.
  apply transition_effect in T
    as [(Ew & Es & Er & Erd & Et)
       |[(tbl & Ew & Es & Er & Erd & Erd' & Et & Hi)
       |[(tbl & Ew & Es & Er & Erd & Erd' & Et & Hi)
       |[(chan & w & Hw & Ew & Es & Er & Erd & Erd' & Et)
        |(i & w & pc & Hw & Ew & Er & Erd & Et & Hpc & Hlv & Hs)]]]].
  - (* nothing relevant changes *)
    constructor; rewrite ?Ew, ?Es, ?Er, ?Erd, ?Et; assumption.
  - (* a table is skipped *)
    constructor; rewrite ?Ew, ?Es, ?Er, ?Erd'; try assumption.
    + intros i w Hw Hc. specialize (Hopen i w Hw Hc). congruence.
    + intros i H. discriminate.
    + rewrite <- Hvis, Et. f_equal.
      rewrite filter_cons_False; [reflexivity|]. now rewrite Hi.
  - (* a table is started *)
    constructor; rewrite ?Ew, ?Es, ?Er, ?Erd'; try assumption.
    + intros i w Hw Hc. apply lookup_snoc_Some in Hw as [[_ Hw]|[-> _]].
      * specialize (Hopen i w Hw Hc). congruence.
      * reflexivity.
    + intros i [= <-]. exists (mkWorker tbl false WRecv).
      split; [now apply list_lookup_middle|reflexivity].
    + intros i w Hw Hl. apply lookup_snoc_Some in Hw as [[_ Hw]|[_ <-]].
      * eauto.
      * discriminate.
    + intros i. rewrite Hsig. split; intros (w & Hw & Hx); exists w; split; auto.
      * apply lookup_snoc_Some. left. split; [|assumption].
        now apply lookup_lt_Some in Hw.
      * apply lookup_snoc_Some in Hw as [[_ Hw]|[_ <-]]; [assumption|].
        discriminate.
    + rewrite fmap_app, Hreads. reflexivity.
    + rewrite <- Hvis, Et, fmap_app, <- app_assoc. f_equal.
      rewrite filter_cons_True by assumption. reflexivity.
  - (* the channel is closed *)
    constructor; rewrite ?Ew, ?Es, ?Er, ?Erd', ?Et; try assumption.
    + intros i w' Hw' Hc.
      apply list_lookup_insert_Some in Hw' as [(-> & <- & _)|[Hne Hw']].
      * discriminate.
      * specialize (Hopen i w' Hw' Hc). congruence.
    + intros i H. discriminate.
    + intros i w' Hw' Hl.
      apply list_lookup_insert_Some in Hw' as [(-> & <- & _)|[Hne Hw']].
      * reflexivity.
      * eauto.
    + intros i. rewrite Hsig. split; intros (w' & Hw' & Hx).
      * destruct (decide (chan = i)) as [->|Hne].
        -- exists (close_chan w). split.
           ++ apply list_lookup_insert_Some. left.
              repeat split. now apply lookup_lt_Some in Hw.
           ++ simpl. congruence.
        -- exists w'. split; [|assumption].
           apply list_lookup_insert_Some. right. auto.
      * apply list_lookup_insert_Some in Hw' as [(-> & <- & _)|[Hne Hw']].
        -- exists w. auto.
        -- exists w'. auto.
    + rewrite Hreads. symmetry. now apply fmap_set_pc with (w := w).
    + rewrite <- Hvis. f_equal. now apply fmap_set_pc with (w := w).
  - (* a worker moves on *)
    constructor; rewrite ?Ew, ?Er, ?Erd, ?Et; try assumption.
    + intros j w' Hw' Hc.
      destruct (lookup_set_pc _ _ _ _ _ _ Hw Hw') as (w0 & Hw0 & _ & Ec & _).
      apply (Hopen j w0 Hw0). congruence.
    + intros j Hj. destruct (Hreading j Hj) as (w0 & Hw0 & Hc).
      destruct (decide (j = i)) as [->|Hne].
      * exists (set_pc pc w). split.
        -- apply list_lookup_insert_Some. left. repeat split.
           now apply lookup_lt_Some in Hw.
        -- simpl. congruence.
      * exists w0. split; [|assumption].
        apply list_lookup_insert_Some. right. auto.
    + intros j w' Hw' Hl.
      destruct (lookup_set_pc _ _ _ _ _ _ Hw Hw')
        as (w0 & Hw0 & _ & Ec & Hsame & Hother).
      rewrite Ec. destruct (decide (j = i)) as [->|Hne].
      * destruct (Hsame eq_refl) as [-> Epc]. rewrite Epc in Hl.
        destruct (Hlv Hl) as [Hc|Hsig']; [assumption|].
        apply (Hleaving i w Hw). now rewrite Hsig'.
      * rewrite (Hother Hne) in Hl. eauto.
    + intros j. destruct Hs as [[-> Es]|[Hne Es]]; rewrite Es.
      * rewrite elem_of_app, list_elem_of_singleton, Hsig.
        split.
        -- intros [(w0 & Hw0 & Hx)| ->].
           ++ exists w0. split; [|assumption].
              apply list_lookup_insert_Some. right. split; [|assumption].
              intros <-. congruence.
           ++ exists (set_pc WExit w). split; [|reflexivity].
              apply list_lookup_insert_Some. left. repeat split.
              now apply lookup_lt_Some in Hw.
        -- intros (w' & Hw' & Hx).
           apply list_lookup_insert_Some in Hw' as [(-> & <- & _)|[Hne Hw']].
           ++ now right.
           ++ left. eauto.
      * rewrite Hsig. split.
        -- intros (w0 & Hw0 & Hx). exists w0. split; [|assumption].
           apply list_lookup_insert_Some. right. split; [|assumption].
           intros <-. congruence.
        -- intros (w' & Hw' & Hx).
           apply list_lookup_insert_Some in Hw' as [(-> & <- & _)|[Hne' Hw']].
           ++ simpl in Hx. congruence.
           ++ eauto.
    + destruct Hs as [[-> Es]|[Hne Es]]; rewrite Es; [|assumption].
      apply NoDup_app. repeat split; [assumption| |apply NoDup_singleton].
      intros j Hj ->%list_elem_of_singleton.
      apply Hsig in Hj as (w0 & Hw0 & Hx). congruence.
    + rewrite Hreads. symmetry. now apply fmap_set_pc with (w := w).
    + rewrite <- Hvis. f_equal. now apply fmap_set_pc with (w := w).
Qed.

(** The invariant holds all along a run from the head of the loop. *)
Lemma inv_run (tables : list string) (ls : list label) (s s' : state) :
  inv tables s -> run ls s = Some s' -> inv tables s'.
Proof.
  apply (run_invariant (inv tables)). intros l s1 s2. apply inv_transition.
Qed.

(** A worker that has not returned can move, unless it waits on an open
    channel. *)
Lemma worker_can_move (s : state) (i : nat) (w : worker) :
  halted s = None -> workers s !! i = Some w ->
  wpc w <> WExit -> (wpc w = WRecv -> wclosed w = true) ->
  exists l s', step l s = Some s'.
Proof.
  intros Hh Hw Hx Hrecv.
  destruct (wpc w) as [|row|stmt| | |] eqn:Hpc.
  - exists (LWorker i). eexists. apply transition_step.
    eapply T_closed; eauto.
  - exists (LWorker i).
    destruct (toSQLColumnMap row) as [[m [e|]]|msg] eqn:Hrow;
      eexists; apply transition_step.
    + eapply T_fatal; eauto.
    + eapply T_convert; eauto.
    + eapply T_panic; eauto.
  - exists (LWorker i). eexists. apply transition_step. eapply T_write; eauto.
  - exists (LWorker i). eexists. apply transition_step. eapply T_newline; eauto.
  - exists (LDone i). eexists. apply transition_step. eapply T_done; eauto.
  - now destruct Hx.
Qed.

(** No deadlock: a run that is complete without the process having
    halted has seen [Dump] return and every worker return. *)
Lemma complete_all_returned (tables : list string) (s : state) :
  inv tables s -> halted s = None -> complete s ->
  returned s /\ forall i w, workers s !! i = Some w -> wpc w = WExit.
Proof.
  intros [Hopen Hreading Hleaving _ _ _ _] Hh Hc.
  assert (Hstuck : forall l s', step l s <> Some s')
    by (intros l s' E; now rewrite (Hc l) in E).
  destruct (main s) as [[|tbl todo]|chan tbl pending err todo|r] eqn:Hm.
  - exfalso. eapply (Hstuck LMain). apply transition_step. now apply T_return.
  - exfalso. destruct (included tbl) eqn:Hi.
    + eapply (Hstuck LMain). apply transition_step. eapply T_start; eauto.
    + eapply (Hstuck LMain). apply transition_step. eapply T_skip; eauto.
  - exfalso. destruct (Hreading chan) as (w & Hw & Hcl); [reflexivity|].
    destruct pending as [|row pending].
    + eapply (Hstuck LMain). apply transition_step. eapply T_close; eauto.
    + destruct (wpc w) eqn:Hpc.
      * eapply (Hstuck LSend). apply transition_step. eapply T_send; eauto.
      * destruct (worker_can_move s chan w Hh Hw) as (l & s' & E);
          [congruence|congruence|]. exact (Hstuck l s' E).
      * destruct (worker_can_move s chan w Hh Hw) as (l & s' & E);
          [congruence|congruence|]. exact (Hstuck l s' E).
      * destruct (worker_can_move s chan w Hh Hw) as (l & s' & E);
          [congruence|congruence|]. exact (Hstuck l s' E).
      * destruct (worker_can_move s chan w Hh Hw) as (l & s' & E);
          [congruence|congruence|]. exact (Hstuck l s' E).
      * assert (wclosed w = true)
          by (apply (Hleaving chan w Hw); now rewrite Hpc).
        congruence.
  - split; [now exists r|].
    intros i w Hw.
    assert (Hx : wpc w = WExit \/ wpc w <> WExit)
      by (destruct (wpc w); auto; right; discriminate).
    destruct Hx as [|Hx]; [assumption|].
    exfalso. destruct (worker_can_move s i w Hh Hw Hx) as (l & s' & E).
    + intros _. destruct (wclosed w) eqn:Hcl; [reflexivity|].
      discriminate (Hopen i w Hw Hcl).
    + exact (Hstuck l s' E).
Qed.

(** The signals received never outnumber the workers started. *)
Lemma signals_bounded (tables : list string) (s : state) :
  inv tables s -> (length (signals s) <= length (workers s))%nat.
Proof.
  intros [_ _ _ Hsig Honce _ _].
  assert (H : signals s ⊆+ seq 0%nat (length (workers s))).
  { apply NoDup_submseteq; [assumption|].
    intros i Hi. apply Hsig in Hi as (w & Hw & _).
    apply elem_of_seq. apply lookup_lt_Some in Hw. lia. }
  apply submseteq_length in H. now rewrite length_seq in H.
Qed.

(** Once every worker has returned, there is one signal for each. *)
Lemma signals_all (tables : list string) (s : state) :
  inv tables s ->
  (forall i w, workers s !! i = Some w -> wpc w = WExit) ->
  length (signals s) = length (workers s).
Proof.
  intros Hinv Hall. apply Nat.le_antisymm; [now apply (signals_bounded tables)|].
  destruct Hinv as [_ _ _ Hsig _ _ _].
  assert (H : seq 0%nat (length (workers s)) ⊆+ signals s).
  { apply NoDup_submseteq; [apply NoDup_seq|].
    intros i Hi. apply elem_of_seq in Hi.
    destruct (lookup_lt_is_Some_2 (workers s) i) as [w Hw]; [lia|].
    apply Hsig. exists w. eauto. }
  apply submseteq_length in H. now rewrite length_seq in H.
Qed.

(** How often an index occurs in a list without repetition. *)
Lemma occurrences_NoDup (l : list nat) (i : nat) :
  NoDup l ->
  length (filter (fun j => j = i) l) = if decide (i ∈ l) then 1%nat else 0%nat.
Proof.
  induction 1 as [|j l Hj Hnd IH]; [reflexivity|].
  destruct (decide (j = i)) as [->|Hne].
  - rewrite filter_cons_True by reflexivity. simpl. rewrite IH.
    rewrite decide_False by assumption.
    rewrite decide_True by (now left). reflexivity.
  - rewrite filter_cons_False by assumption. rewrite IH.
    destruct (decide (i ∈ l)) as [Hin|Hout].
    + rewrite decide_True by (now right). reflexivity.
    + rewrite decide_False; [reflexivity|].
      intros [E|Hin]%elem_of_cons; congruence.
Qed.

(** The workers of a run are those of included tables only. *)
Lemma workers_included (tables : list string) (s : state) (i : nat)
  (w : worker) :
  inv tables s -> workers s !! i = Some w ->
  included (wtable w) = true /\ wtable w ∈ tables.
Proof.
  intros [_ _ _ _ _ _ Hvis] Hw.
  assert (Hin : wtable w ∈ filter (fun t => included t = true) tables).
  { rewrite <- Hvis. apply elem_of_app. left.
    apply list_elem_of_fmap. exists w. split; [reflexivity|].
    apply list_elem_of_lookup. eauto. }
  apply list_elem_of_filter in Hin. tauto.
Qed.

(** The state from which the steps start: [Dump] is at the head of the
    loop over the reader's tables, or has returned an error without
    having started anything. *)
Lemma Dump_begin_cases (output : Sink) :
  (exists o, (GetTables rdr).2 = None
             /\ Dump_begin output
                = mkState (MLoop (GetTables rdr).1) [] o [] [] [] None)
  \/ (exists o e, Dump_begin output
                  = mkState (MReturned (Some e)) [] o [] [] [] None).
Proof.
  unfold Dump_begin.
  destruct (GetTables rdr) as [tables [e|]]; [right; eauto|].
  destruct (GetStructure rdr) as [structure [e|]]; [right; eauto|].
  destruct (WriteString output structure) as [o [e|]]; [right; eauto|].
  left. eauto.
Qed.

(** Nothing moves after an early return. *)
Lemma run_after_error (o : Sink) (e : error) (ls : list label) (s : state) :
  run ls (mkState (MReturned (Some e)) [] o [] [] [] None) = Some s ->
  s = mkState (MReturned (Some e)) [] o [] [] [] None.
Proof.
  destruct ls as [|[| |i|i] ls]; simpl; intros H; simplify_eq; reflexivity.
Qed.

(** Every state of a run of [Dump] satisfies the invariant, for the
    reader's tables when the loop was reached. *)
Lemma inv_Dump (output : Sink) (ls : list label) (s : state) :
  run ls (Dump_begin output) = Some s ->
  exists tables,
    inv tables s
    /\ (main s = MReturned None -> tables = (GetTables rdr).1).
Proof.
  intros Hrun.
  destruct (Dump_begin_cases output) as [(o & _ & E)|(o & e & E)];
    rewrite E in Hrun.
  - exists (GetTables rdr).1. split; [|reflexivity].
    eapply inv_run; [apply inv_begin|exact Hrun].
  - apply run_after_error in Hrun. subst s. exists []. split.
    + pose proof (inv_begin [] o) as [H1 H2 H3 H4 H5 H6 H7].
      constructor; assumption.
    + simpl. discriminate.
Qed.

(** ** Runs are finite and can be completed *)

(** Moving one worker changes the total weight by the difference of
    its own. *)
Lemma workers_weight_insert (ws : list worker) (i : nat) (w w' : worker) :
  ws !! i = Some w ->
  (workers_weight (<[i := w']> ws) + worker_weight (wpc w)
   = workers_weight ws + worker_weight (wpc w'))%nat.
Proof.
  unfold workers_weight. revert i.
  induction ws as [|x ws IH]; intros i Hw; [inversion Hw|].
  destruct i as [|i]; simpl in *.
  - simplify_eq. lia.
  - specialize (IH i Hw). unfold fmap in IH. lia.
Qed.

Lemma workers_weight_snoc (ws : list worker) (w : worker) :
  workers_weight (ws ++ [w])
  = (workers_weight ws + worker_weight (wpc w))%nat.
Proof.
  unfold workers_weight. induction ws as [|x ws IH]; simpl; [lia|].
  unfold fmap in IH. lia.
Qed.

(** Every transition lowers the measure. *)
Lemma transition_measure (l : label) (s s' : state) :
  transition l s s' -> (measure s' < measure s)%nat.
Proof.
  intros T.
  destruct T as
    [s Hh Hm|s tbl todo Hh Hm Hi|s tbl todo Hh Hm Hi
    |s chan tbl err todo w Hh Hm Hw|s chan tbl row pending err todo w Hh Hm Hw Hpc
    |s i w Hh Hw Hpc Hcl|s i w row m Hh Hw Hpc Hrow
    |s i w row m err Hh Hw Hpc Hrow|s i w row msg Hh Hw Hpc Hrow
    |s i w stmt Hh Hw Hpc|s i w Hh Hw Hpc|s i w Hh Hw Hpc];
    unfold measure at 2; rewrite Hh.
  - unfold measure. simpl. rewrite Hh, Hm. simpl. lia.
  - unfold measure. simpl. rewrite Hh, Hm. simpl.
    unfold table_weight. rewrite Hi. lia.
  - destruct (start_table_frame tbl (opts_for tbl) todo s)
      as (Em & Ew & _ & _ & _ & _ & Eh).
    unfold measure. rewrite Eh, Hh, Em, Ew, Hm, workers_weight_snoc. simpl.
    unfold table_weight. rewrite Hi. lia.
  - match goal with |- context [log_if_error ?t ?e ?m ?x] =>
      destruct (log_if_error_frame t e m x) as (Em & Ew & _ & _ & _ & Eh)
    end.
    unfold measure. rewrite Eh, Em, Ew. simpl. rewrite Hh, Hm.
    pose proof (workers_weight_insert (workers s) chan w (close_chan w) Hw).
    simpl in *. lia.
  - unfold measure. simpl. rewrite Hh, Hm.
    pose proof (workers_weight_insert (workers s) chan w
                  (set_pc (WRow row) w) Hw) as E.
    rewrite Hpc in E. simpl in *. lia.
  - unfold measure. simpl. rewrite Hh.
    pose proof (workers_weight_insert (workers s) i w (set_pc WSignal w) Hw)
      as E.
    rewrite Hpc in E. simpl in *. lia.
  - unfold measure. simpl. rewrite Hh.
    pose proof (workers_weight_insert (workers s) i w
                  (set_pc (WStmt (insert_sql (wtable w) m)) w) Hw) as E.
    rewrite Hpc in E. simpl in *. lia.
  - unfold measure. simpl. lia.
  - unfold measure. simpl. lia.
  - match goal with |- context [log_if_error ?t ?e ?m ?x] =>
      destruct (log_if_error_frame t e m x) as (Em & Ew & _ & _ & _ & Eh)
    end.
    unfold measure. rewrite Eh, Em, Ew. simpl. rewrite Hh.
    pose proof (workers_weight_insert (workers s) i w (set_pc WNewline w) Hw)
      as E.
    rewrite Hpc in E. simpl in *. lia.
  - match goal with |- context [log_if_error ?t ?e ?m ?x] =>
      destruct (log_if_error_frame t e m x) as (Em & Ew & _ & _ & _ & Eh)
    end.
    unfold measure. rewrite Eh, Em, Ew. simpl. rewrite Hh.
    pose proof (workers_weight_insert (workers s) i w (set_pc WRecv w) Hw)
      as E.
    rewrite Hpc in E. simpl in *. lia.
  - unfold measure. simpl. rewrite Hh.
    pose proof (workers_weight_insert (workers s) i w (set_pc WExit w) Hw)
      as E.
    rewrite Hpc in E. simpl in *. lia.
Qed.

(** A run is never longer than the measure of the state it starts
    from. *)
Lemma run_bounded (ls : list label) (s s' : state) :
  run ls s = Some s' -> (length ls + measure s' <= measure s)%nat.
Proof.
  revert s. induction ls as [|l ls IH]; intros s Hrun; simpl in Hrun.
  - simplify_eq. simpl. lia.
  - destruct (step l s) as [s1|] eqn:Hl; [|discriminate].
    apply step_transition, transition_measure in Hl.
    specialize (IH s1 Hrun). simpl. lia.
Qed.

(** What [first_step] finds is a step. *)
Lemma first_step_Some (ls : list label) (s s' : state) (l : label) :
  first_step ls s = Some (l, s') -> step l s = Some s'.
Proof.
  induction ls as [|l0 ls IH]; simpl; [discriminate|].
  destruct (step l0 s) as [s0|] eqn:E; [|exact IH].
  intros [= <- <-]. exact E.
Qed.

Lemma first_step_None (ls : list label) (s : state) (l : label) :
  first_step ls s = None -> l ∈ ls -> step l s = None.
Proof.
  induction ls as [|l0 ls IH]; simpl; intros Hnone Hin; [inversion Hin|].
  destruct (step l0 s) as [s0|] eqn:E; [discriminate|].
  apply elem_of_cons in Hin as [->|Hin]; auto.
Qed.

(** When none of the choices can move, nothing can. *)
Lemma choices_complete (s : state) :
  first_step (choices s) s = None -> complete s.
Proof.
  intros Hnone l.
  destruct (step l s) as [s'|] eqn:E; [|reflexivity].
  rewrite <- E. apply (first_step_None (choices s)); [assumption|].
  unfold choices.
  destruct l as [| |i|i].
  - apply elem_of_cons. now left.
  - apply elem_of_cons. right. apply elem_of_cons. now left.
  - do 2 (apply elem_of_cons; right). apply list_elem_of_In, in_flat_map.
    exists i. split; [|now left].
    apply in_seq. unfold step, worker_step in E.
    destruct (halted s); [discriminate|].
    destruct (workers s !! i) as [w|] eqn:Hw; [|discriminate].
    apply lookup_lt_Some in Hw. lia.
  - do 2 (apply elem_of_cons; right). apply list_elem_of_In, in_flat_map.
    exists i. split; [|right; now left].
    apply in_seq. unfold step, done_step in E.
    destruct (halted s); [discriminate|].
    destruct (workers s !! i) as [w|] eqn:Hw; [|discriminate].
    apply lookup_lt_Some in Hw. lia.
Qed.

Lemma first_step_In (ls : list label) (s s' : state) (l : label) :
  first_step ls s = Some (l, s') -> l ∈ ls.
Proof.
  induction ls as [|l0 ls IH]; simpl; [discriminate|].
  destruct (step l0 s) as [s0|] eqn:E.
  - intros [= <- <-]. apply elem_of_cons. now left.
  - intros H. apply elem_of_cons. right. now apply IH.
Qed.

Lemma drain_S (pick : state -> list label) (fuel : nat) (s : state) :
  drain pick (S fuel) s
  = match first_step (pick s) s with
    | Some (l, s') => (l :: (drain pick fuel s').1, (drain pick fuel s').2)
    | None => ([], s)
    end.
Proof.
  change (drain pick (S fuel) s)
    with (match first_step (pick s) s with
          | Some (l, s') =>
              let '(ls, s'') := drain pick fuel s' in (l :: ls, s'')
          | None => ([], s)
          end).
  destruct (first_step (pick s) s) as [[l s']|]; [|reflexivity].
  now destruct (drain pick fuel s').
Qed.

(** The scheduler follows a run, made of labels it was offered, and with
    fuel up to the measure it stops where none of the offered labels can
    move. *)
Lemma drain_run (pick : state -> list label) (fuel : nat) (s : state) :
  run (drain pick fuel s).1 s = Some (drain pick fuel s).2.
Proof.
  revert s. induction fuel as [|fuel IH]; intros s; [reflexivity|].
  rewrite drain_S.
  destruct (first_step (pick s) s) as [[l s1]|] eqn:E; [|reflexivity].
  cbn [fst snd]. change (run (l :: (drain pick fuel s1).1) s)
    with (match step l s with
          | Some s' => run (drain pick fuel s1).1 s'
          | None => None
          end).
  rewrite (first_step_Some _ _ _ _ E). apply IH.
Qed.

Lemma drain_labels (pick : state -> list label) (P : label -> Prop)
  (fuel : nat) (s : state) :
  (forall s0 l, l ∈ pick s0 -> P l) -> Forall P (drain pick fuel s).1.
Proof.
  intros Hpick. revert s. induction fuel as [|fuel IH]; intros s.
  - constructor.
  - rewrite drain_S.
    destruct (first_step (pick s) s) as [[l s1]|] eqn:E; [|constructor].
    cbn [fst]. constructor; [|apply IH].
    apply (Hpick s). now apply first_step_In in E.
Qed.

Lemma drain_stuck (pick : state -> list label) (fuel : nat) (s : state) :
  (measure s <= fuel)%nat ->
  first_step (pick (drain pick fuel s).2) (drain pick fuel s).2 = None.
Proof.
  revert s. induction fuel as [|fuel IH]; intros s Hm.
  - simpl. destruct (first_step (pick s) s) as [[l s']|] eqn:E; [|reflexivity].
    apply first_step_Some, step_transition, transition_measure in E. lia.
  - rewrite drain_S.
    destruct (first_step (pick s) s) as [[l s1]|] eqn:E.
    + cbn [snd]. apply IH.
      apply first_step_Some, step_transition, transition_measure in E. lia.
    + cbn [snd]. exact E.
Qed.

(** Every state has a run to a complete state. *)
Lemma can_complete (s : state) :
  exists ls s', run ls s = Some s' /\ complete s'.
Proof.
  exists (drain choices (measure s) s).1, (drain choices (measure s) s).2.
  split; [apply drain_run|].
  apply choices_complete. now apply drain_stuck.
Qed.

(** Only the caller's receive adds a signal. *)
Lemma transition_signals (l : label) (s s' : state) :
  transition l s s' -> is_done l = false -> signals s' = signals s.
Proof.
  intros T Hl.
  destruct T; try discriminate; try reflexivity.
  - apply start_table_frame.
  - now rewrite (proj1 (proj2 (proj2 (proj2 (proj2
                   (log_if_error_frame _ _ _ _)))))).
  - now rewrite (proj1 (proj2 (proj2 (proj2 (proj2
                   (log_if_error_frame _ _ _ _)))))).
  - now rewrite (proj1 (proj2 (proj2 (proj2 (proj2
                   (log_if_error_frame _ _ _ _)))))).
Qed.

Lemma run_signals (ls : list label) (s s' : state) :
  Forall (fun l => is_done l = false) ls ->
  run ls s = Some s' -> signals s' = signals s.
Proof.
  intros Hls. revert s. induction Hls as [|l ls Hl Hls IH]; intros s Hrun.
  - simpl in Hrun. now simplify_eq.
  - simpl in Hrun. destruct (step l s) as [s1|] eqn:E; [|discriminate].
    rewrite (IH s1 Hrun).
    apply step_transition in E. now apply (transition_signals l).
Qed.

(** Without the caller the process still goes on until it has halted or
    [Dump] has returned. *)
Lemma quiet_stuck_returned (tables : list string) (s : state) :
  inv tables s -> halted s = None ->
  first_step (quiet_choices s) s = None -> returned s.
Proof.
  intros [Hopen Hreading Hleaving _ _ _ _] Hh Hnone.
  assert (Hmain : step LMain s = None).
  { apply (first_step_None (quiet_choices s)); [assumption|].
    apply elem_of_cons. now left. }
  assert (Hsend : step LSend s = None).
  { apply (first_step_None (quiet_choices s)); [assumption|].
    apply elem_of_cons. right. apply elem_of_cons. now left. }
  assert (Hwork : forall i w, workers s !! i = Some w ->
                              step (LWorker i) s = None).
  { intros i w Hw. apply (first_step_None (quiet_choices s)); [assumption|].
    do 2 (apply elem_of_cons; right).
    apply list_elem_of_fmap. exists i. split; [reflexivity|].
    apply elem_of_seq. apply lookup_lt_Some in Hw. lia. }
  destruct (main s) as [[|tbl todo]|chan tbl pending err todo|r] eqn:Hm.
  - rewrite (transition_step LMain s _ (T_return _ _ _ _ _ _ _ _ _ _ _ s Hh Hm))
      in Hmain. discriminate.
  - exfalso. destruct (included tbl) eqn:Hi.
    + assert (T : transition LMain s
                    (start_table rdr tbl (opts_for tbl) todo s))
        by (eapply T_start; eauto).
      apply transition_step in T. congruence.
    + assert (T : transition LMain s (set_main (MLoop todo) s))
        by (eapply T_skip; eauto).
      apply transition_step in T. congruence.
  - exfalso. destruct (Hreading chan) as (w & Hw & Hcl); [reflexivity|].
    destruct pending as [|row pending].
    + assert (T := T_close fmt_float64 time_String Settings ReadTableOpt
                     zeroOpt NewReadTableOpt Sink WriteString insert_sql rdr
                     cfgTables s chan tbl err todo w Hh Hm Hw).
      apply transition_step in T. congruence.
    + specialize (Hwork chan w Hw).
      unfold step, worker_step in Hwork. rewrite Hh, Hw in Hwork.
      destruct (wpc w) as [|row'|stmt| | |] eqn:Hpc.
      * assert (T := T_send fmt_float64 time_String Settings ReadTableOpt
                       zeroOpt NewReadTableOpt Sink WriteString insert_sql rdr
                       cfgTables s chan tbl row pending err todo w
                       Hh Hm Hw Hpc).
        apply transition_step in T. congruence.
      * destruct (toSQLColumnMap row') as [[m [e|]]|msg]; discriminate.
      * destruct (WriteString (sink s) stmt). discriminate.
      * destruct (WriteString (sink s) newline). discriminate.
      * assert (wclosed w = true)
          by (apply (Hleaving chan w Hw); now rewrite Hpc).
        congruence.
      * assert (wclosed w = true)
          by (apply (Hleaving chan w Hw); now rewrite Hpc).
        congruence.
  - now exists r.
Qed.

(** [Dump] does not depend on the caller: every state of a run has a
    continuation in which no further signal is received and at whose end
    the process has halted or [Dump] has returned. *)
Lemma returns_unsignalled (tables : list string) (s : state) :
  inv tables s ->
  exists ls s', run ls s = Some s' /\ signals s' = signals s
                /\ (is_Some (halted s') \/ returned s').
Proof.
  intros Hinv.
  set (d := drain quiet_choices (measure s) s).
  assert (Hrun : run d.1 s = Some d.2) by apply drain_run.
  exists d.1, d.2. split; [assumption|]. split.
  - apply (run_signals d.1); [|assumption].
    apply drain_labels. intros s0 l Hl. unfold quiet_choices in Hl.
    apply elem_of_cons in Hl as [->|Hl]; [reflexivity|].
    apply elem_of_cons in Hl as [->|Hl]; [reflexivity|].
    apply list_elem_of_fmap in Hl as (i & -> & _). reflexivity.
  - destruct (halted d.2) as [h|] eqn:Hh; [left; eauto|right].
    apply (quiet_stuck_returned tables); [|assumption|].
    + now apply (inv_run tables d.1 s).
    + now apply drain_stuck.
Qed.

(** ** The orchestrator and its workers *)

(** C1 (as amended): [Dump] does not wait for completion signals.  In
    every state of a run, so also once [Dump] has returned, the signals
    received are at most as many as the workers started, and each comes
    from a worker of a table that is not skipped; when [Dump] returns nil
    the workers started are exactly those of the reader's tables that
    are not skipped, in order.  From every state the run can go on
    without any further signal being received until [Dump] has returned
    (or a row that does not convert has halted the process).  The count
    of signals reaches that of the started workers once the run is
    complete without the process having halted. *)
Theorem C1_signals_and_return (output : Sink) (ls : list label) (s : state) :
  run ls (Dump_begin output) = Some s ->
  (length (signals s) <= length (workers s))%nat
  /\ (forall i, i ∈ signals s ->
                exists w, workers s !! i = Some w
                          /\ included (wtable w) = true)
  /\ (main s = MReturned None ->
      wtable <$> workers s
      = filter (fun t => included t = true) (GetTables rdr).1)
  /\ (exists ls' s', run ls' s = Some s' /\ signals s' = signals s
                     /\ (is_Some (halted s') \/ returned s'))
  /\ (complete s -> halted s = None ->
      returned s /\ length (signals s) = length (workers s)).
Proof.
  intros Hrun. destruct (inv_Dump output ls s Hrun) as (tables & Hinv & Htab).
  split; [|split; [|split; [|split]]].
  - now apply (signals_bounded tables).
  - intros i Hi. apply (inv_signals Hinv) in Hi as (w & Hw & _).
    exists w. split; [assumption|].
    now apply (workers_included tables s i).
  - intros Hm. rewrite <- (Htab Hm).
    rewrite <- (inv_visited Hinv), Hm. simpl.
    now rewrite app_nil_r.
  - now apply (returns_unsignalled tables).
  - intros Hc Hh.
    destruct (complete_all_returned tables s Hinv Hh Hc) as [Hret Hall].
    split; [assumption|]. now apply (signals_all tables).
Qed.

(** C6 (as amended): a worker emits at most one completion signal, and
    has emitted it only if its row stream was closed and it has returned;
    in a complete run in which the process did not halt (no row failed
    to convert), every started worker has emitted exactly one.  Every
    run is finite and can be carried on to a complete one.  This holds
    for every reader, so also for a stream of zero rows, and for every
    sink, so whatever write errors occurred. *)
Theorem C6_one_signal_per_worker (output : Sink) (ls : list label)
  (s : state) :
  run ls (Dump_begin output) = Some s ->
  (forall i, (emitted i s <= 1)%nat)
  /\ (forall i, emitted i s = 1%nat ->
                exists w, workers s !! i = Some w
                          /\ wclosed w = true /\ wpc w = WExit)
  /\ (complete s -> halted s = None ->
      forall i w, workers s !! i = Some w -> emitted i s = 1%nat)
  /\ (length ls <= measure (Dump_begin output))%nat
  /\ (exists ls' s', run ls' s = Some s' /\ complete s').
Proof.
  intros Hrun. destruct (inv_Dump output ls s Hrun) as (tables & Hinv & _).
  pose proof (inv_once Hinv) as Honce.
  pose proof (inv_signals Hinv) as Hsig.
  split; [|split; [|split; [|split]]].
  - intros i. unfold emitted. rewrite occurrences_NoDup by assumption.
    destruct (decide (i ∈ signals s)); lia.
  - intros i. unfold emitted. rewrite occurrences_NoDup by assumption.
    destruct (decide (i ∈ signals s)) as [Hi|]; [|discriminate].
    intros _. apply Hsig in Hi as (w & Hw & Hx).
    exists w. repeat split; try assumption.
    apply (inv_leaving Hinv i w Hw). now rewrite Hx.
  - intros Hc Hh i w Hw.
    destruct (complete_all_returned tables s Hinv Hh Hc) as [_ Hall].
    unfold emitted. rewrite occurrences_NoDup by assumption.
    rewrite decide_True; [reflexivity|].
    apply Hsig. exists w. eauto.
  - apply run_bounded in Hrun. lia.
  - apply can_complete.
Qed.

(** C7: a table whose configuration ignores its data is skipped
    entirely.  At the head of the loop the orchestrator only moves on to
    the next table: workers, reads, sink, log and signals stay as they
    are.  So in no state of a run is there a worker, and with it a row
    stream, for the table, nor a read requested for it, nor a signal
    received from a worker of it. *)
Theorem C7_ignored_table_skipped (output : Sink) (ls : list label)
  (s : state) (tbl : string) (tableConfig : Table Settings) :
  FindByName cfgTables tbl = Some tableConfig ->
  IgnoreData tableConfig = true ->
  (forall s0 todo, halted s0 = None -> main s0 = MLoop (tbl :: todo) ->
                   step LMain s0 = Some (set_main (MLoop todo) s0))
  /\ (run ls (Dump_begin output) = Some s ->
      (tbl ∉ (wtable <$> workers s))
      /\ (tbl ∉ (reads s).*1)
      /\ forall i w, i ∈ signals s -> workers s !! i = Some w ->
                     wtable w <> tbl).
Proof.
  intros Hc Hi.
  assert (Hout : included tbl = false)
    by (unfold included; now rewrite Hc, Hi).
  split.
  - intros s0 todo Hh Hm. apply transition_step. eapply T_skip; eauto.
  - intros Hrun.
    destruct (inv_Dump output ls s Hrun) as (tables & Hinv & _).
    assert (Hnone : forall i w, workers s !! i = Some w -> wtable w <> tbl).
    { intros i w Hw E.
      destruct (workers_included tables s i w Hinv Hw) as [Hin _].
      congruence. }
    repeat split.
    + intros (w & E & Hw)%list_elem_of_fmap.
      apply list_elem_of_lookup in Hw as [i Hw]. now apply (Hnone i w).
    + rewrite (inv_reads Hinv), <- list_fmap_compose.
      intros (w & E & Hw)%list_elem_of_fmap.
      apply list_elem_of_lookup in Hw as [i Hw]. now apply (Hnone i w).
    + intros i w _ Hw. now apply (Hnone i w).
Qed.

(** Reading back the worker that was just updated. *)
Lemma workers_set_worker (s : state) (i : nat) (w w' : worker) :
  workers s !! i = Some w -> workers (set_worker i w' s) !! i = Some w'.
Proof.
  intros Hw. simpl. apply list_lookup_insert_eq. now apply lookup_lt_Some in Hw.
Qed.

(** C8: when a row has been serialised and the sink rejects its insert
    statement, the worker logs the error, still attempts the newline,
    and is back at its receive: it has neither returned nor halted the
    process, no signal was sent, and the rows still to come are
    untouched, so that the next row of the stream is handed to it. *)
Theorem C8_write_failure_continues (s : state) (i : nat) (w : worker)
  (row : Row) (columnMap : gmap string string) (o : Sink) (e : error) :
  halted s = None -> workers s !! i = Some w -> wpc w = WRow row ->
  toSQLColumnMap row = Ret (columnMap, None) ->
  WriteString (sink s) (insert_sql (wtable w) columnMap) = (o, Some e) ->
  exists s3,
    run [LWorker i; LWorker i; LWorker i] s = Some s3
    /\ workers s3 !! i = Some (set_pc WRecv w)
    /\ halted s3 = None
    /\ main s3 = main s
    /\ signals s3 = signals s
    /\ sink s3 = (WriteString o newline).1
    /\ mkEntry LvlError (wtable w) e
         "could not write insert statement to output" ∈ logs s3
    /\ forall tbl next pending err todo,
         main s = MRead i tbl (next :: pending) err todo ->
         exists s4, step LSend s3 = Some s4
                    /\ workers s4 !! i = Some (set_pc (WRow next) w)
                    /\ main s4 = MRead i tbl pending err todo.
Proof.
  intros Hh Hw Hpc Hrow Hwrite.
  set (w1 := set_pc (WStmt (insert_sql (wtable w) columnMap)) w).
  set (s1 := set_worker i w1 s).
  assert (E1 : step (LWorker i) s = Some s1).
  { apply transition_step. eapply T_convert; eauto. }
  assert (Hw1 : workers s1 !! i = Some w1)
    by (now apply (workers_set_worker s i w w1)).
  set (w2 := set_pc WNewline w1).
  set (s2 := add_log (mkEntry LvlError (wtable w) e
                        "could not write insert statement to output")
               (set_worker i w2 (set_sink o s1))).
  assert (E2 : step (LWorker i) s1 = Some s2).
  { unfold step, worker_step. simpl halted. rewrite Hh, Hw1. simpl.
    change (sink s1) with (sink s). now rewrite Hwrite. }
  assert (Hw2 : workers s2 !! i = Some w2).
  { simpl. apply list_lookup_insert_eq. rewrite length_insert.
    now apply lookup_lt_Some in Hw. }
  set (s3 := log_if_error (wtable w2) (WriteString (sink s2) newline).2
               "could not write new line to output"
               (set_worker i (set_pc WRecv w2)
                  (set_sink (WriteString (sink s2) newline).1 s2))).
  assert (E3 : step (LWorker i) s2 = Some s3).
  { apply transition_step. unfold s3. eapply T_newline; eauto. }
  destruct (log_if_error_frame (wtable w2) (WriteString (sink s2) newline).2
              "could not write new line to output"
              (set_worker i (set_pc WRecv w2)
                 (set_sink (WriteString (sink s2) newline).1 s2)))
    as (Fm & Fw & Fs & _ & Fsig & Fh).
  fold s3 in Fm, Fw, Fs, Fsig, Fh.
  assert (Hw3 : workers s3 !! i = Some (set_pc WRecv w)).
  { rewrite Fw. apply (workers_set_worker _ i w2). exact Hw2. }
  exists s3. repeat split.
  - simpl. rewrite E1. simpl. rewrite E2. simpl. now rewrite E3.
  - exact Hw3.
  - now rewrite Fh.
  - now rewrite Fm.
  - now rewrite Fsig.
  - now rewrite Fs.
  - unfold s3. destruct (WriteString (sink s2) newline).2; simpl.
    + apply elem_of_app. left. apply elem_of_app. right.
      apply list_elem_of_singleton. reflexivity.
    + apply elem_of_app. right. apply list_elem_of_singleton. reflexivity.
  - intros tbl next pending err todo Hm.
    eexists. split; [|split].
    + apply transition_step. eapply T_send; eauto.
      * now rewrite Fh.
      * rewrite Fm. exact Hm.
    + simpl. apply list_lookup_insert_eq. now apply lookup_lt_Some in Hw3.
    + reflexivity.
Qed.

(** C4: a value outside the supported kinds makes the coercer fail with
    the parse error and the empty literal.  A row holding such a value
    is never serialised with success, wherever the value stands in the
    iteration, and the worker holding the row halts the process at that
    row: it writes nothing for it and receives no further row. *)
Theorem C4_unsupported_aborts_row (v : value) :
  supported v = false ->
  toSQLStringValue v = Ret ("", Some ErrCouldNotParse)
  /\ forall (row : Row) (k : string), (k, v) ∈ row ->
       (forall m, toSQLColumnMap row <> Ret (m, None))
       /\ forall (s : state) (i : nat) (w : worker),
            halted s = None -> workers s !! i = Some w ->
            wpc w = WRow row ->
            exists s', step (LWorker i) s = Some s'
                       /\ is_Some (halted s')
                       /\ sink s' = sink s
                       /\ workers s' = workers s
                       /\ forall l, step l s' = None.
Proof.
  intros Hv. pose proof (unsupported_fails v Hv) as Hfail.
  split; [assumption|].
  intros row k Hin.
  assert (Hbad : forall m, toSQLColumnMap row <> Ret (m, None)).
  { apply (range_row_bad_cell row ∅ k v Hin).
    intros [s Hs]. rewrite Hfail in Hs. discriminate. }
  split; [assumption|].
  intros s i w Hh Hw Hpc.
  unfold step at 1. unfold worker_step. rewrite Hh, Hw, Hpc.
  destruct (toSQLColumnMap row) as [[m [e|]]|msg] eqn:Hrow.
  - eexists. repeat split; simpl; eauto.
  - now destruct (Hbad m).
  - eexists. repeat split; simpl; eauto.
Qed.

(** ** The coercer on every value *)

(** Boxes are unwrapped all the way down. *)
Lemma toSQLStringValue_strip (v : value) :
  toSQLStringValue v = toSQLStringValue (strip v).
Proof. induction v; simpl; auto. Qed.

Lemma supported_strip (v : value) : supported (strip v) = supported v.
Proof. induction v; simpl; auto. Qed.

(** X1: the coercer has three outcomes, decided by the value a chain
    of boxes leads to.  It panics exactly when that value is the typed
    nil pointer; it fails exactly when that value is of no supported
    kind, and then with the parse error and the empty literal; in every
    other case it returns a literal and no error, the literal of the
    innermost value. *)
Theorem X1_coercer_outcomes (v : value) :
  toSQLStringValue v = toSQLStringValue (strip v)
  /\ (toSQLStringValue v = Panic nil_dereference <-> strip v = VNilBox)
  /\ (toSQLStringValue v = Ret ("", Some ErrCouldNotParse)
      <-> supported v = false)
  /\ (converts v <-> supported v = true /\ strip v <> VNilBox)
  /\ (forall msg, toSQLStringValue v = Panic msg -> msg = nil_dereference)
  /\ (forall s e, toSQLStringValue v = Ret (s, Some e) ->
                  s = "" /\ e = ErrCouldNotParse).
Proof.
  split; [apply toSQLStringValue_strip|].
  rewrite (toSQLStringValue_strip v), <- (supported_strip v).
  assert (Hbox : forall inner, strip v <> VBox inner)
    by (induction v; simpl; auto; discriminate).
  unfold converts. rewrite (toSQLStringValue_strip v).
  destruct (strip v) eqn:E; simpl;
    try (exfalso; eapply Hbox; reflexivity);
    (split; [split; intros; congruence|]);
    (split; [split; intros; congruence|]);
    (split; [split; [intros [s Hs]; split; congruence
                    |intros [H1 H2]; try congruence; eauto]|]);
    (split; [intros msg H; congruence|]);
    intros s e H; simplify_eq; auto.
Qed.

(** ** The row serialiser in any iteration order *)

(** The maps built from two iterations of the same cells agree. *)
Lemma literals_perm (row row' : Row) :
  row ≡ₚ row' -> NoDup (row.*1) ->
  Forall (fun c => converts c.2) row ->
  literals ∅ row = literals ∅ row'.
Proof.
  intros Hp Hnd Hall.
  assert (Hnd' : NoDup (row'.*1)) by (now rewrite <- Hp).
  apply map_eq. intros c.
  destruct (decide (c ∈ row.*1)) as [Hin|Hout].
  - apply list_elem_of_fmap in Hin as ([c' x] & -> & Hin). simpl.
    destruct (proj1 (Forall_forall _ _) Hall (c', x) Hin) as [lit Hlit].
    simpl in Hlit.
    rewrite (literals_lookup row ∅ c' x lit Hnd Hin Hlit).
    rewrite Hp in Hin.
    now rewrite (literals_lookup row' ∅ c' x lit Hnd' Hin Hlit).
  - rewrite literals_lookup_other by assumption.
    rewrite literals_lookup_other; [reflexivity|]. now rewrite <- Hp.
Qed.

(** X2: for a row with distinct column names whose cells all convert,
    the serialiser returns the same map in whatever order the cells are
    visited: its keys are exactly the columns of the row and each column
    is mapped to the literal of its own cell. *)
Theorem X2_serialise_any_order (row row' : Row) :
  row ≡ₚ row' -> row_ok row ->
  Forall (fun c => converts c.2) row ->
  toSQLColumnMap row' = toSQLColumnMap row
  /\ toSQLColumnMap row = Ret (literals ∅ row, None)
  /\ dom (literals ∅ row) = list_to_set (row.*1)
  /\ (forall c x lit, (c, x) ∈ row -> toSQLStringValue x = Ret (lit, None) ->
                      literals ∅ row !! c = Some lit).
Proof.
  intros Hp Hnd Hall.
  assert (Hall' : Forall (fun c => converts c.2) row') by (now rewrite <- Hp).
  destruct (toSQLColumnMap_total row Hall) as [E Hdom].
  destruct (toSQLColumnMap_total row' Hall') as [E' _].
  repeat split; try assumption.
  - rewrite E, E'. now rewrite (literals_perm row row' Hp Hnd Hall).
  - intros c x lit Hin Hx. now apply (literals_lookup row ∅ c x lit).
Qed.

(** A value of a supported kind converts unless its boxes end in the
    typed nil pointer. *)
Lemma supported_converts (v : value) :
  supported v = true -> strip v <> VNilBox -> converts v.
Proof.
  unfold converts.
  induction v; simpl; intros Hs Hn; try discriminate; eauto.
  now destruct Hn.
Qed.

(** Without a cell that panics, the loop either converts every cell or
    stops at the first cell of an unsupported kind. *)
Lemma range_row_split (row : Row) (acc : gmap string string) :
  Forall (fun c => strip c.2 <> VNilBox) row ->
  (Forall (fun c => converts c.2) row
   /\ range_row acc row = Ret (literals acc row, None))
  \/ (exists pre k v post,
        row = pre ++ (k, v) :: post
        /\ Forall (fun c => converts c.2) pre
        /\ supported v = false
        /\ range_row acc row = Ret (literals acc pre, Some ErrCouldNotParse)).
Proof.
  intros Hnp. revert acc. induction Hnp as [|[k v] row Hv Hnp IH]; intros acc.
  - left. split; [constructor|reflexivity].
  - simpl in Hv.
    destruct (supported v) eqn:Hs.
    + destruct (supported_converts v Hs Hv) as [lit Hlit].
      destruct (IH (<[k := Sprintf_v lit]> acc))
        as [[Hall E]|(pre & k' & v' & post & -> & Hpre & Hs' & E)].
      * left. split; [constructor; [now exists lit|assumption]|].
        cbn [range_row app]. rewrite Hlit, E.
        unfold literals. simpl. now rewrite Hlit.
      * right. exists ((k, v) :: pre), k', v', post.
        split; [reflexivity|]. split; [constructor; [now exists lit|assumption]|].
        split; [assumption|].
        cbn [range_row app]. rewrite Hlit, E.
        unfold literals. simpl. now rewrite Hlit.
    + right. exists [], k, v, row. repeat split; [constructor|assumption|].
      cbn [range_row app]. now rewrite (unsupported_fails v Hs).
Qed.

(** A column name stands for one cell of a row. *)
Lemma row_ok_functional (row : Row) (c : string) (x y : value) :
  row_ok row -> (c, x) ∈ row -> (c, y) ∈ row -> x = y.
Proof.
  unfold row_ok. induction row as [|[k v] row IH]; intros Hnd Hx Hy.
  - inversion Hx.
  - rewrite fmap_cons in Hnd. apply NoDup_cons in Hnd as [Hk Hnd]. simpl in Hk.
    apply elem_of_cons in Hx as [Ex|Hx]; apply elem_of_cons in Hy as [Ey|Hy].
    + congruence.
    + injection Ex as -> ->. exfalso. apply Hk.
      apply list_elem_of_fmap. now exists (k, y).
    + injection Ey as -> ->. exfalso. apply Hk.
      apply list_elem_of_fmap. now exists (k, x).
    + now apply IH.
Qed.

(** What a map built from converting cells holds comes from a cell. *)
Lemma literals_lookup_inv (pre : Row) (c lit : string) :
  NoDup (pre.*1) -> Forall (fun c => converts c.2) pre ->
  literals ∅ pre !! c = Some lit ->
  exists x, (c, x) ∈ pre /\ toSQLStringValue x = Ret (lit, None).
Proof.
  intros Hnd Hall Hc.
  assert (Hin : c ∈ dom (literals ∅ pre)) by (apply elem_of_dom; eauto).
  rewrite literals_dom in Hin by assumption.
  rewrite dom_empty_L, (left_id_L ∅ (∪)) in Hin.
  apply elem_of_list_to_set, list_elem_of_fmap in Hin as ([c' x] & -> & Hin).
  simpl in *.
  destruct (proj1 (Forall_forall _ _) Hall (c', x) Hin) as [lit' Hlit].
  simpl in Hlit.
  rewrite (literals_lookup pre ∅ c' x lit' Hnd Hin Hlit) in Hc.
  unfold Sprintf_v in Hc. exists x. split; [assumption|]. congruence.
Qed.

(** X3: a row with distinct column names, no cell that ends in the
    typed nil pointer and a cell of an unsupported kind makes the
    serialiser return the parse error in whatever order the cells are
    visited.  The map handed back with the error holds nothing but
    literals of cells of the row, and nothing for the column of the
    unsupported cell. *)
Theorem X3_unsupported_any_order (row : Row) (k : string) (v : value) :
  row_ok row ->
  Forall (fun c => strip c.2 <> VNilBox) row ->
  (k, v) ∈ row -> supported v = false ->
  exists m,
    toSQLColumnMap row = Ret (m, Some ErrCouldNotParse)
    /\ m !! k = None
    /\ forall c lit, m !! c = Some lit ->
         exists x, (c, x) ∈ row /\ toSQLStringValue x = Ret (lit, None).
Proof.
  intros Hok Hnp Hin Hv.
  destruct (range_row_split row ∅ Hnp)
    as [[Hall _]|(pre & k' & v' & post & -> & Hpre & Hs' & E)].
  - exfalso.
    destruct (proj1 (Forall_forall _ _) Hall (k, v) Hin) as [lit Hlit].
    simpl in Hlit. rewrite (unsupported_fails v Hv) in Hlit. discriminate.
  - assert (Hnd : NoDup (pre.*1)).
    { unfold row_ok in Hok. rewrite fmap_app in Hok.
      now apply NoDup_app in Hok as (Hnd & _ & _). }
    assert (Hfrom : forall c lit, literals ∅ pre !! c = Some lit ->
              exists x, (c, x) ∈ pre ++ (k', v') :: post
                        /\ toSQLStringValue x = Ret (lit, None)).
    { intros c lit Hc.
      destruct (literals_lookup_inv pre c lit Hnd Hpre Hc) as (x & Hx & Hlit).
      exists x. split; [|assumption]. apply elem_of_app. now left. }
    exists (literals ∅ pre). split; [exact E|]. split; [|exact Hfrom].
    destruct (literals ∅ pre !! k) as [lit|] eqn:Hk; [|reflexivity].
    exfalso. destruct (Hfrom k lit Hk) as (x & Hx & Hlit).
    rewrite (row_ok_functional _ k x v Hok Hx Hin) in Hlit.
    rewrite (unsupported_fails v Hv) in Hlit. discriminate.
Qed.

(** ** The ledger of a run *)

(** The only panic of the coercer, and so of the serialiser, is the nil
    pointer dereference; the only error is the parse error. *)
Lemma coerce_panic (v : value) (msg : string) :
  toSQLStringValue v = Panic msg -> msg = nil_dereference.
Proof. induction v; simpl; intros H; simplify_eq; auto. Qed.

Lemma range_row_outcome (row : Row) (acc : gmap string string) :
  (forall msg, range_row acc row = Panic msg -> msg = nil_dereference)
  /\ (forall m e, range_row acc row = Ret (m, Some e) -> e = ErrCouldNotParse).
Proof.
  revert acc. induction row as [|[k v] row IH]; intros acc; simpl.
  - split; intros; discriminate.
  - destruct (toSQLStringValue v) as [[s [e|]]|msg] eqn:Hv.
    + split; [intros; discriminate|]. intros m e' [= <- <-].
      now destruct (coerce_error_no_literal v s e Hv).
    + apply IH.
    + split; [|intros; discriminate]. intros msg' [= <-].
      now apply (coerce_panic v).
Qed.

Lemma ledger_begin (tables : list string) (output : Sink) :
  ledger (mkState (MLoop tables) [] output [] [] [] None).
Proof.
  constructor; simpl.
  - intros; discriminate.
  - intros i w row H. inversion H.
  - intros i w stmt H. inversion H.
  - intros h H. discriminate.
Qed.

(** A step that moves one worker, keeps the process running and leaves
    the orchestrator alone keeps the ledger, provided the worker's new
    control point holds a row of its table. *)
Lemma ledger_move (s s' : state) (i : nat) (w : worker) (pc : wstate) :
  ledger s -> workers s !! i = Some w ->
  workers s' = <[i := set_pc pc w]> (workers s) ->
  main s' = main s -> halted s' = None ->
  (forall row, pc = WRow row -> row ∈ rows_of (wtable w)) ->
  (forall stmt, pc = WStmt stmt ->
     exists row columnMap,
       row ∈ rows_of (wtable w)
       /\ toSQLColumnMap row = Ret (columnMap, None)
       /\ stmt = insert_sql (wtable w) columnMap) ->
  ledger s'.
Proof.
  intros [Hchan Hrow Hstmt Hhalt] Hw Ew Em Eh Hpc_row Hpc_stmt.
  constructor; rewrite ?Ew, ?Em, ?Eh.
  - intros chan tbl pending err todo Hm.
    destruct (Hchan chan tbl pending err todo Hm)
      as (Hlen & (w0 & Hw0 & Ht) & Hpre & Herr).
    rewrite length_insert. repeat split; try assumption.
    destruct (decide (chan = i)) as [->|Hne].
    + exists (set_pc pc w). split.
      * apply list_lookup_insert_eq. now apply lookup_lt_Some in Hw.
      * simpl. congruence.
    + exists w0. split; [|assumption].
      rewrite list_lookup_insert_ne by congruence. assumption.
  - intros j w' row Hw' Hpc.
    destruct (lookup_set_pc _ _ _ _ _ _ Hw Hw')
      as (w0 & Hw0 & Et & _ & Hsame & Hother).
    rewrite Et. destruct (decide (j = i)) as [->|Hne].
    + destruct (Hsame eq_refl) as [-> Epc]. apply Hpc_row. congruence.
    + rewrite (Hother Hne) in Hpc. eauto.
  - intros j w' stmt Hw' Hpc.
    destruct (lookup_set_pc _ _ _ _ _ _ Hw Hw')
      as (w0 & Hw0 & Et & _ & Hsame & Hother).
    rewrite Et. destruct (decide (j = i)) as [->|Hne].
    + destruct (Hsame eq_refl) as [-> Epc]. apply Hpc_stmt. congruence.
    + rewrite (Hother Hne) in Hpc. eauto.
  - intros h H. discriminate.
Qed.

(** Every transition keeps the ledger. *)
Lemma ledger_transition (l : label) (s s' : state) :
  ledger s -> transition l s s' -> ledger s'.
Proof.
  intros L T. pose proof L as [Lchan Lrow Lstmt Lhalt].
  destruct T as
    [s Hh Hm|s tbl todo Hh Hm Hi|s tbl todo Hh Hm Hi
    |s chan tbl err todo w Hh Hm Hw|s chan tbl row pending err todo w Hh Hm Hw Hpc
    |s i w Hh Hw Hpc Hcl|s i w row m Hh Hw Hpc Hrow
    |s i w row m err Hh Hw Hpc Hrow|s i w row msg Hh Hw Hpc Hrow
    |s i w stmt Hh Hw Hpc|s i w Hh Hw Hpc|s i w Hh Hw Hpc].
  - constructor; simpl; eauto; intros; try discriminate; congruence.
  - constructor; simpl; eauto; intros; try discriminate; congruence.
  - destruct (start_table_frame tbl (opts_for tbl) todo s)
      as (Em & Ew & _ & _ & _ & _ & Eh).
    constructor; rewrite ?Em, ?Ew, ?Eh.
    + intros chan tbl' pending err todo' [= <- <- <- <- <-].
      rewrite length_app. simpl. split; [lia|]. split.
      * exists (mkWorker tbl false WRecv). split; [|reflexivity].
        now apply list_lookup_middle.
      * split; [now exists []|reflexivity].
    + intros i w row Hw Hpc. apply lookup_snoc_Some in Hw as [[_ Hw]|[_ <-]].
      * eauto.
      * discriminate.
    + intros i w stmt Hw Hpc. apply lookup_snoc_Some in Hw as [[_ Hw]|[_ <-]].
      * eauto.
      * discriminate.
    + congruence.
  - match goal with |- context [log_if_error ?t ?e ?m ?x] =>
      destruct (log_if_error_frame t e m x) as (Em & Ew & _ & _ & _ & Eh)
    end.
    constructor; rewrite ?Em, ?Ew, ?Eh; simpl.
    + intros; discriminate.
    + intros j w' row Hw' Hpc'.
      apply list_lookup_insert_Some in Hw' as [(-> & <- & _)|[Hne Hw']];
        simpl in *; eauto.
    + intros j w' stmt Hw' Hpc'.
      apply list_lookup_insert_Some in Hw' as [(-> & <- & _)|[Hne Hw']];
        simpl in *; eauto.
    + congruence.
  - destruct (Lchan chan tbl (row :: pending) err todo Hm)
      as (Hlen & (w0 & Hw0 & Ht) & (pre & Hpre) & Herr).
    assert (w0 = w) by congruence. subst w0.
    assert (Hin : row ∈ rows_of (wtable w)).
    { rewrite Ht, Hpre. apply elem_of_app. right. apply elem_of_cons. now left. }
    constructor; simpl.
    + intros chan' tbl' pending' err' todo' [= <- <- <- <- <-].
      rewrite length_insert. repeat split; try assumption.
      * exists (set_pc (WRow row) w). split; [|assumption].
        apply list_lookup_insert_eq. now apply lookup_lt_Some in Hw.
      * exists (pre ++ [row]). now rewrite <- app_assoc.
    + intros j w' row' Hw' Hpc'.
      destruct (lookup_set_pc _ _ _ _ _ _ Hw Hw')
        as (w1 & Hw1 & Et & _ & Hsame & Hother).
      rewrite Et. destruct (decide (j = chan)) as [->|Hne].
      * destruct (Hsame eq_refl) as [-> Epc]. congruence.
      * rewrite (Hother Hne) in Hpc'. eauto.
    + intros j w' stmt Hw' Hpc'.
      destruct (lookup_set_pc _ _ _ _ _ _ Hw Hw')
        as (w1 & Hw1 & Et & _ & Hsame & Hother).
      rewrite Et. destruct (decide (j = chan)) as [->|Hne].
      * destruct (Hsame eq_refl) as [-> Epc]. congruence.
      * rewrite (Hother Hne) in Hpc'. eauto.
    + congruence.
  - apply (ledger_move s _ i w WSignal); auto; discriminate.
  - apply (ledger_move s _ i w (WStmt (insert_sql (wtable w) m))); auto;
      [discriminate|].
    intros stmt [= <-]. exists row, m. eauto.
  - assert (err = ErrCouldNotParse)
      by (now apply (proj2 (range_row_outcome row ∅) m err)).
    subst err.
    constructor; simpl; eauto.
    intros h [= <-]. exists i, w, row. repeat split; try assumption.
    left. repeat split; eauto.
  - assert (msg = nil_dereference)
      by (now apply (proj1 (range_row_outcome row ∅) msg)).
    subst msg.
    constructor; simpl; eauto.
    intros h [= <-]. exists i, w, row. repeat split; try assumption.
    right. split; [reflexivity|assumption].
  - match goal with |- context [log_if_error ?t ?e ?m ?x] =>
      destruct (log_if_error_frame t e m x) as (Em & Ew & _ & _ & _ & Eh)
    end.
    apply (ledger_move s _ i w WNewline); auto;
      try (rewrite Ew; reflexivity); try (rewrite Em; reflexivity);
      try (rewrite Eh; assumption); discriminate.
  - match goal with |- context [log_if_error ?t ?e ?m ?x] =>
      destruct (log_if_error_frame t e m x) as (Em & Ew & _ & _ & _ & Eh)
    end.
    apply (ledger_move s _ i w WRecv); auto;
      try (rewrite Ew; reflexivity); try (rewrite Em; reflexivity);
      try (rewrite Eh; assumption); discriminate.
  - apply (ledger_move s _ i w WExit); auto; discriminate.
Qed.

(** The ledger holds all along a run of [Dump]. *)
Lemma ledger_Dump (output : Sink) (ls : list label) (s : state) :
  run ls (Dump_begin output) = Some s -> ledger s.
Proof.
  intros Hrun.
  destruct (Dump_begin_cases output) as [(o & _ & E)|(o & e & E)];
    rewrite E in Hrun.
  - exact (run_invariant ledger
             (fun l s1 s2 L T => ledger_transition l s1 s2 L T)
             ls _ s (ledger_begin _ o) Hrun).
  - apply run_after_error in Hrun. subst s.
    constructor; simpl; intros; discriminate.
Qed.

(** ** What [Dump] returns *)

(** Once the loop is reached, the only value [Dump] returns is nil. *)
Lemma loop_returns_nil (tables : list string) (o : Sink) (ls : list label)
  (s : state) :
  run ls (mkState (MLoop tables) [] o [] [] [] None) = Some s ->
  forall r, main s = MReturned r -> r = None.
Proof.
  intros Hrun.
  refine (run_invariant (fun s => forall r, main s = MReturned r -> r = None)
            _ ls _ s _ Hrun).
  - intros l s1 s2 P T r Hr.
    inversion T; subst;
      try rewrite (proj1 (log_if_error_frame _ _ _ _)) in Hr;
      simpl in Hr; try congruence; try (apply P; assumption).
    unfold start_table in Hr.
    destruct (ReadTable rdr tbl (opts_for tbl)); simpl in Hr. discriminate.
  - simpl. discriminate.
Qed.

(** X4: [Dump] returns an error exactly when listing the tables, fetching
    the structure or writing the structure failed; the error is that
    failure wrapped with the message of its call, nothing was written
    after it, and no table was read, no worker started and nothing
    logged.  Once the structure is written [Dump] returns nil only,
    whatever the reader and the writes of the rows do. *)
Theorem X4_Dump_error_return (output : Sink) (ls : list label) (s : state)
  (r : option error) :
  run ls (Dump_begin output) = Some s -> main s = MReturned r ->
  match r with
  | None =>
      (GetTables rdr).2 = None /\ (GetStructure rdr).2 = None
      /\ (WriteString output (GetStructure rdr).1).2 = None
  | Some e =>
      ls = [] /\ workers s = [] /\ reads s = [] /\ logs s = []
      /\ signals s = [] /\ halted s = None
      /\ ((exists err, (GetTables rdr).2 = Some err
                       /\ e = ErrWrap err "failed to get tables"
                       /\ sink s = output)
          \/ (exists err, (GetTables rdr).2 = None
                          /\ (GetStructure rdr).2 = Some err
                          /\ e = ErrWrap err "could not get database structure"
                          /\ sink s = output)
          \/ (exists err, (GetTables rdr).2 = None
                          /\ (GetStructure rdr).2 = None
                          /\ (WriteString output (GetStructure rdr).1).2
                             = Some err
                          /\ e = ErrWrap err
                                   "could not write structure to output"
                          /\ sink s
                             = (WriteString output (GetStructure rdr).1).1))
  end.
Proof.
  intros Hrun Hr.
  assert (Hstuck : forall o e ls' s',
            run ls' (mkState (MReturned (Some e)) [] o [] [] [] None) = Some s' ->
            ls' = []
            /\ s' = mkState (MReturned (Some e)) [] o [] [] [] None).
  { intros o e ls' s' H. split; [| eapply run_after_error; eassumption].
    destruct ls' as [| l ls']; [reflexivity |].
    simpl in H. destruct l; simpl in H; discriminate. }
  unfold Dump_begin in Hrun.
  destruct (GetTables rdr) as [tables [err |]] eqn:Ht; simpl.
  { apply Hstuck in Hrun as [-> ->]. simpl in Hr. inversion Hr; subst.
    repeat split. left. exists err. repeat split. }
  destruct (GetStructure rdr) as [structure [err |]] eqn:Hs; simpl.
  { apply Hstuck in Hrun as [-> ->]. simpl in Hr. inversion Hr; subst.
    repeat split. right. left. exists err. repeat split. }
  destruct (WriteString output structure) as [o [err |]] eqn:Hw; simpl.
  { apply Hstuck in Hrun as [-> ->]. simpl in Hr. inversion Hr; subst.
    repeat split. right. right. exists err. repeat split. }
  rewrite (loop_returns_nil _ _ _ _ Hrun r Hr). repeat split.
Qed.

(** A run of [Dump] either has returned a preamble error at once or
    keeps the invariant for the reader's tables. *)
Lemma Dump_run_cases (output : Sink) (ls : list label) (s : state) :
  run ls (Dump_begin output) = Some s ->
  (exists o,
     Dump_begin output = mkState (MLoop (GetTables rdr).1) [] o [] [] [] None
     /\ inv (GetTables rdr).1 s)
  \/ (exists o e, s = mkState (MReturned (Some e)) [] o [] [] [] None).
Proof.
  intros Hrun.
  destruct (Dump_begin_cases output) as [(o & _ & Hb) | (o & e & Hb)].
  - left. exists o. split; [assumption |].
    rewrite Hb in Hrun. exact (inv_run _ _ _ _ (inv_begin _ o) Hrun).
  - right. exists o, e. rewrite Hb in Hrun.
    eapply run_after_error; eassumption.
Qed.

(** X5: the tables read.  At every moment the calls of [reader.ReadTable]
    made so far are one per worker started, in order, each with the
    options of its table: the zero value when the configuration has no
    entry for it, else those built from its entry; no skipped table is
    ever read.  When [Dump] has returned nil the calls are exactly the
    reader's tables that are not skipped, in the reader's order, each
    read once. *)
Theorem X5_tables_read (output : Sink) (ls : list label) (s : state) :
  run ls (Dump_begin output) = Some s ->
  reads s = (fun w => (wtable w, opts_for (wtable w))) <$> workers s
  /\ (forall tbl opts, (tbl, opts) ∈ reads s ->
        included tbl = true /\ tbl ∈ (GetTables rdr).1
        /\ opts = match FindByName cfgTables tbl with
                  | Some tableConfig => NewReadTableOpt tableConfig
                  | None => zeroOpt
                  end)
  /\ (main s = MReturned None ->
      reads s = (fun tbl => (tbl, opts_for tbl))
                  <$> filter (fun t => included t = true) (GetTables rdr).1).
Proof.
  intros Hrun.
  destruct (Dump_run_cases _ _ _ Hrun) as [(o & _ & I) | (o & e & ->)].
  - pose proof (inv_reads I) as R. split; [exact R |]. split.
    + intros tbl opts Hin. rewrite R in Hin.
      apply list_elem_of_fmap in Hin as (w & Heq & Hw).
      apply list_elem_of_lookup in Hw as (i & Hw).
      destruct (workers_included _ _ _ _ I Hw) as [Hinc Hmem].
      inversion Heq; subst. repeat split; assumption.
    + intros Hm. pose proof (inv_visited I) as V.
      rewrite Hm in V. simpl in V. rewrite app_nil_r in V.
      rewrite R, <- V, <- list_fmap_compose. reflexivity.
  - simpl. split; [reflexivity |]. split; [| discriminate].
    intros tbl opts Hin. inversion Hin.
Qed.

(** X6: one table at a time.  A worker whose channel is still open is the
    worker started last, the reader is inside the call for that worker's
    table, and every worker started before it has had its channel
    closed: the loop starts the next table only after the read of the
    current one has returned. *)
Theorem X6_one_table_at_a_time (output : Sink) (ls : list label) (s : state)
  (i : nat) (w : worker) :
  run ls (Dump_begin output) = Some s ->
  workers s !! i = Some w -> wclosed w = false ->
  length (workers s) = S i
  /\ (exists pending err todo,
        main s = MRead i (wtable w) pending err todo)
  /\ (forall j w', workers s !! j = Some w' -> j <> i -> wclosed w' = true).
Proof.
  intros Hrun Hw Hopen.
  pose proof (ledger_Dump _ _ _ Hrun) as L.
  destruct (Dump_run_cases _ _ _ Hrun) as [(o & _ & I) | (o & e & ->)];
    [| simpl in Hw; rewrite lookup_nil in Hw; discriminate].
  pose proof (inv_open I _ _ Hw Hopen) as Hread.
  destruct (main s) as [todo | chan tbl pending err todo | r] eqn:Hm;
    simpl in Hread; try discriminate.
  inversion Hread; subst chan.
  destruct (led_chan L _ _ _ _ _ Hm) as (Hlen & (w0 & Hw0 & Htbl) & _ & _).
  rewrite Hw in Hw0. inversion Hw0; subst w0.
  split; [assumption |]. split.
  - exists pending, err, todo. rewrite Htbl. reflexivity.
  - intros j w' Hw' Hne.
    destruct (wclosed w') eqn:Hc; [reflexivity |].
    pose proof (inv_open I _ _ Hw' Hc) as Hread'.
    rewrite Hm in Hread'. simpl in Hread'. congruence.
Qed.
(** ** What the workers hold, and why the process ends early *)

(** X7: a worker is only ever started for a table of the reader that is
    not skipped; the row it holds is a row the reader pushed for that
    table, and the statement it is about to write is the insert
    statement of its own table, rendered from the column map of such a
    row, which converted without error. *)
Theorem X7_worker_serves_own_table (output : Sink) (ls : list label)
  (s : state) (i : nat) (w : worker) :
  run ls (Dump_begin output) = Some s -> workers s !! i = Some w ->
  included (wtable w) = true /\ wtable w ∈ (GetTables rdr).1
  /\ (forall row, wpc w = WRow row -> row ∈ rows_of (wtable w))
  /\ (forall stmt, wpc w = WStmt stmt ->
        exists row columnMap,
          row ∈ rows_of (wtable w)
          /\ toSQLColumnMap row = Ret (columnMap, None)
          /\ stmt = insert_sql (wtable w) columnMap).
Proof.
  intros Hrun Hw.
  pose proof (ledger_Dump _ _ _ Hrun) as L.
  destruct (Dump_run_cases _ _ _ Hrun) as [(o & _ & I) | (o & e & ->)];
    [| simpl in Hw; rewrite lookup_nil in Hw; discriminate].
  destruct (workers_included _ _ _ _ I Hw) as [Hinc Hmem].
  split; [assumption |]. split; [assumption |]. split.
  - intros row Hrow. exact (led_row L _ _ _ Hw Hrow).
  - intros stmt Hstmt. exact (led_stmt L _ _ _ Hw Hstmt).
Qed.

(** X8: the process ends before its time for two reasons only, both in a
    worker converting a row the reader pushed for its table: the
    serialiser returned the error of an unsupported kind, and then the
    exit status is 1 and the log holds the fatal entry naming the
    worker's table; or it dereferenced a nil pointer, and then the
    process crashed with that panic.  Nothing runs afterwards. *)
Theorem X8_early_end_causes (output : Sink) (ls : list label) (s : state)
  (h : halt_reason) :
  run ls (Dump_begin output) = Some s -> halted s = Some h ->
  complete s
  /\ exists i w row,
       workers s !! i = Some w /\ wpc w = WRow row
       /\ row ∈ rows_of (wtable w) /\ included (wtable w) = true
       /\ ((h = Exited 1
            /\ (exists columnMap,
                  toSQLColumnMap row = Ret (columnMap, Some ErrCouldNotParse))
            /\ mkEntry LvlFatal (wtable w) ErrCouldNotParse
                 "could not convert value to string" ∈ logs s)
           \/ (h = Crashed nil_dereference
               /\ toSQLColumnMap row = Panic nil_dereference)).
Proof.
  intros Hrun Hh.
  pose proof (ledger_Dump _ _ _ Hrun) as L.
  split; [intros l; unfold step; rewrite Hh; reflexivity |].
  destruct (led_halt L _ Hh) as (i & w & row & Hw & Hrow & Hcause).
  exists i, w, row.
  destruct (Dump_run_cases _ _ _ Hrun) as [(o & _ & I) | (o & e & ->)];
    [| simpl in Hw; rewrite lookup_nil in Hw; discriminate].
  destruct (workers_included _ _ _ _ I Hw) as [Hinc _].
  repeat split; try assumption.
  - exact (led_row L _ _ _ Hw Hrow).
  - destruct Hcause as [(-> & Hm & before & Hlog) | (-> & Hp)].
    + left. repeat split; try assumption.
      rewrite Hlog. apply elem_of_app. right.
      apply elem_of_cons. left. reflexivity.
    + right. split; [reflexivity | assumption].
Qed.

(** X9: when every cell of every row the reader pushes for a table that
    is not skipped is of a supported kind and no nil pointer, the
    process never ends early; a run that can go no further then has
    [Dump] returned, and every worker has left after sending its signal
    exactly once. *)
Theorem X9_clean_rows_run_to_the_end (output : Sink) (ls : list label)
  (s : state) :
  (forall tbl row,
     tbl ∈ (GetTables rdr).1 -> included tbl = true -> row ∈ rows_of tbl ->
     Forall (fun c => supported c.2 = true /\ strip c.2 <> VNilBox) row) ->
  run ls (Dump_begin output) = Some s ->
  halted s = None
  /\ (complete s ->
      returned s
      /\ forall i w, workers s !! i = Some w ->
                     wpc w = WExit /\ emitted i s = 1%nat).
Proof.
  intros Hclean Hrun.
  pose proof (ledger_Dump _ _ _ Hrun) as L.
  destruct (Dump_run_cases _ _ _ Hrun) as [(o & _ & I) | (o & e & ->)].
  - assert (Hh : halted s = None).
    { destruct (halted s) as [h |] eqn:Hh; [exfalso | reflexivity].
      destruct (led_halt L _ Hh) as (i & w & row & Hw & Hrow & Hcause).
      destruct (workers_included _ _ _ _ I Hw) as [Hinc Hmem].
      pose proof (Hclean _ _ Hmem Hinc (led_row L _ _ _ Hw Hrow)) as Hall.
      assert (Hconv : Forall (fun c => converts c.2) row).
      { eapply Forall_impl; [exact Hall |].
        intros c [Hs Hn]. now apply supported_converts. }
      destruct (toSQLColumnMap_total row Hconv) as [E _].
      destruct Hcause as [(_ & (m & Hm) & _) | (_ & Hp)]; congruence. }
    split; [assumption |]. intros Hc.
    destruct (complete_all_returned _ _ I Hh Hc) as [Hret Hexit].
    split; [assumption |]. intros i w Hw.
    split; [exact (Hexit _ _ Hw) |].
    unfold emitted. rewrite (occurrences_NoDup _ i (inv_once I)).
    destruct (decide (i ∈ signals s)) as [_ | Hout]; [reflexivity |].
    exfalso. apply Hout. apply (inv_signals I).
    exists w. split; [assumption | exact (Hexit _ _ Hw)].
  - simpl. split; [reflexivity |]. intros _. split.
    + exists (Some e). reflexivity.
    + intros i w Hw. rewrite lookup_nil in Hw. discriminate.
Qed.
(** ** The lines written *)

Lemma occ_app (x : string) (l1 l2 : list string) :
  occ x (l1 ++ l2) = (occ x l1 + occ x l2)%nat.
Proof. apply count_occ_app. Qed.

Lemma occ_nil (x : string) : occ x [] = 0%nat.
Proof. reflexivity. Qed.

Lemma occ_cons (x y : string) (l : list string) :
  occ x (y :: l) = (occ x [y] + occ x l)%nat.
Proof. unfold occ. simpl. destruct (String.string_dec y x); reflexivity. Qed.

(** Replacing one worker trades what it owed for what it owes now. *)
Lemma owes_insert (ws : list worker) (i : nat) (w w' : worker)
  (a b : list string) (x : string) :
  ws !! i = Some w -> worker_owes w = a -> worker_owes w' = b ->
  (occ x (flat_map worker_owes (<[i := w']> ws)) + occ x a
   = occ x (flat_map worker_owes ws) + occ x b)%nat.
Proof.
  intros Hw <- <-. revert i Hw.
  induction ws as [| w0 ws IH]; intros i Hw.
  - rewrite lookup_nil in Hw. discriminate.
  - destruct i as [| i]; simpl in *.
    + inversion Hw; subst. rewrite !occ_app. lia.
    + rewrite !occ_app. specialize (IH i Hw). lia.
Qed.

Lemma all_lines_cons (tbl : string) (todo : list string) :
  all_lines (tbl :: todo)
  = if included tbl
    then flat_map (row_lines tbl) (rows_of tbl) ++ all_lines todo
    else all_lines todo.
Proof.
  unfold all_lines. rewrite filter_cons.
  destruct (included tbl) eqn:E.
  - rewrite decide_True by reflexivity. reflexivity.
  - rewrite decide_False by discriminate. reflexivity.
Qed.

Lemma write_failures_snoc (l : list entry) (e : entry) :
  write_failures (l ++ [e])
  = write_failures l
    ++ (if decide (e_msg e = "could not write insert statement to output"
                   \/ e_msg e = "could not write new line to output")
        then [e] else []).
Proof.
  unfold write_failures. rewrite filter_app. reflexivity.
Qed.

Lemma read_failures_snoc (l : list entry) (e : entry) :
  read_failures (l ++ [e])
  = read_failures l
    ++ (if decide (e_msg e = "error while reading table")
        then [e] else []).
Proof.
  unfold read_failures. rewrite filter_app. reflexivity.
Qed.

(** A refused write leaves one entry among the write failures; a read
    that failed leaves none. *)
Lemma write_failures_log (tbl : string) (err : option error) (msg : string)
  (s : state) :
  msg = "could not write insert statement to output"
  \/ msg = "could not write new line to output" ->
  length (write_failures (logs (log_if_error tbl err msg s)))
  = (match err with Some _ => 1 | None => 0 end
     + length (write_failures (logs s)))%nat.
Proof.
  intros Hmsg. destruct err as [e |]; simpl; [| reflexivity].
  rewrite write_failures_snoc, decide_True by exact Hmsg.
  rewrite length_app. simpl. lia.
Qed.

Lemma write_failures_other (tbl : string) (err : option error) (s : state) :
  write_failures (logs (log_if_error tbl err "error while reading table" s))
  = write_failures (logs s).
Proof.
  destruct err as [e |]; simpl; [| reflexivity].
  rewrite write_failures_snoc, decide_False, app_nil_r; [reflexivity |].
  simpl. intros [H | H]; discriminate.
Qed.

(** One step writes at most one line, which it owed; a line it owed and
    did not write was refused by the sink, and then the refusal is in
    the log. *)
Lemma owed_transition (view : Sink -> list string) (l : label)
  (s s' : state) :
  records view -> ledger s -> transition l s s' ->
  exists more lost,
    view (sink s') = view (sink s) ++ more
    /\ (forall x, (occ x more + occ x (owed s') + occ x lost
                   = occ x (owed s))%nat)
    /\ (accepts_all -> lost = [])
    /\ length (write_failures (logs s'))
       = (length lost + length (write_failures (logs s)))%nat.
Proof.
  intros Hrec L T.
  inversion T; subst.
  - exists [], []. simpl. rewrite app_nil_r.
    split; [reflexivity |]. split; [| split; reflexivity].
    intros x. unfold owed. simpl. rewrite H0. simpl.
    rewrite ?occ_app, ?occ_nil. lia.
  - exists [], []. simpl. rewrite app_nil_r.
    split; [reflexivity |]. split; [| split; reflexivity].
    intros x. unfold owed. simpl. rewrite H0. simpl.
    rewrite all_lines_cons, H1, ?occ_app, ?occ_nil. lia.
  - exists [], []. unfold start_table.
    destruct (ReadTable rdr tbl (opts_for tbl)) as [rows err] eqn:E.
    simpl. rewrite app_nil_r.
    split; [reflexivity |]. split; [| split; reflexivity].
    intros x. unfold owed. simpl. rewrite H0. simpl.
    rewrite all_lines_cons, H1. unfold rows_of. rewrite E. simpl.
    rewrite flat_map_app. simpl. rewrite !occ_app, ?occ_nil. lia.
  - exists [], [].
    rewrite (proj1 (proj2 (proj2 (log_if_error_frame _ _ _ _)))).
    rewrite write_failures_other.
    simpl. rewrite app_nil_r.
    split; [reflexivity |]. split; [| split; reflexivity].
    intros x. unfold owed.
    rewrite (proj1 (log_if_error_frame _ _ _ _)).
    rewrite (proj1 (proj2 (log_if_error_frame _ _ _ _))).
    simpl. rewrite H0. simpl.
    pose proof (owes_insert (workers s) chan w (close_chan w)
                  (worker_owes w) (worker_owes w) x H1 eq_refl eq_refl) as E.
    rewrite !occ_app, ?occ_nil. lia.
  - exists [], []. simpl. rewrite app_nil_r.
    split; [reflexivity |]. split; [| split; reflexivity].
    intros x. unfold owed. simpl. rewrite H0. simpl.
    destruct (led_chan L _ _ _ _ _ H0) as (_ & (w0 & Hw0 & Htbl) & _ & _).
    rewrite H1 in Hw0. inversion Hw0; subst w0.
    assert (Ea : worker_owes w = [])
      by (unfold worker_owes; rewrite H2; reflexivity).
    assert (Eb : worker_owes (set_pc (WRow row) w) = row_lines tbl row)
      by (unfold worker_owes; simpl; rewrite Htbl; reflexivity).
    pose proof (owes_insert (workers s) chan w _ _ _ x H1 Ea Eb) as E.
    rewrite !occ_app, ?occ_nil. rewrite ?occ_nil in E. lia.
  - exists [], []. simpl. rewrite app_nil_r.
    split; [reflexivity |]. split; [| split; reflexivity].
    intros x. unfold owed. simpl.
    assert (Ea : worker_owes w = [])
      by (unfold worker_owes; rewrite H1; reflexivity).
    pose proof (owes_insert (workers s) i w (set_pc WSignal w) _ [] x H0 Ea
                  eq_refl) as E.
    rewrite !occ_app, ?occ_nil. rewrite ?occ_nil in E. lia.
  - exists [], []. simpl. rewrite app_nil_r.
    split; [reflexivity |]. split; [| split; reflexivity].
    intros x. unfold owed. simpl.
    assert (Ea : worker_owes w = [insert_sql (wtable w) columnMap; newline])
      by (unfold worker_owes, row_lines; rewrite H1, H2; reflexivity).
    pose proof (owes_insert (workers s) i w
                  (set_pc (WStmt (insert_sql (wtable w) columnMap)) w)
                  _ [insert_sql (wtable w) columnMap; newline] x H0 Ea
                  eq_refl) as E.
    rewrite !occ_app, ?occ_nil. lia.
  - exists [], []. simpl. rewrite app_nil_r.
    split; [reflexivity |]. split; [| split; [reflexivity |]].
    + intros x. unfold owed. simpl. rewrite ?occ_app, ?occ_nil. lia.
    + rewrite write_failures_snoc, decide_False, app_nil_r; [reflexivity |].
      simpl. intros [E | E]; discriminate.
  - exists [], []. simpl. rewrite app_nil_r.
    split; [reflexivity |]. split; [| split; reflexivity].
    intros x. unfold owed. simpl. rewrite ?occ_app, ?occ_nil. lia.
  - pose proof (Hrec (sink s) stmt) as Hv.
    assert (Ea : worker_owes w = [stmt; newline])
      by (unfold worker_owes; rewrite H1; reflexivity).
    pose proof (fun x => owes_insert (workers s) i w (set_pc WNewline w)
                  _ [newline] x H0 Ea eq_refl) as E.
    rewrite (proj1 (proj2 (proj2 (log_if_error_frame _ _ _ _)))).
    rewrite write_failures_log by (left; reflexivity).
    simpl sink. simpl logs.
    destruct (WriteString (sink s) stmt) as [o [err |]] eqn:Ew;
      simpl in Hv |- *.
    + exists [], [stmt]. rewrite app_nil_r. split; [assumption |].
      split; [| split; [| reflexivity]].
      * intros x. unfold owed. simpl. specialize (E x).
        rewrite !occ_app, ?occ_nil.
        rewrite (occ_cons _ _ [newline]) in E. lia.
      * intros Hacc. specialize (Hacc (sink s) stmt).
        rewrite Ew in Hacc. discriminate.
    + exists [stmt], []. split; [assumption |].
      split; [| split; reflexivity].
      intros x. unfold owed. simpl. specialize (E x).
      rewrite !occ_app, ?occ_nil.
      rewrite (occ_cons _ _ [newline]) in E. lia.
  - pose proof (Hrec (sink s) newline) as Hv.
    assert (Ea : worker_owes w = [newline])
      by (unfold worker_owes; rewrite H1; reflexivity).
    pose proof (fun x => owes_insert (workers s) i w (set_pc WRecv w)
                  _ [] x H0 Ea eq_refl) as E.
    rewrite (proj1 (proj2 (proj2 (log_if_error_frame _ _ _ _)))).
    rewrite write_failures_log by (right; reflexivity).
    simpl sink. simpl logs.
    destruct (WriteString (sink s) newline) as [o [err |]] eqn:Ew;
      simpl in Hv |- *.
    + exists [], [newline]. rewrite app_nil_r. split; [assumption |].
      split; [| split; [| reflexivity]].
      * intros x. unfold owed. simpl. specialize (E x).
        rewrite !occ_app, ?occ_nil. rewrite occ_nil in E. lia.
      * intros Hacc. specialize (Hacc (sink s) newline).
        rewrite Ew in Hacc. discriminate.
    + exists [newline], []. split; [assumption |].
      split; [| split; reflexivity].
      intros x. unfold owed. simpl. specialize (E x).
      rewrite !occ_app, ?occ_nil. rewrite occ_nil in E. lia.
  - exists [], []. simpl. rewrite app_nil_r.
    split; [reflexivity |]. split; [| split; reflexivity].
    intros x. unfold owed. simpl.
    assert (Ea : worker_owes w = [])
      by (unfold worker_owes; rewrite H1; reflexivity).
    pose proof (owes_insert (workers s) i w (set_pc WExit w) _ [] x H0 Ea
                  eq_refl) as E.
    rewrite !occ_app, ?occ_nil. rewrite ?occ_nil in E. lia.
Qed.

(** Along a run the sink only grows, by lines that were owed. *)
Lemma owed_run (view : Sink -> list string) (ls : list label) :
  records view ->
  forall s s', ledger s -> run ls s = Some s' ->
  exists body lost,
    view (sink s') = view (sink s) ++ body
    /\ (forall x, (occ x body + occ x (owed s') + occ x lost
                   = occ x (owed s))%nat)
    /\ (accepts_all -> lost = [])
    /\ length (write_failures (logs s'))
       = (length lost + length (write_failures (logs s)))%nat.
Proof.
  intros Hrec. induction ls as [| l ls IH]; intros s s' L Hrun; simpl in Hrun.
  - inversion Hrun; subst. exists [], []. rewrite app_nil_r.
    split; [reflexivity |]. split; [| split; reflexivity].
    intros x. rewrite !occ_nil. lia.
  - destruct (step l s) as [s1 |] eqn:Hstep; [| discriminate].
    apply step_transition in Hstep.
    destruct (owed_transition view l s s1 Hrec L Hstep)
      as (more & lost1 & Hv1 & Hc1 & Ha1 & Hl1).
    destruct (IH s1 s' (ledger_transition _ _ _ L Hstep) Hrun)
      as (body & lost2 & Hv2 & Hc2 & Ha2 & Hl2).
    exists (more ++ body), (lost1 ++ lost2). split; [| split; [| split]].
    + rewrite Hv2, Hv1, app_assoc. reflexivity.
    + intros x. specialize (Hc1 x). specialize (Hc2 x).
      rewrite !occ_app. lia.
    + intros Hacc. rewrite (Ha1 Hacc), (Ha2 Hacc). reflexivity.
    + rewrite length_app. lia.
Qed.

(** The account of a whole dump: after the contents the sink had and the
    structure, every line of the dump is written, still owed, or was
    refused by the sink; the refusals are as many as the write failures
    in the log. *)
Lemma output_account (view : Sink -> list string) (output : Sink)
  (ls : list label) (s : state) (tables : list string) (structure : string) :
  records view ->
  GetTables rdr = (tables, None) -> GetStructure rdr = (structure, None) ->
  (WriteString output structure).2 = None ->
  run ls (Dump_begin output) = Some s ->
  exists body lost,
    view (sink s) = view output ++ structure :: body
    /\ body ++ owed s ++ lost ≡ₚ all_lines tables
    /\ (accepts_all -> lost = [])
    /\ length (write_failures (logs s)) = length lost.
Proof.
  intros Hrec Ht Hs Hw Hrun.
  pose proof (Hrec output structure) as Hv.
  unfold Dump_begin in Hrun. rewrite Ht, Hs in Hrun.
  destruct (WriteString output structure) as [o [e |]] eqn:Ew;
    simpl in Hw, Hv; [discriminate |].
  destruct (owed_run view ls Hrec _ s (ledger_begin tables o) Hrun)
    as (body & lost & Hview & Hc & Ha & Hl).
  exists body, lost. split; [| split; [| split; [assumption |]]].
  - rewrite Hview. simpl. rewrite Hv, <- app_assoc. reflexivity.
  - apply (Permutation_count_occ String.string_dec). intros x.
    specialize (Hc x). unfold owed in Hc at 2. simpl in Hc.
    rewrite app_nil_r in Hc. fold (occ x (body ++ owed s ++ lost)).
    fold (occ x (all_lines tables)). rewrite !occ_app. lia.
  - rewrite Hl. simpl. lia.
Qed.

(** Where the lines of a dump come from. *)
Lemma all_lines_origin (tables : list string) (line : string) :
  line ∈ all_lines tables ->
  line = newline
  \/ exists tbl row columnMap,
       tbl ∈ tables /\ included tbl = true /\ row ∈ rows_of tbl
       /\ toSQLColumnMap row = Ret (columnMap, None)
       /\ line = insert_sql tbl columnMap.
Proof.
  unfold all_lines. rewrite list_elem_of_In, in_flat_map.
  intros (tbl & Htbl & Hin).
  apply in_flat_map in Hin as (row & Hrow & Hin).
  rewrite <- list_elem_of_In in Htbl. rewrite <- list_elem_of_In in Hrow.
  apply list_elem_of_filter in Htbl as [Hinc Htbl].
  unfold row_lines in Hin.
  destruct (toSQLColumnMap row) as [[columnMap [e |]] | msg] eqn:E;
    simpl in Hin; try contradiction.
  destruct Hin as [<- | [<- | []]]; [right | left; reflexivity].
  exists tbl, row, columnMap. repeat split; assumption.
Qed.

(** X10: what a dump writes.  On a sink that can be read back, once the
    preamble has succeeded, the sink holds at every moment what it held
    before, then the structure, then lines of which each is the line
    feed or the insert statement of a row that the reader pushed for a
    table that is not skipped and that converted without error; no such
    line is written more often than the rows of the dump provide it. *)
Theorem X10_written_lines_belong_to_the_dump (view : Sink -> list string)
  (output : Sink) (ls : list label) (s : state) (tables : list string)
  (structure : string) :
  records view ->
  GetTables rdr = (tables, None) -> GetStructure rdr = (structure, None) ->
  (WriteString output structure).2 = None ->
  run ls (Dump_begin output) = Some s ->
  exists body,
    view (sink s) = view output ++ structure :: body
    /\ body ⊆+ all_lines tables
    /\ forall line, line ∈ body ->
         line = newline
         \/ exists tbl row columnMap,
              tbl ∈ tables /\ included tbl = true /\ row ∈ rows_of tbl
              /\ toSQLColumnMap row = Ret (columnMap, None)
              /\ line = insert_sql tbl columnMap.
Proof.
  intros Hrec Ht Hs Hw Hrun.
  destruct (output_account view output ls s tables structure Hrec Ht Hs Hw
              Hrun) as (body & lost & Hview & Hperm & _).
  assert (Hsub : body ⊆+ all_lines tables).
  { rewrite <- Hperm. apply submseteq_inserts_r. reflexivity. }
  exists body. split; [assumption |]. split; [assumption |].
  intros line Hin. apply all_lines_origin.
  eapply elem_of_submseteq; eassumption.
Qed.

(** X11: a dump that ran to its end is whole, up to the writes the
    sink refused.  On a sink that can be read back, when no step is left
    and the process has not ended early, the sink holds what it held
    before, the structure, and then the lines written; these together
    with the lines refused are exactly the statement and the line feed
    of every converted row of every table that is not skipped, each as
    often as the reader pushed the row, in some order.  Every refusal
    has left one write failure in the log, so a log without write
    failures means that no line is missing; a sink that refuses nothing
    loses nothing. *)
Theorem X11_finished_dump_is_whole (view : Sink -> list string)
  (output : Sink) (ls : list label) (s : state) (tables : list string)
  (structure : string) :
  records view ->
  GetTables rdr = (tables, None) -> GetStructure rdr = (structure, None) ->
  (WriteString output structure).2 = None ->
  run ls (Dump_begin output) = Some s ->
  complete s -> halted s = None ->
  exists body lost,
    view (sink s) = view output ++ structure :: body
    /\ body ++ lost ≡ₚ all_lines tables
    /\ length lost = length (write_failures (logs s))
    /\ (write_failures (logs s) = [] -> body ≡ₚ all_lines tables)
    /\ (accepts_all -> body ≡ₚ all_lines tables).
Proof.
  intros Hrec Ht Hs Hw Hrun Hc Hh.
  destruct (output_account view output ls s tables structure Hrec Ht Hs
              Hw Hrun)
    as (body & lost & Hview & Hperm & Hlost & Hlogs).
  assert (Hnone : forall ws : list worker,
            (forall i w, ws !! i = Some w -> wpc w = WExit) ->
            flat_map worker_owes ws = []).
  { induction ws as [| w ws IH]; intros Hall; [reflexivity |].
    simpl. unfold worker_owes at 1. rewrite (Hall 0%nat w eq_refl).
    simpl. apply IH. intros i w' Hw'. exact (Hall (S i) w' Hw'). }
  assert (Howed : owed s = []).
  { destruct (Dump_run_cases _ _ _ Hrun) as [(o & _ & I) | (o & e & ->)];
      [| reflexivity].
    destruct (complete_all_returned _ _ I Hh Hc) as [[r Hr] Hexit].
    unfold owed. rewrite Hr, (Hnone _ Hexit). reflexivity. }
  rewrite Howed in Hperm. simpl in Hperm.
  exists body, lost. split; [assumption |]. split; [assumption |].
  split; [symmetry; assumption |]. split.
  - intros Hnil. rewrite Hnil in Hlogs. simpl in Hlogs.
    destruct lost; [| discriminate]. rewrite app_nil_r in Hperm. assumption.
  - intros Hacc. rewrite (Hlost Hacc), app_nil_r in Hperm. assumption.
Qed.

(** ** The reads that failed *)

Lemma omap_cons_eq {A B : Type} (f : A -> option B) (x : A) (l : list A) :
  omap f (x :: l)
  = match f x with Some y => y :: omap f l | None => omap f l end.
Proof. reflexivity. Qed.

Lemma omap_insert_same {A B : Type} (f : A -> option B) (ws : list A)
  (i : nat) (w w' : A) :
  ws !! i = Some w -> f w' = f w -> omap f (<[i := w']> ws) = omap f ws.
Proof.
  intros Hw Hf. revert i Hw.
  induction ws as [| w0 ws IH]; intros i Hw; [reflexivity |].
  destruct i as [| i]; simpl in Hw.
  - inversion Hw; subst.
    change (<[0%nat := w']> (w :: ws)) with (w' :: ws).
    rewrite !omap_cons_eq, Hf. reflexivity.
  - change (<[S i := w']> (w0 :: ws)) with (w0 :: <[i := w']> ws).
    rewrite !omap_cons_eq, (IH i Hw). reflexivity.
Qed.

Lemma omap_insert_last {A B : Type} (f : A -> option B) (ws : list A)
  (i : nat) (w w' : A) :
  length ws = S i -> ws !! i = Some w -> f w = None ->
  omap f (<[i := w']> ws)
  = omap f ws ++ match f w' with Some e => [e] | None => [] end.
Proof.
  intros Hlen Hw Hf. revert i Hlen Hw.
  induction ws as [| w0 ws IH]; intros i Hlen Hw; [discriminate |].
  destruct i as [| i]; simpl in Hw, Hlen.
  - inversion Hw; subst. destruct ws; [| discriminate].
    change (<[0%nat := w']> [w]) with [w'].
    rewrite !omap_cons_eq, Hf. destruct (f w'); reflexivity.
  - injection Hlen as Hlen.
    change (<[S i := w']> (w0 :: ws)) with (w0 :: <[i := w']> ws).
    rewrite !omap_cons_eq, (IH i Hlen Hw).
    destruct (f w0); reflexivity.
Qed.

Lemma read_failures_other (tbl : string) (err : option error) (msg : string)
  (s : state) :
  msg <> "error while reading table" ->
  read_failures (logs (log_if_error tbl err msg s)) = read_failures (logs s).
Proof.
  intros Hmsg. destruct err as [e |]; simpl; [| reflexivity].
  rewrite read_failures_snoc, decide_False, app_nil_r by exact Hmsg.
  reflexivity.
Qed.

(** The read failures in the log are those of the reads that have
    returned. *)
Lemma failures_transition (tables : list string) (l : label)
  (s s' : state) :
  inv tables s -> ledger s -> transition l s s' ->
  read_failures (logs s) = omap failure_of (workers s) ->
  read_failures (logs s') = omap failure_of (workers s').
Proof.
  intros I L T RF.
  inversion T; subst.
  - exact RF.
  - exact RF.
  - unfold start_table.
    destruct (ReadTable rdr tbl (opts_for tbl)) as [rows err]. simpl.
    rewrite omap_app. simpl. rewrite app_nil_r. exact RF.
  - rewrite (proj1 (proj2 (log_if_error_frame _ _ _ _))). simpl workers.
    destruct (led_chan L _ _ _ _ _ H0) as (Hlen & (w0 & Hw0 & Htbl) & _ & ->).
    rewrite H1 in Hw0. inversion Hw0; subst w0.
    destruct (inv_reading I chan) as (w1 & Hw1 & Hopen);
      [rewrite H0; reflexivity |].
    rewrite H1 in Hw1. inversion Hw1; subst w1.
    rewrite (omap_insert_last failure_of _ chan w (close_chan w) Hlen H1)
      by (unfold failure_of; rewrite Hopen; reflexivity).
    unfold failure_of at 2. simpl. rewrite Htbl.
    destruct (read_error tbl) as [e |]; simpl.
    + rewrite read_failures_snoc, decide_True by reflexivity.
      rewrite RF. reflexivity.
    + rewrite app_nil_r. exact RF.
  - unfold set_main, set_worker. cbn [workers logs].
    rewrite (omap_insert_same failure_of _ chan w (set_pc (WRow row) w) H1
               eq_refl).
    exact RF.
  - unfold set_worker. cbn [workers logs].
    rewrite (omap_insert_same failure_of _ i w (set_pc WSignal w) H0
               eq_refl).
    exact RF.
  - unfold set_worker. cbn [workers logs].
    rewrite (omap_insert_same failure_of _ i w
               (set_pc (WStmt (insert_sql (wtable w) columnMap)) w) H0
               eq_refl).
    exact RF.
  - unfold set_halted, add_log. cbn [workers logs].
    rewrite read_failures_snoc, decide_False, app_nil_r
      by (simpl; discriminate).
    exact RF.
  - exact RF.
  - rewrite read_failures_other by discriminate.
    rewrite (proj1 (proj2 (log_if_error_frame _ _ _ _))).
    unfold set_worker, set_sink. cbn [workers logs].
    rewrite (omap_insert_same failure_of _ i w (set_pc WNewline w) H0
               eq_refl).
    exact RF.
  - rewrite read_failures_other by discriminate.
    rewrite (proj1 (proj2 (log_if_error_frame _ _ _ _))).
    unfold set_worker, set_sink. cbn [workers logs].
    rewrite (omap_insert_same failure_of _ i w (set_pc WRecv w) H0
               eq_refl).
    exact RF.
  - unfold add_signal, set_worker. cbn [workers logs].
    rewrite (omap_insert_same failure_of _ i w (set_pc WExit w) H0
               eq_refl).
    exact RF.
Qed.

(** X12: a read that fails is logged and nothing else happens to it.  At
    every moment the entries of failed reads in the log are those of the
    tables whose read has returned with an error, one entry each, in the
    order of the reads, each carrying its table and the reader's error.
    When [Dump] has returned nil they are the failed reads among the
    reader's tables that are not skipped. *)
Theorem X12_failed_reads_logged (output : Sink) (ls : list label)
  (s : state) :
  run ls (Dump_begin output) = Some s ->
  read_failures (logs s) = omap failure_of (workers s)
  /\ (main s = MReturned None ->
      read_failures (logs s)
      = omap failure_entry
          (filter (fun t => included t = true) (GetTables rdr).1)).
Proof.
  intros Hrun.
  destruct (Dump_begin_cases output) as [(o & _ & Hb) | (o & e & Hb)].
  - rewrite Hb in Hrun.
    assert (P : inv (GetTables rdr).1 s /\ ledger s
                /\ read_failures (logs s) = omap failure_of (workers s)).
    { refine (run_invariant
                (fun s => inv (GetTables rdr).1 s /\ ledger s
                          /\ read_failures (logs s)
                             = omap failure_of (workers s))
                _ ls _ s _ Hrun).
      - intros l s1 s2 (I & L & RF) T. split; [| split].
        + eapply inv_transition; eassumption.
        + eapply ledger_transition; eassumption.
        + eapply failures_transition; eassumption.
      - split; [apply inv_begin |]. split; [apply ledger_begin |].
        reflexivity. }
    destruct P as (I & L & RF). split; [exact RF |].
    intros Hm. rewrite RF.
    pose proof (inv_visited I) as V. rewrite Hm in V. simpl in V.
    rewrite app_nil_r in V. rewrite <- V.
    assert (Hclosed : forall i w, workers s !! i = Some w ->
                                  wclosed w = true).
    { intros i w Hw. destruct (wclosed w) eqn:Hc; [reflexivity |].
      pose proof (inv_open I _ _ Hw Hc) as Hread.
      rewrite Hm in Hread. discriminate. }
    clear - Hclosed. induction (workers s) as [| w ws IH]; [reflexivity |].
    rewrite fmap_cons, !omap_cons_eq.
    rewrite IH by (intros i w' Hw'; exact (Hclosed (S i) w' Hw')).
    unfold failure_of, failure_entry.
    rewrite (Hclosed 0%nat w eq_refl). reflexivity.
  - rewrite Hb in Hrun. apply run_after_error in Hrun. subst s. simpl.
    split; [reflexivity | discriminate].
Qed.

(** ** Closing the output *)

(** X13: [Close] returns nil exactly when the output is a closer and its
    own close succeeds.  An output that is no closer is left as it is
    and reported with the error of the wrong closer type; the failure of
    a closer is returned wrapped, never as it is, and the output is then
    in the state its close has left it in. *)
Theorem X13_Close_outcomes (closer : option (Sink -> Sink * option error))
  (output : Sink) :
  ((Close closer output).2 = None
   <-> exists close, closer = Some close /\ (close output).2 = None)
  /\ (closer = None ->
      Close closer output
      = (output, Some (ErrNew "unable to close output: wrong closer type")))
  /\ (forall close, closer = Some close ->
        (Close closer output).1 = (close output).1
        /\ (Close closer output).2
           = (fun err => ErrWrap err "failed to close output stream")
               <$> (close output).2).
Proof.
  unfold Close. split; [| split].
  - destruct closer as [close |]; simpl.
    + destruct (close output) as [o [err |]] eqn:E; simpl; split.
      * discriminate.
      * intros (close' & Hc & Hn). inversion Hc; subst.
        rewrite E in Hn. discriminate.
      * intros _. exists close. rewrite E. split; reflexivity.
      * reflexivity.
    + split; [discriminate | intros (close & Hc & _); discriminate].
  - intros ->. reflexivity.
  - intros close ->. destruct (close output) as [o [err |]]; split; reflexivity.
Qed.

(** ** Rows that do not convert *)

Lemma progress_begin (tables : list string) (output : Sink) :
  progress (mkState (MLoop tables) [] output [] [] [] None).
Proof.
  constructor; simpl.
  - intros; discriminate.
  - intros i w Hw. rewrite lookup_nil in Hw. discriminate.
Qed.

(** A step of a worker that does not take a new row keeps the progress
    made, provided the rows it has received stay accounted for. *)
Lemma progress_move (s s' : state) (i : nat) (w : worker) (pc : wstate) :
  progress s -> workers s !! i = Some w ->
  workers s' = <[i := set_pc pc w]> (workers s) ->
  main s' = main s ->
  (forall rows, handled w rows -> handled (set_pc pc w) rows) ->
  progress s'.
Proof.
  intros [Popen Pclosed] Hw Ews Em Hmove.
  constructor; rewrite Ews, ?Em.
  - intros chan tbl pending err todo w' Hm Hw'.
    apply list_lookup_insert_Some in Hw' as [(-> & <- & _) | [Hne Hw']].
    + destruct (Popen _ _ _ _ _ w Hm Hw) as (pre & Hrows & Hh).
      exists pre. split; [assumption | apply Hmove; assumption].
    + eapply Popen; eassumption.
  - intros j w' Hw' Hc.
    apply list_lookup_insert_Some in Hw' as [(-> & <- & _) | [Hne Hw']].
    + simpl in Hc. apply (Hmove (rows_of (wtable w))).
      eapply Pclosed; eassumption.
    + eapply Pclosed; eassumption.
Qed.

(** Every transition keeps the progress made. *)
Lemma progress_transition (tables : list string) (l : label)
  (s s' : state) :
  inv tables s -> ledger s -> progress s -> transition l s s' ->
  progress s'.
Proof.
  intros I L P T. pose proof P as [Popen Pclosed].
  destruct T as
    [s Hh Hm|s tbl todo Hh Hm Hi|s tbl todo Hh Hm Hi
    |s chan tbl err todo w Hh Hm Hw|s chan tbl row pending err todo w Hh Hm Hw Hpc
    |s i w Hh Hw Hpc Hcl|s i w row m Hh Hw Hpc Hrow
    |s i w row m err Hh Hw Hpc Hrow|s i w row msg Hh Hw Hpc Hrow
    |s i w stmt Hh Hw Hpc|s i w Hh Hw Hpc|s i w Hh Hw Hpc].
  - constructor; simpl; [intros; discriminate | assumption].
  - constructor; simpl; [intros; discriminate | assumption].
  - destruct (start_table_frame tbl (opts_for tbl) todo s)
      as (Em & Ew & _ & _ & _ & _ & Eh).
    constructor; rewrite ?Em, ?Ew.
    + intros chan tbl' pending err todo' w [= <- <- <- <- <-] Hw.
      apply lookup_snoc_Some in Hw as [[Hlt _] | [_ <-]]; [lia |].
      exists []. split; [reflexivity |]. constructor.
    + intros i w Hw Hc.
      apply lookup_snoc_Some in Hw as [[_ Hw] | [_ <-]]; [| discriminate].
      eapply Pclosed; eassumption.
  - match goal with |- context [log_if_error ?t ?e ?m ?x] =>
      destruct (log_if_error_frame t e m x) as (Em & Ew & _ & _ & _ & Eh)
    end.
    destruct (led_chan L _ _ _ _ _ Hm) as (_ & (w0 & Hw0 & Ht) & _ & _).
    assert (w0 = w) by congruence. subst w0.
    constructor; rewrite ?Em, ?Ew; simpl.
    + intros; discriminate.
    + intros j w' Hw' Hc.
      apply list_lookup_insert_Some in Hw' as [(-> & <- & _) | [Hne Hw']].
      * destruct (Popen _ _ _ _ _ w Hm Hw) as (pre & Hrows & Hhandled).
        rewrite app_nil_r in Hrows. simpl. rewrite Ht, Hrows. exact Hhandled.
      * eapply Pclosed; eassumption.
  - destruct (Popen _ _ _ _ _ w Hm Hw) as (pre & Hrows & Hhandled).
    unfold handled in Hhandled. rewrite Hpc in Hhandled.
    destruct (inv_reading I chan) as (w1 & Hw1 & Hopen);
      [rewrite Hm; reflexivity |].
    assert (w1 = w) by congruence. subst w1.
    constructor; simpl.
    + intros chan' tbl' pending' err' todo' w' [= <- <- <- <- <-] Hw'.
      apply list_lookup_insert_Some in Hw' as [(_ & <- & _) | [Hne _]];
        [| congruence].
      exists (pre ++ [row]). split.
      * rewrite Hrows, <- app_assoc. reflexivity.
      * exists pre. split; [reflexivity | assumption].
    + intros j w' Hw' Hc.
      apply list_lookup_insert_Some in Hw' as [(-> & <- & _) | [Hne Hw']].
      * simpl in Hc. congruence.
      * eapply Pclosed; eassumption.
  - apply (progress_move s _ i w WSignal); auto.
    intros rows. unfold handled. rewrite Hpc. simpl. auto.
  - apply (progress_move s _ i w (WStmt (insert_sql (wtable w) m))); auto.
    intros rows. unfold handled. rewrite Hpc. simpl.
    intros (pre & -> & Hpre). apply Forall_app. split; [assumption |].
    constructor; [| constructor]. exists m. assumption.
  - constructor; simpl; assumption.
  - constructor; simpl; assumption.
  - match goal with |- context [log_if_error ?t ?e ?m ?x] =>
      destruct (log_if_error_frame t e m x) as (Em & Ew & _ & _ & _ & Eh)
    end.
    apply (progress_move s _ i w WNewline); auto;
      try (rewrite Ew; reflexivity); try (rewrite Em; reflexivity).
    intros rows. unfold handled. rewrite Hpc. simpl. auto.
  - match goal with |- context [log_if_error ?t ?e ?m ?x] =>
      destruct (log_if_error_frame t e m x) as (Em & Ew & _ & _ & _ & Eh)
    end.
    apply (progress_move s _ i w WRecv); auto;
      try (rewrite Ew; reflexivity); try (rewrite Em; reflexivity).
    intros rows. unfold handled. rewrite Hpc. simpl. auto.
  - apply (progress_move s _ i w WExit); auto.
    intros rows. unfold handled. rewrite Hpc. simpl. auto.
Qed.

(** X14: a row that does not convert keeps the dump from finishing.  When
    the preamble has succeeded and a run has gone to its end without
    the process ending early, every row the reader pushes for a table
    that is not skipped has been converted without error.  So with a
    cell of an unsupported kind, or a nil pointer, in any such row, every
    run that goes to its end has ended early. *)
Theorem X14_bad_row_never_finishes (output : Sink) (ls : list label)
  (s : state) (tbl : string) (row : Row) :
  (GetTables rdr).2 = None -> (GetStructure rdr).2 = None ->
  (WriteString output (GetStructure rdr).1).2 = None ->
  run ls (Dump_begin output) = Some s -> complete s ->
  tbl ∈ (GetTables rdr).1 -> included tbl = true -> row ∈ rows_of tbl ->
  (halted s = None -> converted row)
  /\ (forall k v, (k, v) ∈ row ->
        supported v = false \/ strip v = VNilBox ->
        is_Some (halted s)).
Proof.
  intros Ht Hs Hwr Hrun Hc Htbl Hinc Hrow.
  assert (Hb : Dump_begin output
               = mkState (MLoop (GetTables rdr).1) []
                   (WriteString output (GetStructure rdr).1).1 [] [] [] None).
  { unfold Dump_begin.
    destruct (GetTables rdr) as [tables [e |]]; [discriminate |].
    destruct (GetStructure rdr) as [structure [e |]]; [discriminate |].
    simpl in *.
    destruct (WriteString output structure) as [o [e |]]; [discriminate |].
    reflexivity. }
  rewrite Hb in Hrun.
  assert (P : inv (GetTables rdr).1 s /\ ledger s /\ progress s).
  { refine (run_invariant
              (fun s => inv (GetTables rdr).1 s /\ ledger s /\ progress s)
              _ ls _ s _ Hrun).
    - intros l s1 s2 (I & L & P) T. split; [| split].
      + eapply inv_transition; eassumption.
      + eapply ledger_transition; eassumption.
      + eapply progress_transition; eassumption.
    - split; [apply inv_begin |]. split; [apply ledger_begin |].
      apply progress_begin. }
  destruct P as (I & L & P).
  assert (Hgood : halted s = None -> converted row).
  { intros Hh.
    destruct (complete_all_returned _ _ I Hh Hc) as [[r Hr] Hexit].
    pose proof (inv_visited I) as V. rewrite Hr in V. simpl in V.
    rewrite app_nil_r in V.
    assert (Hin : tbl ∈ wtable <$> workers s).
    { rewrite V. apply list_elem_of_filter. split; assumption. }
    apply list_elem_of_fmap in Hin as (w & -> & Hw).
    apply list_elem_of_lookup in Hw as (i & Hw).
    assert (Hclosed : wclosed w = true).
    { destruct (wclosed w) eqn:E; [reflexivity |].
      pose proof (inv_open I _ _ Hw E) as Hread. rewrite Hr in Hread.
      discriminate. }
    pose proof (pr_closed P _ _ Hw Hclosed) as Hall.
    unfold handled in Hall. rewrite (Hexit _ _ Hw) in Hall.
    exact (proj1 (Forall_forall _ _) Hall row Hrow). }
  split; [assumption |].
  intros k v Hin Hbad.
  destruct (halted s) as [h |] eqn:Hh; [eexists; reflexivity | exfalso].
  destruct (Hgood eq_refl) as [m Hm].
  apply (range_row_bad_cell row ∅ k v Hin) with (m := m); [| exact Hm].
  intros [lit Hlit]. destruct Hbad as [Hu | Hn].
  - rewrite (unsupported_fails v Hu) in Hlit. discriminate.
  - rewrite toSQLStringValue_strip, Hn in Hlit. discriminate.
Qed.

(** ** Workers of different tables write at the same time *)

Lemma run_step_transition (l : label) (ls : list label) (s s1 s2 : state) :
  transition l s s1 -> run ls s1 = Some s2 -> run (l :: ls) s = Some s2.
Proof.
  intros T Hrun. simpl. rewrite (transition_step _ _ _ T). exact Hrun.
Qed.

Lemma insert_snoc {A : Type} (l : list A) (x y z : A) (i : nat) :
  <[length l := y]> (<[i := z]> l ++ [x]) = <[i := z]> l ++ [y].
Proof.
  rewrite insert_app_r_alt by (rewrite length_insert; lia).
  rewrite length_insert, Nat.sub_diag. reflexivity.
Qed.

Lemma lookup_snoc_last {A : Type} (l : list A) (x z : A) (i : nat) :
  (<[i := z]> l ++ [x]) !! length l = Some x.
Proof. apply list_lookup_middle. rewrite length_insert. reflexivity. Qed.

Lemma lookup_insert_snoc {A : Type} (l : list A) (x y : A) (i : nat) :
  (i < length l)%nat -> (<[i := y]> l ++ [x]) !! i = Some y.
Proof.
  intros Hlt. rewrite lookup_app_l by (rewrite length_insert; exact Hlt).
  apply list_lookup_insert_eq. exact Hlt.
Qed.

Lemma insert_insert_snoc {A : Type} (l : list A) (x y z : A) (i : nat) :
  (i < length l)%nat ->
  <[i := z]> (<[i := y]> l ++ [x]) = <[i := z]> l ++ [x].
Proof.
  intros Hlt. rewrite insert_app_l by (rewrite length_insert; exact Hlt).
  rewrite list_insert_insert_eq. reflexivity.
Qed.

Lemma log_if_error_eta (tbl : string) (err : option error) (msg : string)
  (s : state) :
  log_if_error tbl err msg s
  = mkState (main s) (workers s) (sink s)
            (logs (log_if_error tbl err msg s)) (reads s) (signals s)
            (halted s).
Proof. destruct err, s; reflexivity. Qed.

Lemma accepted_write (view : Sink -> list string) (o : Sink)
  (line : string) :
  records view -> accepts_all ->
  WriteString o line = ((WriteString o line).1, None)
  /\ view (WriteString o line).1 = view o ++ [line].
Proof.
  intros Hrec Hacc. pose proof (Hrec o line) as Hv.
  pose proof (Hacc o line) as Ha.
  destruct (WriteString o line) as [o' e]. simpl in *. subst e.
  split; [reflexivity | assumption].
Qed.

(** X15: the workers of two tables write at the same time.  Whenever the
    reader has pushed the last row of a table whose worker has yet to
    write the statement of that row, and the next table is not skipped
    and has a first row that converts, a sink that accepts every write
    can receive the statement of the first table, then the statement of
    the next table, and only then the two line feeds: nothing keeps the
    statement and the line feed of a row together. *)
Theorem X15_statements_can_interleave (view : Sink -> list string)
  (output : Sink) (ls0 : list label) (s : state) (chan : nat)
  (t1 t2 : string) (err : option error) (todo : list string) (w : worker)
  (stmt1 : string) (r2 : Row) (rest2 : list Row)
  (m2 : gmap string string) :
  records view -> accepts_all ->
  run ls0 (Dump_begin output) = Some s ->
  halted s = None ->
  main s = MRead chan t1 [] err (t2 :: todo) ->
  workers s !! chan = Some w -> wpc w = WStmt stmt1 ->
  included t2 = true -> rows_of t2 = r2 :: rest2 ->
  toSQLColumnMap r2 = Ret (m2, None) ->
  exists ls s',
    run (ls0 ++ ls) (Dump_begin output) = Some s'
    /\ view (sink s')
       = view (sink s) ++ [stmt1; insert_sql t2 m2; newline; newline].
Proof.
  intros Hrec Hacc Hrun0 Hh Hm Hw Hpc Hinc Hrows Hconv.
  pose proof (lookup_lt_Some _ _ _ Hw) as Hlt.
  exists [LMain; LMain; LSend; LWorker (length (workers s)); LWorker chan;
          LWorker (length (workers s)); LWorker chan;
          LWorker (length (workers s))].
  rewrite run_app, Hrun0. clear Hrun0.
  destruct s as [m ws o lg rd sg h].
  simpl in Hh, Hm, Hw, Hlt. subst m h.
  unfold rows_of in Hrows.
  destruct (ReadTable rdr t2 (opts_for t2)) as [rows2 err2] eqn:Eread.
  simpl in Hrows. subst rows2.
  cbn [workers sink].
  eexists. split.
  - eapply run_step_transition.
    { eapply T_close; [reflexivity | reflexivity | exact Hw]. }
    eapply run_step_transition.
    { eapply T_start; [| | exact Hinc].
      - rewrite (proj2 (proj2 (proj2 (proj2 (proj2
                  (log_if_error_frame _ _ _ _)))))). reflexivity.
      - rewrite (proj1 (log_if_error_frame _ _ _ _)). reflexivity. }
    rewrite (log_if_error_eta t1 err).
    set (lg1 := logs (log_if_error t1 err _ _)).
    unfold start_table. rewrite Eread.
    unfold set_main, set_worker. cbn [main workers sink logs reads signals halted].
    rewrite length_insert.
    eapply run_step_transition.
    { eapply T_send with (w := mkWorker t2 false WRecv);
        [reflexivity | reflexivity | apply lookup_snoc_last | reflexivity]. }
    unfold set_main, set_worker, set_pc.
    cbn [main workers sink logs reads signals halted wtable wclosed wpc].
    rewrite insert_snoc.
    eapply run_step_transition.
    { eapply T_convert with (w := mkWorker t2 false (WRow r2)) (row := r2);
        [reflexivity | apply lookup_snoc_last | reflexivity | exact Hconv]. }
    unfold set_worker, set_pc.
    cbn [main workers sink logs reads signals halted wtable wclosed wpc].
    rewrite insert_snoc.
    eapply run_step_transition.
    { eapply T_write with (w := close_chan w) (stmt := stmt1);
        [reflexivity | apply lookup_insert_snoc; exact Hlt | exact Hpc]. }
    cbn [sink]. rewrite (Hacc o stmt1). cbn [log_if_error].
    unfold set_worker, set_sink, set_pc, close_chan.
    cbn [main workers sink logs reads signals halted wtable wclosed wpc].
    rewrite insert_insert_snoc by exact Hlt.
    eapply run_step_transition.
    { eapply T_write with (w := mkWorker t2 false (WStmt (insert_sql t2 m2)));
        [reflexivity | apply lookup_snoc_last | reflexivity]. }
    cbn [sink wtable]. rewrite (Hacc _ (insert_sql t2 m2)). cbn [log_if_error].
    unfold set_worker, set_sink, set_pc.
    cbn [main workers sink logs reads signals halted wtable wclosed wpc].
    rewrite insert_snoc.
    eapply run_step_transition.
    { eapply T_newline with (w := mkWorker (wtable w) true WNewline);
        [reflexivity | apply lookup_insert_snoc; exact Hlt | reflexivity]. }
    cbn [sink wtable]. rewrite (Hacc _ newline). cbn [log_if_error].
    unfold set_worker, set_sink, set_pc.
    cbn [main workers sink logs reads signals halted wtable wclosed wpc].
    rewrite insert_insert_snoc by exact Hlt.
    eapply run_step_transition.
    { eapply T_newline with (w := mkWorker t2 false WNewline);
        [reflexivity | apply lookup_snoc_last | reflexivity]. }
    cbn [sink wtable]. rewrite (Hacc _ newline). cbn [log_if_error].
    reflexivity.
  - unfold set_worker, set_sink, set_pc.
    cbn [main workers sink logs reads signals halted wtable wclosed wpc].
    rewrite !Hrec, !Hacc, <- !app_assoc. reflexivity.
Qed.

(** ** The rows of a table are written in order *)

Lemma ordered_begin (view : Sink -> list string) (tables : list string)
  (o : Sink) :
  ordered view (view o) (mkState (MLoop tables) [] o [] [] [] None).
Proof.
  exists []. simpl. rewrite app_nil_r. split; [reflexivity |]. split.
  - intros; discriminate.
  - intros i w Hw. rewrite lookup_nil in Hw. discriminate.
Qed.

(** A step that changes neither the workers' debts nor the sink. *)
Lemma ordered_quiet (view : Sink -> list string) (base : list string)
  (s s' : state) :
  ordered view base s ->
  workers s' = workers s -> sink s' = sink s ->
  (main s' = main s \/ reading (main s') = None) ->
  ordered view base s'.
Proof.
  intros (body & Hv & Oopen & Oclosed) Ew Es Em.
  exists body. rewrite Es, Ew. split; [assumption |]. split; [| assumption].
  intros chan tbl pending err todo w Hm Hw.
  destruct Em as [Em | Em].
  - rewrite Em in Hm. eapply Oopen; eassumption.
  - rewrite Hm in Em. discriminate.
Qed.

(** A step of a worker on its own: it writes [more], which it owed. *)
Lemma ordered_move (view : Sink -> list string) (base : list string)
  (s s' : state) (i : nat) (w : worker) (pc : wstate)
  (more : list string) :
  ordered view base s -> workers s !! i = Some w ->
  workers s' = <[i := set_pc pc w]> (workers s) ->
  main s' = main s ->
  view (sink s') = view (sink s) ++ more ->
  worker_owes w = more ++ worker_owes (set_pc pc w) ->
  ordered view base s'.
Proof.
  intros (body & Hv & Oopen & Oclosed) Hw Ews Em Hview Howes.
  exists (body ++ more). rewrite Ews, Em.
  split; [rewrite Hview, Hv, app_assoc; reflexivity |]. split.
  - intros chan tbl pending err todo w' Hm Hw'.
    apply list_lookup_insert_Some in Hw' as [(-> & <- & _) | [Hne Hw']].
    + destruct (Oopen _ _ _ _ _ w Hm Hw) as (pre & L & Hrows & HL & Hsub).
      exists pre, (L ++ more). split; [assumption |]. split.
      * rewrite <- app_assoc, <- Howes. exact HL.
      * apply sublist_app; [assumption | reflexivity].
    + destruct (Oopen _ _ _ _ _ w' Hm Hw') as (pre & L & Hrows & HL & Hsub).
      exists pre, L. split; [assumption |]. split; [assumption |].
      apply sublist_inserts_r. assumption.
  - intros j w' Hw' Hc.
    apply list_lookup_insert_Some in Hw' as [(-> & <- & _) | [Hne Hw']].
    + simpl in Hc. destruct (Oclosed _ w Hw Hc) as (L & HL & Hsub).
      exists (L ++ more). split.
      * rewrite <- app_assoc, <- Howes. exact HL.
      * apply sublist_app; [assumption | reflexivity].
    + destruct (Oclosed _ w' Hw' Hc) as (L & HL & Hsub).
      exists L. split; [assumption |].
      apply sublist_inserts_r. assumption.
Qed.

(** Every transition keeps the order, on a sink that refuses nothing. *)
Lemma ordered_transition (view : Sink -> list string) (base : list string)
  (tables : list string) (l : label) (s s' : state) :
  records view -> accepts_all ->
  inv tables s -> ledger s -> ordered view base s -> transition l s s' ->
  ordered view base s'.
Proof.
  intros Hrec Hacc I L O T.
  destruct T as
    [s Hh Hm|s tbl todo Hh Hm Hi|s tbl todo Hh Hm Hi
    |s chan tbl err todo w Hh Hm Hw|s chan tbl row pending err todo w Hh Hm Hw Hpc
    |s i w Hh Hw Hpc Hcl|s i w row m Hh Hw Hpc Hrow
    |s i w row m err Hh Hw Hpc Hrow|s i w row msg Hh Hw Hpc Hrow
    |s i w stmt Hh Hw Hpc|s i w Hh Hw Hpc|s i w Hh Hw Hpc].
  - apply (ordered_quiet view base s); auto.
  - apply (ordered_quiet view base s); auto.
  - destruct (start_table_frame tbl (opts_for tbl) todo s)
      as (Em & Ew & Es & _ & _ & _ & _).
    destruct O as (body & Hv & Oopen & Oclosed).
    exists body. rewrite Es, Em, Ew. split; [assumption |]. split.
    + intros chan tbl' pending err todo' w [= <- <- <- <- <-] Hw.
      apply lookup_snoc_Some in Hw as [[Hlt _] | [_ <-]]; [lia |].
      exists [], []. split; [reflexivity |].
      split; [reflexivity | apply sublist_nil_l].
    + intros i w Hw Hc.
      apply lookup_snoc_Some in Hw as [[_ Hw] | [_ <-]]; [| discriminate].
      eapply Oclosed; eassumption.
  - match goal with |- context [log_if_error ?t ?e ?m ?x] =>
      destruct (log_if_error_frame t e m x) as (Em & Ew & Es & _ & _ & _)
    end.
    destruct (led_chan L _ _ _ _ _ Hm) as (_ & (w0 & Hw0 & Ht) & _ & _).
    assert (w0 = w) by congruence. subst w0.
    destruct O as (body & Hv & Oopen & Oclosed).
    exists body. rewrite Es, Em, Ew. simpl.
    split; [assumption |]. split; [intros; discriminate |].
    intros j w' Hw' Hc.
    apply list_lookup_insert_Some in Hw' as [(-> & <- & _) | [Hne Hw']].
    + destruct (Oopen _ _ _ _ _ w Hm Hw) as (pre & L0 & Hrows & HL & Hsub).
      rewrite app_nil_r in Hrows. exists L0. simpl. rewrite Ht, Hrows.
      split; assumption.
    + eapply Oclosed; eassumption.
  - destruct (led_chan L _ _ _ _ _ Hm) as (_ & (w0 & Hw0 & Ht) & _ & _).
    assert (w0 = w) by congruence. subst w0.
    destruct (inv_reading I chan) as (w1 & Hw1 & Hopen);
      [rewrite Hm; reflexivity |].
    assert (w1 = w) by congruence. subst w1.
    destruct O as (body & Hv & Oopen & Oclosed).
    destruct (Oopen _ _ _ _ _ w Hm Hw) as (pre & L0 & Hrows & HL & Hsub).
    unfold worker_owes in HL. rewrite Hpc, app_nil_r in HL.
    exists body. simpl. split; [assumption |]. split.
    + intros chan' tbl' pending' err' todo' w' [= <- <- <- <- <-] Hw'.
      apply list_lookup_insert_Some in Hw' as [(_ & <- & _) | [Hne _]];
        [| congruence].
      exists (pre ++ [row]), L0. split; [| split; [| assumption]].
      * rewrite Hrows, <- app_assoc. reflexivity.
      * rewrite flat_map_app. simpl. rewrite app_nil_r.
        unfold worker_owes. simpl. rewrite Ht, HL. reflexivity.
    + intros j w' Hw' Hc.
      apply list_lookup_insert_Some in Hw' as [(-> & <- & _) | [Hne Hw']].
      * simpl in Hc. congruence.
      * eapply Oclosed; eassumption.
  - apply (ordered_move view base s _ i w WSignal []); auto.
    + simpl. rewrite app_nil_r. reflexivity.
    + unfold worker_owes. rewrite Hpc. reflexivity.
  - apply (ordered_move view base s _ i w
             (WStmt (insert_sql (wtable w) m)) []); auto.
    + simpl. rewrite app_nil_r. reflexivity.
    + unfold worker_owes, row_lines. rewrite Hpc, Hrow. reflexivity.
  - apply (ordered_quiet view base s); auto.
  - apply (ordered_quiet view base s); auto.
  - match goal with |- context [log_if_error ?t ?e ?m ?x] =>
      destruct (log_if_error_frame t e m x) as (Em & Ew & Es & _ & _ & _)
    end.
    apply (ordered_move view base s _ i w WNewline [stmt]); auto.
    + rewrite Es. simpl.
      exact (proj2 (accepted_write view (sink s) stmt Hrec Hacc)).
    + unfold worker_owes. rewrite Hpc. reflexivity.
  - match goal with |- context [log_if_error ?t ?e ?m ?x] =>
      destruct (log_if_error_frame t e m x) as (Em & Ew & Es & _ & _ & _)
    end.
    apply (ordered_move view base s _ i w WRecv [newline]); auto.
    + rewrite Es. simpl.
      exact (proj2 (accepted_write view (sink s) newline Hrec Hacc)).
    + unfold worker_owes. rewrite Hpc. reflexivity.
  - apply (ordered_move view base s _ i w WExit []); auto.
    + simpl. rewrite app_nil_r. reflexivity.
    + unfold worker_owes. rewrite Hpc. reflexivity.
Qed.

(** X16: the rows of a table are written in the order the reader pushed
    them.  On a sink that can be read back and refuses no write, once a
    worker has left its loop, the statement and the line feed of every
    converted row of its table stand in the sink after the structure,
    each statement before its line feed and the rows in the order of the
    reader, possibly with lines of other tables in between. *)
Theorem X16_rows_written_in_order (view : Sink -> list string)
  (output : Sink) (ls : list label) (s : state) (tables : list string)
  (structure : string) :
  records view -> accepts_all ->
  GetTables rdr = (tables, None) -> GetStructure rdr = (structure, None) ->
  run ls (Dump_begin output) = Some s ->
  exists body,
    view (sink s) = view output ++ structure :: body
    /\ forall i w,
         workers s !! i = Some w -> leaving (wpc w) = true ->
         sublist (flat_map (row_lines (wtable w)) (rows_of (wtable w))) body.
Proof.
  intros Hrec Hacc Ht Hs Hrun.
  destruct (accepted_write view output structure Hrec Hacc) as [Ew Hv].
  unfold Dump_begin in Hrun. rewrite Ht, Hs, Ew in Hrun.
  set (o := (WriteString output structure).1) in *.
  assert (P : inv tables s /\ ledger s /\ ordered view (view o) s).
  { refine (run_invariant
              (fun s => inv tables s /\ ledger s /\ ordered view (view o) s)
              _ ls _ s _ Hrun).
    - intros l s1 s2 (I & L & O) T. split; [| split].
      + eapply inv_transition; eassumption.
      + eapply ledger_transition; eassumption.
      + eapply ordered_transition; eassumption.
    - split; [apply inv_begin |]. split; [apply ledger_begin |].
      apply ordered_begin. }
  destruct P as (I & L & (body & Hview & _ & Oclosed)).
  exists body. split.
  - rewrite Hview, Hv, <- app_assoc. reflexivity.
  - intros i w Hw Hleave.
    destruct (Oclosed _ _ Hw (inv_leaving I _ _ Hw Hleave))
      as (L0 & HL & Hsub).
    assert (Howes : worker_owes w = []).
    { unfold worker_owes. destruct (wpc w); try discriminate; reflexivity. }
    rewrite Howes, app_nil_r in HL. rewrite <- HL. assumption.
Qed.

End Facts.

(** ** Two configurations compared *)

Section Configurations.

Variable fmt_float64 : Z -> string.
Variable time_String : Time -> string.
Variable Settings : Type.
Variable ReadTableOpt : Type.
Variable zeroOpt : ReadTableOpt.
Variable NewReadTableOpt : @Table Settings -> ReadTableOpt.
Variable Sink : Type.
Variable WriteString : Sink -> string -> Sink * option error.
Variable insert_sql : string -> gmap string string -> string.
Variable rdr : @Reader ReadTableOpt.

Local Abbreviation state := (state ReadTableOpt Sink).
Local Abbreviation opts_for := (opts_for zeroOpt NewReadTableOpt).
Local Abbreviation main_step := (main_step zeroOpt NewReadTableOpt rdr).
Local Abbreviation step :=
  (step fmt_float64 time_String zeroOpt NewReadTableOpt WriteString insert_sql
     rdr).
Local Abbreviation run :=
  (run fmt_float64 time_String zeroOpt NewReadTableOpt WriteString insert_sql
     rdr).

(** Two configurations under which the loop head treats every table
    alike give the same steps, hence the same runs. *)
Lemma run_same_plan (cfgA cfgB : list (Table Settings)) :
  (forall s : state, main_step cfgA s = main_step cfgB s) ->
  forall ls (s : state), run cfgA ls s = run cfgB ls s.
Proof.
  intros Hmain ls. induction ls as [|l ls IH]; intros s; [reflexivity|].
  simpl.
  assert (E : step cfgA l s = step cfgB l s).
  { unfold step. destruct (halted s); [reflexivity|].
    destruct l; auto. }
  rewrite E. destruct (step cfgB l s); auto.
Qed.

(** C9 (as amended): a table without a configuration entry and the same
    table with an entry whose ignore-data flag is false are both
    included: in both runs the loop head spawns a worker and calls the
    reader for the table.  The read options differ: the zero value in the
    first run, the options built from the entry in the second.  When
    these two coincide, and the configurations agree on every other
    table, the two runs are the same along every schedule. *)
Theorem C9_absent_or_not_ignored (cfgA cfgB : list (Table Settings))
  (tbl : string) (tableConfig : Table Settings) :
  FindByName cfgA tbl = None ->
  FindByName cfgB tbl = Some tableConfig ->
  IgnoreData tableConfig = false ->
  (forall t, t <> tbl -> FindByName cfgA t = FindByName cfgB t) ->
  (included cfgA tbl = true /\ included cfgB tbl = true)
  /\ (opts_for cfgA tbl = zeroOpt
      /\ opts_for cfgB tbl = NewReadTableOpt tableConfig)
  /\ (forall (s : state) todo,
        halted s = None -> main s = MLoop (tbl :: todo) ->
        step cfgA LMain s = Some (start_table rdr tbl zeroOpt todo s)
        /\ step cfgB LMain s
           = Some (start_table rdr tbl (NewReadTableOpt tableConfig) todo s))
  /\ (NewReadTableOpt tableConfig = zeroOpt ->
      forall ls (s : state), run cfgA ls s = run cfgB ls s).
Proof.
  intros HA HB Hi Hother.
  split; [|split; [|split]].
  - unfold included. rewrite HA, HB, Hi. split; reflexivity.
  - unfold opts_for. rewrite HA, HB. split; reflexivity.
  - intros s todo Hh Hm. unfold step, main_step.
    rewrite Hh, Hm, HA, HB, Hi. split; reflexivity.
  - intros Heq. apply run_same_plan. intros s. unfold main_step.
    destruct (main s) as [[|t todo]|chan t pending err todo|r]; try reflexivity.
    destruct (String.eqb_spec t tbl) as [->|Hne].
    + now rewrite HA, HB, Hi, Heq.
    + now rewrite (Hother t Hne).
Qed.

End Configurations.

(** * The properties on concrete runs *)

(** C10, on an [int32]: it is numeric, and is refused. *)
Lemma C10_witness :
  numeric (VNum KInt32 7) = true
  /\ toSQLStringValue demo_float demo_time (VNum KInt32 7)
     = Ret ("", Some ErrCouldNotParse).
Proof.
  split; [reflexivity|].
  exact (proj1 (C10_only_64_bit_numbers demo_float demo_time
                  (VNum KInt32 7) eq_refl)).
Defined.

(** C4, on a value of a struct type in the second cell of a row. *)
Lemma C4_witness :
  supported (VOpaque "geo.Point") = false
  /\ toSQLStringValue demo_float demo_time (VOpaque "geo.Point")
     = Ret ("", Some ErrCouldNotParse)
  /\ forall m, toSQLColumnMap demo_float demo_time shape_row <> Ret (m, None).
Proof.
  split; [reflexivity|].
  destruct (C4_unsupported_aborts_row demo_float demo_time nat nat 0%nat
              limit_of (list string) keep_lines demo_insert shapes_reader []
              (VOpaque "geo.Point") eq_refl) as [Hfail Hrow].
  split; [exact Hfail|].
  apply (Hrow shape_row "at"). unfold shape_row.
  apply elem_of_cons. right. apply elem_of_cons. left. reflexivity.
Defined.

(** C3, where the claim as stated fails: the row whose second cell does
    not convert comes back with the error and with a map that holds the
    first column and not the second. *)
Lemma C3_counterexample :
  exists (m : gmap string string) (e : error),
    toSQLColumnMap demo_float demo_time shape_row = Ret (m, Some e)
    /\ m !! "id" = Some "7"
    /\ m !! "at" = None
    /\ m <> ∅.
Proof.
  exists {["id" := "7"]}, ErrCouldNotParse. repeat split.
  intros E. apply (f_equal (fun m : gmap string string => m !! "id")) in E.
  vm_compute in E. discriminate.
Qed.

(** C3 as amended, on that row. *)
Lemma C3_witness :
  toSQLColumnMap demo_float demo_time shape_row
  = Ret (literals demo_float demo_time ∅ [("id", VInt64 7)],
         Some ErrCouldNotParse).
Proof.
  assert (Hok : row_ok ([("id", VInt64 7)] ++ ("at", VOpaque "geo.Point") :: [])).
  { unfold row_ok. simpl. apply NoDup_cons_2; [|apply NoDup_singleton].
    intros H%list_elem_of_singleton. discriminate H. }
  assert (Hpre : Forall (fun c => converts demo_float demo_time c.2)
                   [("id", VInt64 7)]).
  { constructor; [|constructor]. exists "7". reflexivity. }
  exact (proj1 (C3_first_error_and_partial_map demo_float demo_time
                  [("id", VInt64 7)] [] "at" (VOpaque "geo.Point") ""
                  ErrCouldNotParse Hok Hpre eq_refl)).
Defined.

(** C1, where the claim as stated fails: [Dump] has returned nil after
    starting one worker, and no completion signal has been received. *)
Lemma C1_counterexample :
  exists s,
    demo_run demo_reader demo_config users_schedule (demo_begin demo_reader)
    = Some s
    /\ main s = MReturned None
    /\ length (workers s) = 1%nat
    /\ signals s = [].
Proof. eexists. split; [vm_compute; reflexivity|]. repeat split. Qed.

(** C1 as amended, on the same run carried on until the worker has
    signalled. *)
Lemma C1_witness :
  exists s,
    demo_run demo_reader demo_config (users_schedule ++ [LWorker 0; LDone 0])
      (demo_begin demo_reader) = Some s
    /\ (length (signals s) <= length (workers s))%nat
    /\ (main s = MReturned None ->
        wtable <$> workers s
        = filter (fun t => included demo_config t = true)
            (GetTables demo_reader).1).
Proof.
  eexists. split; [vm_compute; reflexivity|].
  match goal with |- (length (signals ?s) <= _)%nat /\ _ =>
    destruct (C1_signals_and_return demo_float demo_time nat nat 0%nat
                limit_of (list string) keep_lines demo_insert demo_reader
                demo_config [] (users_schedule ++ [LWorker 0; LDone 0]) s)
      as (H1 & _ & H3 & _)
  end.
  - vm_compute. reflexivity.
  - split; [exact H1|exact H3].
Defined.

(** C6, where the claim as stated fails: the row of [shapes] does not
    convert, the fatal log call ends the process, and the run is
    complete with a worker that has emitted no signal. *)
Lemma C6_counterexample :
  exists s w,
    demo_run shapes_reader [] [LMain; LSend; LWorker 0]
      (demo_begin shapes_reader) = Some s
    /\ (forall l, demo_step shapes_reader [] l s = None)
    /\ halted s = Some (Exited 1)
    /\ workers s !! 0%nat = Some w
    /\ emitted 0 s = 0%nat.
Proof.
  eexists. eexists. split; [vm_compute; reflexivity|].
  repeat split.
Qed.

(** C6 as amended, on the complete run of [users]. *)
Lemma C6_witness :
  exists s,
    demo_run demo_reader demo_config (users_schedule ++ [LWorker 0; LDone 0])
      (demo_begin demo_reader) = Some s
    /\ (forall i, (emitted i s <= 1)%nat)
    /\ (forall i, emitted i s = 1%nat ->
                  exists w, workers s !! i = Some w
                            /\ wclosed w = true /\ wpc w = WExit).
Proof.
  eexists. split; [vm_compute; reflexivity|].
  match goal with |- (forall i, (emitted i ?s <= _)%nat) /\ _ =>
    destruct (C6_one_signal_per_worker demo_float demo_time nat nat 0%nat
                limit_of (list string) keep_lines demo_insert demo_reader
                demo_config [] (users_schedule ++ [LWorker 0; LDone 0]) s)
      as (H1 & H2 & _)
  end.
  - vm_compute. reflexivity.
  - split; [exact H1|exact H2].
Defined.

(** C7, on [logs], whose data the configuration ignores. *)
Lemma C7_witness :
  exists s,
    demo_run demo_reader demo_config users_schedule (demo_begin demo_reader)
    = Some s
    /\ ("logs" ∉ (wtable <$> workers s))
    /\ ("logs" ∉ (reads s).*1).
Proof.
  eexists. split; [vm_compute; reflexivity|].
  match goal with |- (_ ∉ (wtable <$> workers ?s)) /\ _ =>
    destruct (C7_ignored_table_skipped demo_float demo_time nat nat 0%nat
                limit_of (list string) keep_lines demo_insert demo_reader
                demo_config [] users_schedule s "logs"
                (mkTable "logs" true 0%nat) eq_refl eq_refl)
      as (_ & Hrun)
  end.
  destruct Hrun as (H1 & H2 & _); [vm_compute; reflexivity|].
  split; [exact H1|exact H2].
Defined.

(** C8, with a sink that rejects every write: the worker holding the
    first row of [users] is back at its receive, and takes the second
    row. *)
Lemma C8_witness :
  exists s3,
    refusing_run demo_reader demo_config [LWorker 0; LWorker 0; LWorker 0]
      holding_ann = Some s3
    /\ workers s3 !! 0%nat = Some (mkWorker "users" false WRecv)
    /\ halted s3 = None
    /\ main s3 = main holding_ann
    /\ signals s3 = [].
Proof.
  destruct (C8_write_failure_continues demo_float demo_time nat nat 0%nat
              limit_of (list string) reject_writes demo_insert demo_reader
              demo_config holding_ann 0%nat
              (mkWorker "users" false (WRow ann)) ann
              (literals demo_float demo_time ∅ ann)
              ["CREATE TABLE users; "] (ErrNew "short write")
              eq_refl eq_refl eq_refl)
    as (s3 & H1 & H2 & H3 & H4 & H5 & _).
  - vm_compute. reflexivity.
  - vm_compute. reflexivity.
  - exists s3. repeat split; assumption.
Defined.

(** C9, where the claim as stated fails: with no entry for [users] the
    reader is called with the zero options; with an entry that sets a
    limit of ten rows and does not ignore the data, it is called with
    that limit. *)
Lemma C9_counterexample :
  exists sA sB,
    demo_run demo_reader [] [LMain] (demo_begin demo_reader) = Some sA
    /\ demo_run demo_reader [mkTable "users" false 10%nat] [LMain]
         (demo_begin demo_reader) = Some sB
    /\ reads sA = [("users", 0%nat)]
    /\ reads sB = [("users", 10%nat)]
    /\ workers sA = workers sB.
Proof.
  eexists. eexists.
  split; [vm_compute; reflexivity|].
  split; [vm_compute; reflexivity|].
  repeat split.
Qed.

(** C9 as amended, on an entry for [users] that sets nothing: along a
    schedule that dumps both tables, the run without the entry and the
    run with it end in the same state, with a worker and a read for each
    of the two tables, [users] read with the zero options, and the same
    lines in the sink. *)
Lemma C9_witness :
  exists s,
    demo_run demo_reader [] both_tables_schedule (demo_begin demo_reader)
    = Some s
    /\ demo_run demo_reader [mkTable "users" false 0%nat]
         both_tables_schedule (demo_begin demo_reader) = Some s
    /\ main s = MReturned None
    /\ reads s = [("users", 0%nat); ("logs", 0%nat)]
    /\ wtable <$> workers s = ["users"; "logs"]
    /\ signals s = [0%nat; 1%nat]
    /\ length (sink s) = 7%nat.
Proof.
  assert (Hsame :
    demo_run demo_reader [] both_tables_schedule (demo_begin demo_reader)
    = demo_run demo_reader [mkTable "users" false 0%nat]
        both_tables_schedule (demo_begin demo_reader)).
  { refine (proj2 (proj2 (proj2
      (C9_absent_or_not_ignored demo_float demo_time nat nat 0%nat limit_of
         (list string) keep_lines demo_insert demo_reader
         [] [mkTable "users" false 0%nat] "users"
         (mkTable "users" false 0%nat)
         eq_refl eq_refl eq_refl _))) eq_refl both_tables_schedule
      (demo_begin demo_reader)).
    intros t Ht.
    change (None = if String.eqb "users" t
                   then Some (mkTable "users" false 0%nat) else None).
    destruct (String.eqb_spec "users" t) as [E|_]; [|reflexivity].
    now destruct Ht. }
  eexists. split; [vm_compute; reflexivity|].
  split; [rewrite <- Hsame; vm_compute; reflexivity|].
  repeat split.
Defined.

(** X2, on the row of Ann visited in the other order. *)
Lemma X2_witness :
  toSQLColumnMap demo_float demo_time [("name", VString "Ann"); ("id", VInt64 1)]
  = toSQLColumnMap demo_float demo_time ann.
Proof.
  refine (proj1 (X2_serialise_any_order demo_float demo_time ann
                   [("name", VString "Ann"); ("id", VInt64 1)] _ _ _)).
  - apply perm_swap.
  - unfold row_ok. simpl. apply NoDup_cons_2; [| apply NoDup_singleton].
    intros H%list_elem_of_singleton. discriminate H.
  - constructor; [| constructor; [| constructor]].
    + exists "1". reflexivity.
    + exists "Ann". reflexivity.
Defined.

(** X3, on the row with a value of a struct type. *)
Lemma X3_witness :
  exists m,
    toSQLColumnMap demo_float demo_time shape_row
    = Ret (m, Some ErrCouldNotParse)
    /\ m !! "at" = None.
Proof.
  assert (Hok : row_ok shape_row).
  { unfold row_ok. simpl. apply NoDup_cons_2; [| apply NoDup_singleton].
    intros H%list_elem_of_singleton. discriminate H. }
  assert (Hbox : Forall (fun c : string * value => strip c.2 <> VNilBox)
                   shape_row).
  { constructor; [simpl; discriminate |].
    constructor; [simpl; discriminate | constructor]. }
  assert (Hin : ("at", VOpaque "geo.Point") ∈ shape_row).
  { unfold shape_row. apply elem_of_cons. right. apply elem_of_cons. left.
    reflexivity. }
  destruct (X3_unsupported_any_order demo_float demo_time shape_row "at"
              (VOpaque "geo.Point") Hok Hbox Hin eq_refl)
    as (m & H1 & H2 & _).
  exists m. split; assumption.
Defined.

(** X4, on a reader whose table list cannot be fetched. *)
Lemma X4_witness :
  workers (demo_begin broken_reader) = []
  /\ reads (demo_begin broken_reader) = []
  /\ logs (demo_begin broken_reader) = []
  /\ sink (demo_begin broken_reader) = [].
Proof.
  destruct (X4_Dump_error_return demo_float demo_time nat nat 0%nat limit_of
              (list string) keep_lines demo_insert broken_reader [] [] []
              (demo_begin broken_reader)
              (Some (ErrWrap (ErrNew "connection refused")
                       "failed to get tables"))
              eq_refl eq_refl)
    as (_ & H1 & H2 & H3 & _ & _ & Hcase).
  split; [exact H1 |]. split; [exact H2 |]. split; [exact H3 |].
  destruct Hcase as [(err & _ & _ & Hs) | [(err & He & _) | (err & He & _)]].
  - exact Hs.
  - discriminate He.
  - discriminate He.
Defined.

(** X5, on the run of [users]: one read, of [users], with the zero
    options. *)
Lemma X5_witness :
  exists s,
    demo_run demo_reader demo_config users_schedule (demo_begin demo_reader)
    = Some s
    /\ reads s = [("users", 0%nat)].
Proof.
  eexists. split; [vm_compute; reflexivity |].
  match goal with |- reads ?s = _ =>
    destruct (X5_tables_read demo_float demo_time nat nat 0%nat limit_of
                (list string) keep_lines demo_insert demo_reader demo_config
                [] users_schedule s) as (_ & _ & H3)
  end.
  - vm_compute. reflexivity.
  - rewrite (H3 eq_refl). vm_compute. reflexivity.
Defined.

(** X6, when the worker of [users] has just received the first row. *)
Lemma X6_witness :
  exists s,
    demo_run demo_reader demo_config [LMain; LSend] (demo_begin demo_reader)
    = Some s
    /\ length (workers s) = 1%nat
    /\ exists pending err todo, main s = MRead 0 "users" pending err todo.
Proof.
  eexists. split; [vm_compute; reflexivity |].
  match goal with |- length (workers ?s) = _ /\ _ =>
    destruct (X6_one_table_at_a_time demo_float demo_time nat nat 0%nat
                limit_of (list string) keep_lines demo_insert demo_reader
                demo_config [] [LMain; LSend] s 0%nat
                (mkWorker "users" false (WRow ann)))
      as (H1 & H2 & _)
  end.
  - vm_compute. reflexivity.
  - reflexivity.
  - reflexivity.
  - split; [exact H1 | exact H2].
Defined.

(** X7, in the same state: the row held is a row of [users]. *)
Lemma X7_witness :
  exists s,
    demo_run demo_reader demo_config [LMain; LSend] (demo_begin demo_reader)
    = Some s
    /\ included demo_config "users" = true
    /\ ann ∈ rows_of 0%nat limit_of demo_reader demo_config "users".
Proof.
  eexists. split; [vm_compute; reflexivity |].
  match goal with |- _ =>
    destruct (X7_worker_serves_own_table demo_float demo_time nat nat 0%nat
                limit_of (list string) keep_lines demo_insert demo_reader
                demo_config [] [LMain; LSend]
                (mkState (MRead 0 "users" [bo] None ["logs"])
                   [mkWorker "users" false (WRow ann)]
                   ["CREATE TABLE users; "] [] [("users", 0%nat)] [] None)
                0%nat (mkWorker "users" false (WRow ann)))
      as (H1 & _ & H3 & _)
  end.
  - vm_compute. reflexivity.
  - reflexivity.
  - split; [exact H1 | exact (H3 ann eq_refl)].
Defined.

(** X8, on the table whose row does not convert. *)
Lemma X8_witness :
  exists s,
    demo_run shapes_reader [] [LMain; LSend; LWorker 0]
      (demo_begin shapes_reader) = Some s
    /\ halted s = Some (Exited 1)
    /\ forall l, demo_step shapes_reader [] l s = None.
Proof.
  eexists. split; [vm_compute; reflexivity |].
  split; [reflexivity |].
  match goal with |- forall l, demo_step _ _ l ?s = None =>
    refine (proj1 (X8_early_end_causes demo_float demo_time nat nat 0%nat
                     limit_of (list string) keep_lines demo_insert
                     shapes_reader [] [] [LMain; LSend; LWorker 0] s
                     (Exited 1) _ eq_refl))
  end.
  vm_compute. reflexivity.
Defined.

(** X9, on the tables of the examples, whose rows all convert. *)
Lemma X9_witness :
  exists s,
    demo_run demo_reader demo_config whole_schedule (demo_begin demo_reader)
    = Some s
    /\ halted s = None.
Proof.
  eexists. split; [vm_compute; reflexivity |].
  match goal with |- halted ?s = None =>
    refine (proj1 (X9_clean_rows_run_to_the_end demo_float demo_time nat nat
                     0%nat limit_of (list string) keep_lines demo_insert
                     demo_reader demo_config [] whole_schedule s _ _))
  end.
  - intros tbl row Htbl Hinc Hrow.
    change (tbl ∈ ["users"; "logs"]) in Htbl.
    apply elem_of_cons in Htbl as [-> | Htbl].
    + change (row ∈ [ann; bo]) in Hrow.
      apply elem_of_cons in Hrow as [-> | Hrow].
      * repeat constructor; discriminate.
      * apply list_elem_of_singleton in Hrow as ->.
        repeat constructor; discriminate.
    + apply list_elem_of_singleton in Htbl as ->. discriminate Hinc.
  - vm_compute. reflexivity.
Defined.

(** X10, on the run of [users]: what the sink holds after the structure
    is among the lines of the dump. *)
Lemma X10_witness :
  exists s body,
    demo_run demo_reader demo_config users_schedule (demo_begin demo_reader)
    = Some s
    /\ demo_view (sink s) = demo_view [] ++ "CREATE TABLE users; " :: body
    /\ body ⊆+ all_lines demo_float demo_time 0%nat limit_of demo_insert
                 demo_reader demo_config ["users"; "logs"].
Proof.
  eexists.
  match goal with |- exists body, _ = Some ?s /\ _ =>
    destruct (X10_written_lines_belong_to_the_dump demo_float demo_time nat
                nat 0%nat limit_of (list string) keep_lines demo_insert
                demo_reader demo_config demo_view [] users_schedule s
                ["users"; "logs"] "CREATE TABLE users; ")
      as (body & H1 & H2 & _)
  end.
  - intros o line. reflexivity.
  - reflexivity.
  - reflexivity.
  - reflexivity.
  - vm_compute. reflexivity.
  - exists body. split; [vm_compute; reflexivity |].
    split; [exact H1 | exact H2].
Defined.

(** X11, on the whole run of [users]: the sink holds the structure and
    the four lines of the two rows. *)
Lemma X11_witness :
  exists s body,
    demo_run demo_reader demo_config whole_schedule (demo_begin demo_reader)
    = Some s
    /\ demo_view (sink s) = demo_view [] ++ "CREATE TABLE users; " :: body
    /\ body ≡ₚ all_lines demo_float demo_time 0%nat limit_of demo_insert
                 demo_reader demo_config ["users"; "logs"].
Proof.
  eexists.
  match goal with |- exists body, _ = Some ?s /\ _ =>
    destruct (X11_finished_dump_is_whole demo_float demo_time nat
                nat 0%nat limit_of (list string) keep_lines demo_insert
                demo_reader demo_config demo_view [] whole_schedule s
                ["users"; "logs"] "CREATE TABLE users; ")
      as (body & lost & H1 & _ & _ & H4 & _)
  end.
  - intros o line. reflexivity.
  - reflexivity.
  - reflexivity.
  - reflexivity.
  - vm_compute. reflexivity.
  - intros [| | [| i] | [| i]]; reflexivity.
  - reflexivity.
  - exists body. split; [vm_compute; reflexivity |].
    split; [exact H1 | exact (H4 eq_refl)].
Defined.

(** X12, on a reader that fails after one row: when [Dump] has returned,
    the failed read of [users] is in the log. *)
Lemma X12_witness :
  exists s,
    demo_run flaky_reader []
      [LMain; LSend; LWorker 0; LWorker 0; LWorker 0; LMain; LMain]
      (demo_begin flaky_reader) = Some s
    /\ main s = MReturned None
    /\ read_failures (logs s)
       = [mkEntry LvlError "users" (ErrNew "connection lost")
            "error while reading table"].
Proof.
  eexists. split; [vm_compute; reflexivity |].
  split; [reflexivity |].
  match goal with |- read_failures (logs ?s) = _ =>
    destruct (X12_failed_reads_logged demo_float demo_time nat nat 0%nat
                limit_of (list string) keep_lines demo_insert flaky_reader
                [] []
                [LMain; LSend; LWorker 0; LWorker 0; LWorker 0; LMain; LMain]
                s) as (_ & H2)
  end.
  - vm_compute. reflexivity.
  - rewrite (H2 eq_refl). vm_compute. reflexivity.
Defined.

(** X14, on the table whose row does not convert: the run that has gone
    to its end has ended early. *)
Lemma X14_witness :
  exists s,
    demo_run shapes_reader [] [LMain; LSend; LWorker 0]
      (demo_begin shapes_reader) = Some s
    /\ is_Some (halted s).
Proof.
  eexists. split; [vm_compute; reflexivity |].
  match goal with |- is_Some (halted ?s) =>
    refine (proj2 (X14_bad_row_never_finishes demo_float demo_time nat nat
                     0%nat limit_of (list string) keep_lines demo_insert
                     shapes_reader [] [] [LMain; LSend; LWorker 0] s
                     "shapes" shape_row eq_refl eq_refl eq_refl _ _ _
                     eq_refl _)
              "at" (VOpaque "geo.Point") _ (or_introl eq_refl))
  end.
  - vm_compute. reflexivity.
  - intros l. reflexivity.
  - apply elem_of_cons. left. reflexivity.
  - apply elem_of_cons. left. reflexivity.
  - unfold shape_row. apply elem_of_cons. right. apply elem_of_cons. left.
    reflexivity.
Defined.

(** X15, with no table skipped: the second row of [users] and the row of
    [logs] end up on one line. *)
Lemma X15_witness :
  exists ls s',
    demo_run demo_reader [] (last_row_pending ++ ls) (demo_begin demo_reader)
    = Some s'
    /\ demo_view (sink s')
       = ["CREATE TABLE users; ";
          demo_insert "users" (literals demo_float demo_time ∅ ann);
          newline]
         ++ [demo_insert "users" (literals demo_float demo_time ∅ bo);
             demo_insert "logs" (literals demo_float demo_time ∅ line_row);
             newline; newline].
Proof.
  destruct (X15_statements_can_interleave demo_float demo_time nat nat 0%nat
              limit_of (list string) keep_lines demo_insert demo_reader []
              demo_view [] last_row_pending
              (mkState (MRead 0 "users" [] None ["logs"])
                 [mkWorker "users" false
                    (WStmt (demo_insert "users"
                              (literals demo_float demo_time ∅ bo)))]
                 ["CREATE TABLE users; ";
                  demo_insert "users" (literals demo_float demo_time ∅ ann);
                  newline]
                 [] [("users", 0%nat)] [] None)
              0%nat "users" "logs" None [] 
              (mkWorker "users" false
                 (WStmt (demo_insert "users"
                           (literals demo_float demo_time ∅ bo))))
              (demo_insert "users" (literals demo_float demo_time ∅ bo))
              line_row [] (literals demo_float demo_time ∅ line_row))
    as (ls & s' & H1 & H2).
  - intros o line. reflexivity.
  - intros o line. reflexivity.
  - vm_compute. reflexivity.
  - reflexivity.
  - reflexivity.
  - reflexivity.
  - reflexivity.
  - reflexivity.
  - reflexivity.
  - reflexivity.
  - exists ls, s'. split; [exact H1 | exact H2].
Defined.

(** X16, on the whole run of [users]: the four lines of its two rows
    stand in the sink in the order of the rows. *)
Lemma X16_witness :
  exists s body,
    demo_run demo_reader demo_config whole_schedule (demo_begin demo_reader)
    = Some s
    /\ demo_view (sink s) = demo_view [] ++ "CREATE TABLE users; " :: body
    /\ sublist
         (flat_map (row_lines demo_float demo_time demo_insert "users")
            (rows_of 0%nat limit_of demo_reader demo_config "users"))
         body.
Proof.
  eexists.
  match goal with |- exists body, _ = Some ?s /\ _ =>
    destruct (X16_rows_written_in_order demo_float demo_time nat nat 0%nat
                limit_of (list string) keep_lines demo_insert demo_reader
                demo_config demo_view [] whole_schedule s
                ["users"; "logs"] "CREATE TABLE users; ")
      as (body & H1 & H2)
  end.
  - intros o line. reflexivity.
  - intros o line. reflexivity.
  - reflexivity.
  - reflexivity.
  - vm_compute. reflexivity.
  - exists body. split; [vm_compute; reflexivity |].
    split; [exact H1 |].
    exact (H2 0%nat (mkWorker "users" true WExit) eq_refl eq_refl).
Defined.
